(** * armies-battle: the combat rules, the war-machine arming, the deployment
      model and the fast-forward resolver, embedded from the TypeScript source.

    Numbers.  A TypeScript [number] is modelled by an exact rational ([Q]):
    every constant of the program (0.45, 2.5, 0.5, 1.2, the catalogue stats,
    the map sizes) is a rational, and the program only adds, subtracts,
    multiplies, divides by a non-zero constant, compares and rounds.  The
    special values NaN and the infinities and the rounding error of binary
    floating point are outside the model.  An optional field ([range?:
    number]) is an [option Q]; [undefined] is [None]. *)

From Stdlib Require Import ZArith QArith Qround Qabs List Bool Lia Lqa Sorted.
Import ListNotations.

Local Open Scope Q_scope.

(** ** JavaScript primitives used by the program *)

Module JS.

Definition number := Q.

(** Arithmetic.  A result is kept in lowest terms ([Qred]), which does not
    change its value ([Qred q == q]) and makes equal numbers equal terms. *)
Definition add (a b : number) : number := Qred (a + b).
Definition sub (a b : number) : number := Qred (a - b).
Definition mul (a b : number) : number := Qred (a * b).
Definition div (a b : number) : number := Qred (a / b).

(** [a <= b], [a < b], [a >= b], [a > b] on numbers, as the booleans the
    program branches on. *)
Definition le (a b : number) : bool := Qle_bool a b.
Definition lt (a b : number) : bool := negb (Qle_bool b a).
Definition ge (a b : number) : bool := Qle_bool b a.
Definition gt (a b : number) : bool := negb (Qle_bool a b).

(** Truthiness of an optional number, as in [stats.range ? a : b]:
    [undefined] and [0] are falsy. *)
Definition truthy (o : option number) : bool :=
  match o with
  | Some r => negb (Qeq_bool r 0)
  | None => false
  end.

(** [Math.round]: the nearest integer, ties towards plus infinity. *)
Definition Math_round (x : number) : number := inject_Z (Qfloor (x + (1 # 2))).

Definition Math_max (a b : number) : number := if le a b then b else a.

Definition Math_min (a b : number) : number := if le a b then a else b.

Definition Math_abs (x : number) : number := Qabs x.

(** [Math.sign]: -1, 0 or 1. *)
Definition Math_sign (x : number) : number :=
  if lt 0 x then 1 else if lt x 0 then - (1) else 0.

(** [Phaser.Math.Clamp(value, min, max)] is
    [Math.max(min, Math.min(max, value))]. *)
Definition Clamp (value min max : number) : number :=
  Math_max min (Math_min max value).

(** [Math.floor], and the remainder [a % b] (the sign of the dividend) for a
    divisor that is not 0. *)
Definition Math_floor (x : number) : number := inject_Z (Qfloor x).

Definition trunc (x : number) : number :=
  if le 0 x then inject_Z (Qfloor x) else inject_Z (Qceiling x).

Definition rem (a b : number) : number := sub a (mul b (trunc (div a b))).

End JS.

Declare Scope js_scope.
Delimit Scope js_scope with js.
Infix "+" := JS.add : js_scope.
Infix "-" := JS.sub : js_scope.
Infix "*" := JS.mul : js_scope.
Infix "/" := JS.div : js_scope.
Local Open Scope js_scope.

(** ** types/UnitType.ts *)

Module UnitTypes.

(** Modelled from the spec: types/UnitType.ts is not among the sources.  The
    spec describes the unit-type identifiers as three disjoint families,
    Regular, Hero and WarMachine; the members are the keys used by
    unitRepository.ts and unitVisuals.ts. *)
Inductive RegularUnitType : Set :=
  | WARD_HANDS | WARRIOR | DWARF | ORC | HALFLING | ELF | DARK_ELF
  | GOLEM | GARGOYLE | DENDRITE | UNDEAD.

Inductive HeroUnitType : Set :=
  | FIGHTER | HAMMER_LORD | RANGER | SHADOW_BLADE | OGR | PYROMANCER
  | CLERIC | DRUID | ENCHANTER | NECROMANCER | WARSMITH.

Inductive WarMachineType : Set :=
  | BALLISTA | CATAPULT | BATTERING_RAM | SIEGE_TOWER.

Inductive UnitType : Set :=
  | Regular (r : RegularUnitType)
  | Hero (h : HeroUnitType)
  | WarMachine (w : WarMachineType).

Definition RegularUnitType_eq_dec (a b : RegularUnitType) : {a = b} + {a <> b}.
Proof. decide equality. Defined.

Definition HeroUnitType_eq_dec (a b : HeroUnitType) : {a = b} + {a <> b}.
Proof. decide equality. Defined.

Definition WarMachineType_eq_dec (a b : WarMachineType) : {a = b} + {a <> b}.
Proof. decide equality. Defined.

Definition UnitType_eq_dec (a b : UnitType) : {a = b} + {a <> b}.
Proof.
  decide equality;
    [ apply RegularUnitType_eq_dec
    | apply HeroUnitType_eq_dec
    | apply WarMachineType_eq_dec ].
Defined.

(** Modelled from the spec: domain/army/unitTypeChecks.ts is not among the
    sources.  The spec names the three predicates [isHeroType],
    [isWarMachine] and [isRegularUnit] as the membership tests of the three
    families. *)
Definition isRegularUnit (t : UnitType) : bool :=
  match t with Regular _ => true | _ => false end.

Definition isHeroType (t : UnitType) : bool :=
  match t with Hero _ => true | _ => false end.

Definition isWarMachine (t : UnitType) : bool :=
  match t with WarMachine _ => true | _ => false end.

End UnitTypes.
Export UnitTypes.

(** ** domain/army/unitRepository.ts *)

Module UnitRepository.

Record CombatStats : Set := mkCombatStats {
  attack : JS.number;
  defense : JS.number;
  health : JS.number;
  speed : JS.number;
  range : option JS.number;
  rangeDamage : option JS.number
}.

Definition melee (a d h s : Z) : CombatStats :=
  mkCombatStats (inject_Z a) (inject_Z d) (inject_Z h) (inject_Z s) None None.

Definition ranged (a d r rd h s : Z) : CombatStats :=
  mkCombatStats (inject_Z a) (inject_Z d) (inject_Z h) (inject_Z s)
    (Some (inject_Z r)) (Some (inject_Z rd)).

Definition regularCombatStats (t : RegularUnitType) : CombatStats :=
  match t with
  | WARD_HANDS => melee 5 3 20 2
  | WARRIOR => melee 8 6 25 2
  | DWARF => melee 12 20 40 1
  | GOLEM => melee 25 50 10 5
  | GARGOYLE => melee 25 50 10 5
  | DENDRITE => melee 25 50 10 5
  | UNDEAD => melee 25 50 10 5
  | ORC => melee 10 15 30 2
  | HALFLING => ranged 6 3 15 8 15 4
  | ELF => ranged 15 4 20 15 20 3
  | DARK_ELF => ranged 15 4 20 15 20 3
  end.

Definition heroCombatStats (t : HeroUnitType) : CombatStats :=
  match t with
  | WARSMITH => ranged 30 3 2 30 18 4
  | FIGHTER => ranged 30 3 2 30 18 4
  | HAMMER_LORD => ranged 40 3 2 40 25 4
  | OGR => ranged 40 4 2 45 30 3
  | SHADOW_BLADE => ranged 30 3 30 30 18 5
  | RANGER => ranged 30 3 30 30 18 5
  | PYROMANCER => ranged 30 3 30 30 18 2
  | CLERIC => ranged 25 5 2 25 20 2
  | DRUID => ranged 20 4 2 20 22 3
  | ENCHANTER => ranged 15 3 35 15 16 2
  | NECROMANCER => ranged 35 2 25 35 15 2
  end.

(** The record [unitCombatStats] has a key for every Regular and every Hero
    type and none for a WarMachine type: indexing it with a war machine gives
    [undefined]. *)
Definition unitCombatStats (t : UnitType) : option CombatStats :=
  match t with
  | Regular r => Some (regularCombatStats r)
  | Hero h => Some (heroCombatStats h)
  | WarMachine _ => None
  end.

End UnitRepository.

(** ** domain/battle/combatRules.ts *)

Module CombatRules.
Import UnitRepository.

Record BattleDerivedStats : Set := mkBattleDerivedStats {
  speed : JS.number;
  range : JS.number;
  isRanged : bool;
  cooldownMs : JS.number
}.

Record AttackProfile : Set := mkAttackProfile {
  attack : JS.number;
  rangeDamage : option JS.number
}.

Record DefenseProfile : Set := mkDefenseProfile {
  defense : JS.number
}.

Definition DEFAULT_MELEE_RANGE : JS.number := 18.
Definition RANGE_SCALE : JS.number := 5.
Definition SPEED_SCALE : JS.number := 20.
Definition RANGED_THRESHOLD : JS.number := 10.
Definition RANGED_COOLDOWN_MS : JS.number := 700.
Definition MELEE_COOLDOWN_MS : JS.number := 450.

Definition speedToPixelsPerSecond (speed : JS.number) : JS.number :=
  speed * SPEED_SCALE.

Definition rangeToPixels (range : option JS.number) : JS.number :=
  match range with
  | Some r => if JS.truthy range then r * RANGE_SCALE else DEFAULT_MELEE_RANGE
  | None => DEFAULT_MELEE_RANGE
  end.

Definition deriveBattleStats (stats : CombatStats) : BattleDerivedStats :=
  let range := rangeToPixels (UnitRepository.range stats) in
  let isRanged :=
    match UnitRepository.range stats with
    | Some r => JS.ge r RANGED_THRESHOLD
    | None => false
    end in
  {| speed := speedToPixelsPerSecond (UnitRepository.speed stats);
     range := range;
     isRanged := isRanged;
     cooldownMs :=
       if JS.truthy (UnitRepository.range stats)
       then RANGED_COOLDOWN_MS else MELEE_COOLDOWN_MS |}.

Definition calculateDamage (attacker : AttackProfile) (target : DefenseProfile)
  : JS.number :=
  let attackPower :=
    match rangeDamage attacker with
    | Some rd => if JS.gt rd 0 then rd else attack attacker
    | None => attack attacker
    end in
  let mitigation := defense target * (45 # 100) in
  let rawDamage := attackPower - mitigation in
  JS.Math_max 1 (JS.Math_round rawDamage).

End CombatRules.

(** ** types/WarMachineArming.ts *)

Module WarMachineArming.
Import UnitRepository.

Record ArmedWarMachine : Set := mkArmedWarMachine {
  armedWith : RegularUnitType;
  combatStats : CombatStats
}.

Definition calculateArmedWarMachineStats (unitStats : CombatStats)
  : CombatStats :=
  let attack := JS.Math_round (attack unitStats * 2) in
  let defense := JS.Math_round (defense unitStats * 2) in
  let health := JS.Math_round (health unitStats * (25 # 10)) in
  let speed := JS.Math_round (speed unitStats * (5 # 10)) in
  let range := 35 in
  let rangeDamage := JS.Math_round (attack * (12 # 10)) in
  {| UnitRepository.attack := attack;
     UnitRepository.defense := defense;
     UnitRepository.health := health;
     UnitRepository.speed := speed;
     UnitRepository.range := Some range;
     UnitRepository.rangeDamage := Some rangeDamage |}.

End WarMachineArming.

(** ** game/battleTypes.ts *)

Module BattleTypes.

Inductive Phase : Set := deploy | battle.
Inductive Team : Set := attacker | defender.

Definition Team_eqb (a b : Team) : bool :=
  match a, b with
  | attacker, attacker | defender, defender => true
  | _, _ => false
  end.

End BattleTypes.
Export BattleTypes.

(** ** Exceptions

    A call either returns, throws, or (for the one unbounded loop of the
    program, run with a bound on its iterations) has not finished within the
    bound. *)

Module Exceptions.

Inductive Exception : Set :=
  | MissingCombatStats (type : UnitType)
      (* new Error(`Missing combat stats for unit type: ${type}`) *)
  | TypeError
      (* reading a property of undefined *).

Inductive Outcome (A : Type) : Type :=
  | Return (a : A)
  | Throw (e : Exception)
  | OutOfFuel.

Arguments Return {A} a.
Arguments Throw {A} e.
Arguments OutOfFuel {A}.

Definition bind {A B : Type} (m : Outcome A) (k : A -> Outcome B) : Outcome B :=
  match m with
  | Return a => k a
  | Throw e => Throw e
  | OutOfFuel => OutOfFuel
  end.

Definition throws {A : Type} (m : Outcome A) : bool :=
  match m with Throw _ => true | _ => false end.

End Exceptions.
Export Exceptions.

Notation "x <- m ;; k" := (bind m (fun x => k))
  (at level 61, m at next level, right associativity).

(** ** domain/battle/simulateBattle.ts *)

Module SimulateBattle.

Record SimUnit : Set := mkSimUnit {
  id : Z;
  team : Team;
  type : UnitType;
  attack : JS.number;
  defense : JS.number;
  hp : JS.number;
  maxHp : JS.number;
  speed : JS.number;
  range : JS.number;
  rangeDamage : option JS.number;
  isRanged : bool;
  cooldownMs : JS.number;
  lastAttackAt : JS.number;
  x : JS.number
}.

(** Assignments to the three fields the resolver mutates. *)
Definition set_hp (u : SimUnit) (v : JS.number) : SimUnit :=
  mkSimUnit (id u) (team u) (type u) (attack u) (defense u) v (maxHp u)
    (speed u) (range u) (rangeDamage u) (isRanged u) (cooldownMs u)
    (lastAttackAt u) (x u).

Definition set_lastAttackAt (u : SimUnit) (v : JS.number) : SimUnit :=
  mkSimUnit (id u) (team u) (type u) (attack u) (defense u) (hp u) (maxHp u)
    (speed u) (range u) (rangeDamage u) (isRanged u) (cooldownMs u) v (x u).

Definition set_x (u : SimUnit) (v : JS.number) : SimUnit :=
  mkSimUnit (id u) (team u) (type u) (attack u) (defense u) (hp u) (maxHp u)
    (speed u) (range u) (rangeDamage u) (isRanged u) (cooldownMs u)
    (lastAttackAt u) v.

(** A [SimUnit] is passed where an [AttackProfile] or a [DefenseProfile] is
    expected (structural typing). *)
Definition asAttackProfile (u : SimUnit) : CombatRules.AttackProfile :=
  CombatRules.mkAttackProfile (attack u) (rangeDamage u).

Definition asDefenseProfile (u : SimUnit) : CombatRules.DefenseProfile :=
  CombatRules.mkDefenseProfile (defense u).

Record SimulationConfig : Set := mkSimulationConfig {
  attackerType : UnitType;
  defenderType : UnitType;
  packSize : option JS.number;
  attackerCount : option JS.number;
  defenderCount : option JS.number;
  maxDurationMs : option JS.number;
  timeStepMs : option JS.number;
  startDistance : option JS.number
}.

Inductive Winner : Set :=
  | won (t : Team)
  | draw.

Record SimulationResult : Set := mkSimulationResult {
  winner : Winner;
  remaining_attacker : nat;
  remaining_defender : nat;
  durationMs : JS.number
}.

Definition DEFAULT_PACK_SIZE : JS.number := 20.
Definition DEFAULT_MAX_DURATION_MS : JS.number := 60000.
Definition DEFAULT_TIME_STEP_MS : JS.number := 50.
Definition DEFAULT_START_DISTANCE : JS.number := 300.

Definition buildUnit (type : UnitType) (team : Team) (id : Z) (x : JS.number)
  : Outcome SimUnit :=
  match UnitRepository.unitCombatStats type with
  | None => Throw (MissingCombatStats type)
  | Some stats =>
      let derived := CombatRules.deriveBattleStats stats in
      Return
        {| id := id;
           team := team;
           type := type;
           attack := UnitRepository.attack stats;
           defense := UnitRepository.defense stats;
           hp := UnitRepository.health stats;
           maxHp := UnitRepository.health stats;
           speed := CombatRules.speed derived;
           range := CombatRules.range derived;
           rangeDamage := UnitRepository.rangeDamage stats;
           isRanged := CombatRules.isRanged derived;
           cooldownMs := CombatRules.cooldownMs derived;
           lastAttackAt := 0;
           x := x |}
  end.

(** [distance < bestDistance], where [bestDistance] starts as
    [Number.POSITIVE_INFINITY] ([None]). *)
Definition closer (distance : JS.number) (bestDistance : option JS.number)
  : bool :=
  match bestDistance with
  | None => true
  | Some best => JS.lt distance best
  end.

(** The loop of [findNearestEnemy], from position [i] of the array on.  The
    enemy found is returned as its position in [enemies]: the caller mutates
    that very object. *)
Fixpoint findNearestEnemyFrom (unit : SimUnit) (enemies : list SimUnit)
    (i : nat) (nearest : option nat) (bestDistance : option JS.number)
  : option nat :=
  match enemies with
  | [] => nearest
  | enemy :: rest =>
      if JS.le (hp enemy) 0 then
        findNearestEnemyFrom unit rest (S i) nearest bestDistance
      else
        let distance := JS.Math_abs (x enemy - x unit) in
        if closer distance bestDistance then
          findNearestEnemyFrom unit rest (S i) (Some i) (Some distance)
        else
          findNearestEnemyFrom unit rest (S i) nearest bestDistance
  end.

Definition findNearestEnemy (unit : SimUnit) (enemies : list SimUnit)
  : option nat :=
  findNearestEnemyFrom unit enemies 0 None None.

(** [applyAttack] mutates both objects; the two new objects are returned. *)
Definition applyAttack (attacker target : SimUnit) (time : JS.number)
  : SimUnit * SimUnit :=
  let attacker := set_lastAttackAt attacker time in
  let damage :=
    CombatRules.calculateDamage (asAttackProfile attacker)
      (asDefenseProfile target) in
  (attacker, set_hp target (hp target - damage)).

(** Assignment to the object at position [i] of an array of objects. *)
Fixpoint setNth {A : Type} (i : nat) (v : A) (l : list A) : list A :=
  match l, i with
  | [], _ => []
  | _ :: rest, O => v :: rest
  | a :: rest, S i' => a :: setNth i' v rest
  end.

(** [stepUnit] returns the unit and the enemies as it leaves them. *)
Definition stepUnit (unit : SimUnit) (enemies : list SimUnit)
    (time deltaMs : JS.number) : SimUnit * list SimUnit :=
  if JS.le (hp unit) 0 then (unit, enemies)
  else
    match findNearestEnemy unit enemies with
    | None => (unit, enemies)
    | Some k =>
        match nth_error enemies k with
        | None => (unit, enemies)
        | Some target =>
            let distance := JS.Math_abs (x target - x unit) in
            if JS.le distance (range unit) then
              if JS.ge (time - lastAttackAt unit) (cooldownMs unit) then
                let '(unit', target') := applyAttack unit target time in
                (unit', setNth k target' enemies)
              else (unit, enemies)
            else
              let moveDistance := (speed unit * deltaMs) / 1000 in
              let direction := JS.Math_sign (x target - x unit) in
              (set_x unit (x unit + direction * moveDistance), enemies)
        end
    end.

(** The [for] loop of [createPack] runs for i = 0, 1, ... while
    [i < packSize]: [remaining] counts the iterations left. *)
Fixpoint createPackFrom (type : UnitType) (team : Team) (remaining : nat)
    (startX : JS.number) (startId : Z) (i : Z) : Outcome (list SimUnit) :=
  match remaining with
  | O => Return []
  | S remaining' =>
      u <- buildUnit type team (startId + i)%Z startX ;;
      units <- createPackFrom type team remaining' startX startId (i + 1)%Z ;;
      Return (u :: units)
  end.

(** The number of naturals [i] with [i < packSize]. *)
Definition iterationsBelow (packSize : JS.number) : nat :=
  Z.to_nat (Qceiling packSize).

Definition createPack (type : UnitType) (team : Team) (packSize : JS.number)
    (startX : JS.number) (startId : Z) : Outcome (list SimUnit) :=
  createPackFrom type team (iterationsBelow packSize) startX startId 0%Z.

(** The state of the [while] loop of [simulateBattle]. *)
Record LoopState : Set := mkLoopState {
  attackers : list SimUnit;
  defenders : list SimUnit;
  time : JS.number
}.

(** [sort((a, b) => a.id - b.id)]: a stable sort, ascending ids.  The sorted
    array holds the objects of the two team arrays; an element is kept here
    as its team and its id, the two fields read from it that never change,
    and the object itself is the one of that id in its team's array. *)
Fixpoint insertById (r : Team * Z) (l : list (Team * Z)) : list (Team * Z) :=
  match l with
  | [] => [r]
  | r' :: rest =>
      if (snd r <? snd r')%Z then r :: l else r' :: insertById r rest
  end.

Definition sortById (l : list (Team * Z)) : list (Team * Z) :=
  fold_right insertById [] l.

Definition ref (u : SimUnit) : Team * Z := (team u, id u).

Fixpoint indexOfId (i : Z) (l : list SimUnit) : option nat :=
  match l with
  | [] => None
  | u :: rest =>
      if (id u =? i)%Z then Some O
      else option_map S (indexOfId i rest)
  end.

(** One iteration of the [for] loop over [orderedUnits]. *)
Definition stepRef (now timeStepMs : JS.number) (st : LoopState)
    (r : Team * Z) : LoopState :=
  match fst r with
  | attacker =>
      match indexOfId (snd r) (attackers st) with
      | None => st
      | Some k =>
          match nth_error (attackers st) k with
          | None => st
          | Some unit =>
              let '(unit', enemies') :=
                stepUnit unit (defenders st) now timeStepMs in
              mkLoopState (setNth k unit' (attackers st)) enemies' (time st)
          end
      end
  | defender =>
      match indexOfId (snd r) (defenders st) with
      | None => st
      | Some k =>
          match nth_error (defenders st) k with
          | None => st
          | Some unit =>
              let '(unit', enemies') :=
                stepUnit unit (attackers st) now timeStepMs in
              mkLoopState enemies' (setNth k unit' (defenders st)) (time st)
          end
      end
  end.

Definition alive (u : SimUnit) : bool := JS.gt (hp u) 0.

Definition loopCondition (maxDurationMs : JS.number) (st : LoopState) : bool :=
  JS.le (time st) maxDurationMs
  && (0 <? length (attackers st))%nat
  && (0 <? length (defenders st))%nat.

Definition loopBody (timeStepMs : JS.number) (st : LoopState) : LoopState :=
  let orderedUnits := sortById (map ref (attackers st ++ defenders st)) in
  let st' := fold_left (stepRef (time st) timeStepMs) orderedUnits st in
  {| attackers := filter alive (attackers st');
     defenders := filter alive (defenders st');
     time := time st + timeStepMs |}.

(** The [while] loop, run for at most [fuel] iterations; [iterations] counts
    the iterations done. *)
Fixpoint while (fuel : nat) (maxDurationMs timeStepMs : JS.number)
    (st : LoopState) (iterations : nat) : Outcome (LoopState * nat) :=
  if loopCondition maxDurationMs st then
    match fuel with
    | O => OutOfFuel
    | S fuel' =>
        while fuel' maxDurationMs timeStepMs (loopBody timeStepMs st)
          (S iterations)
    end
  else Return (st, iterations).

Definition orDefault (o : option JS.number) (d : JS.number) : JS.number :=
  match o with Some v => v | None => d end.

(** The configuration after the defaults of the destructuring. *)
Definition effectivePackSize (config : SimulationConfig) : JS.number :=
  orDefault (packSize config) DEFAULT_PACK_SIZE.
Definition effectiveAttackerCount (config : SimulationConfig) : JS.number :=
  orDefault (attackerCount config) (effectivePackSize config).
Definition effectiveDefenderCount (config : SimulationConfig) : JS.number :=
  orDefault (defenderCount config) (effectivePackSize config).
Definition effectiveMaxDurationMs (config : SimulationConfig) : JS.number :=
  orDefault (maxDurationMs config) DEFAULT_MAX_DURATION_MS.
Definition effectiveTimeStepMs (config : SimulationConfig) : JS.number :=
  orDefault (timeStepMs config) DEFAULT_TIME_STEP_MS.
Definition effectiveStartDistance (config : SimulationConfig) : JS.number :=
  orDefault (startDistance config) DEFAULT_START_DISTANCE.

Definition decideWinner (attackers defenders : list SimUnit) : Winner :=
  if (0 <? length attackers)%nat && (length defenders =? 0)%nat
  then won attacker
  else if (0 <? length defenders)%nat && (length attackers =? 0)%nat
  then won defender
  else draw.

(** [simulateBattle], with the number of iterations of its loop next to its
    result. *)
Definition simulateBattleCounting (fuel : nat) (config : SimulationConfig)
  : Outcome (SimulationResult * nat) :=
  let nextId := 1%Z in
  attackers0 <-
    createPack (attackerType config) attacker (effectiveAttackerCount config)
      0 nextId ;;
  let nextId := (nextId + Z.of_nat (length attackers0))%Z in
  defenders0 <-
    createPack (defenderType config) defender (effectiveDefenderCount config)
      (effectiveStartDistance config) nextId ;;
  r <- while fuel (effectiveMaxDurationMs config) (effectiveTimeStepMs config)
         (mkLoopState attackers0 defenders0 0) O ;;
  let '(st, iterations) := r in
  Return
    ({| winner := decideWinner (attackers st) (defenders st);
        remaining_attacker := length (attackers st);
        remaining_defender := length (defenders st);
        durationMs := time st |},
     iterations).

Definition simulateBattle (fuel : nat) (config : SimulationConfig)
  : Outcome SimulationResult :=
  r <- simulateBattleCounting fuel config ;; Return (fst r).

End SimulateBattle.

(** ** game/battleConfig.ts *)

Module BattleConfig.

Record Zone : Set := mkZone {
  x : JS.number;
  width : JS.number
}.

Definition MAP_WIDTH : JS.number := 1200.
Definition MAP_HEIGHT : JS.number := 700.

Definition ZONE_ATTACKER : Zone :=
  {| x := 0; width := MAP_WIDTH * (3 # 10) |}.
Definition ZONE_NEUTRAL : Zone :=
  {| x := MAP_WIDTH * (3 # 10); width := MAP_WIDTH * (1 # 10) |}.
Definition ZONE_DEFENDER : Zone :=
  {| x := MAP_WIDTH * (4 # 10); width := MAP_WIDTH * (6 # 10) |}.

Definition PACK_SIZE : JS.number := 20.
Definition PACK_ROWS : JS.number := 4.
Definition PACK_COLS : JS.number := 5.
Definition PACK_SPACING : JS.number := 12.
Definition MAX_UNITS : JS.number := 500.

End BattleConfig.

(** ** game/unitVisuals.ts *)

Module UnitVisuals.

Definition TEAM_COLORS (t : Team) : Z :=
  match t with
  | attacker => 0x4bb3fd
  | defender => 0xfb4d46
  end.

Definition UNIT_TYPE_COLORS (t : UnitType) : option Z :=
  match t with
  | Regular WARD_HANDS => Some 0xcccccc
  | Regular WARRIOR => Some 0xaaaaaa
  | Regular DWARF => Some 0x8b4513
  | Regular ORC => Some 0x228b22
  | Regular HALFLING => Some 0xdaa520
  | Regular ELF => Some 0x90ee90
  | Regular DARK_ELF => Some 0x4b0082
  | Regular GOLEM => Some 0x808080
  | Regular GARGOYLE => Some 0x696969
  | Regular DENDRITE => Some 0x2e8b57
  | Regular UNDEAD => Some 0x8b008b
  | Hero FIGHTER => Some 0xff6347
  | Hero HAMMER_LORD => Some 0xffa500
  | Hero RANGER => Some 0x32cd32
  | Hero SHADOW_BLADE => Some 0x9370db
  | Hero OGR => Some 0xff4500
  | Hero PYROMANCER => Some 0xff0000
  | Hero CLERIC => Some 0xffffff
  | Hero DRUID => Some 0x00ff00
  | Hero ENCHANTER => Some 0x00bfff
  | Hero NECROMANCER => Some 0x800080
  | Hero WARSMITH => Some 0xffd700
  | WarMachine BALLISTA => Some 0x2f4f4f
  | WarMachine CATAPULT => Some 0x3c3c3c
  | WarMachine BATTERING_RAM => Some 0x4a4a4a
  | WarMachine SIEGE_TOWER => Some 0x555555
  end%Z.

(** [UNIT_TYPE_COLORS[type] ?? TEAM_COLORS[team]] *)
Definition colorOf (type : UnitType) (team : Team) : Z :=
  match UNIT_TYPE_COLORS type with
  | Some c => c
  | None => TEAM_COLORS team
  end.

End UnitVisuals.

(** ** The display objects of the host (Phaser)

    Only what the deployment model reads back or sets is kept of a circle
    sprite: its position, its radius, its fill and its outline. *)

Module Phaser.

Record Stroke : Set := mkStroke {
  lineWidth : JS.number;
  strokeColor : option Z;
  strokeAlpha : JS.number
}.

Record Arc : Set := mkArc {
  x : JS.number;
  y : JS.number;
  radius : JS.number;
  fillColor : Z;
  fillAlpha : JS.number;
  stroke : option Stroke
}.

(** [scene.add.circle(x, y, radius, fillColor, fillAlpha)] *)
Definition circle (x y radius : JS.number) (fillColor : Z)
    (fillAlpha : JS.number) : Arc :=
  mkArc x y radius fillColor fillAlpha None.

(** [sprite.setStrokeStyle(lineWidth, color, alpha)]; a missing alpha is 1. *)
Definition setStrokeStyle (s : Arc) (lineWidth : JS.number)
    (color : option Z) (alpha : JS.number) : Arc :=
  mkArc (x s) (y s) (radius s) (fillColor s) (fillAlpha s)
    (Some (mkStroke lineWidth color alpha)).

Definition setFillStyle (s : Arc) (color : Z) (alpha : JS.number) : Arc :=
  mkArc (x s) (y s) (radius s) color alpha (stroke s).

Definition setPosition (s : Arc) (x' y' : JS.number) : Arc :=
  mkArc x' y' (radius s) (fillColor s) (fillAlpha s) (stroke s).

(** What a [Graphics] object shows after [clear()], [lineStyle], [fillStyle],
    [strokeCircle] and [fillCircle]: nothing, or one circle. *)
Record RangeCircle : Set := mkRangeCircle {
  centerX : JS.number;
  centerY : JS.number;
  circleRadius : JS.number;
  color : Z
}.

Definition Graphics : Set := option RangeCircle.

End Phaser.

(** ** game/DeployManager.ts *)

Module DeployManager.
Import BattleConfig.

Record DeployPack : Set := mkDeployPack {
  id : Z;
  team : Team;
  type : UnitType;
  size : JS.number;
  sprite : Phaser.Arc;
  range : JS.number;
  isRanged : bool;
  armedWarMachine : option WarMachineArming.ArmedWarMachine
}.

Definition set_sprite (p : DeployPack) (s : Phaser.Arc) : DeployPack :=
  mkDeployPack (id p) (team p) (type p) (size p) s (range p) (isRanged p)
    (armedWarMachine p).

(** The fields of the class.  [packs] is the [Map<number, DeployPack>], kept
    in insertion order with its keys in the packs' [id] fields;
    [warMachineToArm] refers to a pack of the map and is kept as that pack's
    id; [rangeIndicator] is [undefined] until [initialize()]. *)
Record State : Set := mkState {
  packs : list DeployPack;
  nextPackId : Z;
  deployTeam : Team;
  deployUnitType : UnitType;
  armingMode : bool;
  warMachineToArm : option Z;
  selectedPackId : option Z;
  rangeIndicator : option Phaser.Graphics
}.

Definition set_packs (dm : State) (ps : list DeployPack) : State :=
  mkState ps (nextPackId dm) (deployTeam dm) (deployUnitType dm)
    (armingMode dm) (warMachineToArm dm) (selectedPackId dm)
    (rangeIndicator dm).

Definition set_rangeIndicator (dm : State) (g : option Phaser.Graphics)
  : State :=
  mkState (packs dm) (nextPackId dm) (deployTeam dm) (deployUnitType dm)
    (armingMode dm) (warMachineToArm dm) (selectedPackId dm) g.

(** The field initialisers of the class. *)
Definition new : State :=
  {| packs := [];
     nextPackId := 1;
     deployTeam := attacker;
     deployUnitType := Regular WARRIOR;
     armingMode := false;
     warMachineToArm := None;
     selectedPackId := None;
     rangeIndicator := None |}.

(** [packs.set(pack.id, pack)]: a present key keeps its place. *)
Fixpoint mapSet (p : DeployPack) (ps : list DeployPack) : list DeployPack :=
  match ps with
  | [] => [p]
  | q :: rest => if (id q =? id p)%Z then p :: rest else q :: mapSet p rest
  end.

(** [packs.delete(id)] *)
Definition mapDelete (i : Z) (ps : list DeployPack) : list DeployPack :=
  filter (fun q => negb (id q =? i)%Z) ps.

(** A mutation of the pack object of id [i], seen through the map. *)
Definition mutate (i : Z) (f : DeployPack -> DeployPack)
    (ps : list DeployPack) : list DeployPack :=
  map (fun q => if (id q =? i)%Z then f q else q) ps.

Definition sameId (a : option Z) (i : Z) : bool :=
  match a with Some j => (j =? i)%Z | None => false end.

Definition getTeamUnitCount (dm : State) (t : Team) : JS.number :=
  fold_left
    (fun count pack => if Team_eqb (team pack) t then count + size pack
                       else count)
    (packs dm) 0.

Definition getPacks (dm : State) : list DeployPack := packs dm.

Definition getZoneForTeam (t : Team) : Zone :=
  match t with attacker => ZONE_ATTACKER | defender => ZONE_DEFENDER end.

Definition pointInZone (x y : JS.number) (zone : Zone) : bool :=
  JS.ge x (BattleConfig.x zone)
  && JS.le x (BattleConfig.x zone + width zone)
  && JS.ge y 0
  && JS.le y MAP_HEIGHT.

Definition clampToZone (x y : JS.number) (zone : Zone)
  : JS.number * JS.number :=
  let minX := BattleConfig.x zone + 8 in
  let maxX := BattleConfig.x zone + width zone - 8 in
  let clampedX := JS.Clamp x minX maxX in
  let clampedY := JS.Clamp y 10 (MAP_HEIGHT - 10) in
  (clampedX, clampedY).

Definition getPackRadius (type : UnitType) : JS.number :=
  if isWarMachine type then 13
  else if isHeroType type then 10
  else 11.

(** [createPack] reads [unitCombatStats[type]] and hands it to
    [deriveBattleStats], which reads a property of it: a [TypeError] when the
    catalogue has no entry. *)
Definition createPack (dm : State) (x y : JS.number) (team : Team)
    (type : UnitType) (size : JS.number) : Outcome (DeployPack * State) :=
  match UnitRepository.unitCombatStats type with
  | None => Throw TypeError
  | Some combatData =>
      let derived := CombatRules.deriveBattleStats combatData in
      let packColor := UnitVisuals.colorOf type team in
      let radius := getPackRadius type in
      let sprite := Phaser.circle x y radius packColor (95 # 100) in
      let pack :=
        {| id := nextPackId dm;
           team := team;
           type := type;
           size := size;
           sprite := sprite;
           range := CombatRules.range derived;
           isRanged := CombatRules.isRanged derived;
           armedWarMachine := None |} in
      Return
        (pack,
         mkState (packs dm) (nextPackId dm + 1)%Z (deployTeam dm)
           (deployUnitType dm) (armingMode dm) (warMachineToArm dm)
           (selectedPackId dm) (rangeIndicator dm))
  end.

Definition spawnPack (dm : State) (x y : JS.number) (team : Team)
    (type : UnitType) : Outcome State :=
  let zone := getZoneForTeam team in
  if negb (pointInZone x y zone) then Return dm
  else
    let isSingleUnit := isHeroType type || isWarMachine type in
    let unitsToSpawn := if isSingleUnit then 1 else PACK_SIZE in
    let currentCount := getTeamUnitCount dm team in
    if JS.gt (currentCount + unitsToSpawn) MAX_UNITS then Return dm
    else
      let '(packX, packY) := clampToZone x y zone in
      r <- createPack dm packX packY team type unitsToSpawn ;;
      let '(pack, dm') := r in
      Return (set_packs dm' (mapSet pack (packs dm'))).

Definition clearSelection (dm : State) : State :=
  mkState (packs dm) (nextPackId dm) (deployTeam dm) (deployUnitType dm)
    (armingMode dm) (warMachineToArm dm) None
    (option_map (fun _ => None) (rangeIndicator dm)).

Definition updateRangeIndicator (dm : State) (pack : DeployPack) : State :=
  match rangeIndicator dm with
  | None => dm
  | Some _ =>
      if isWarMachine (type pack)
         && match armedWarMachine pack with Some _ => false | None => true end
      then set_rangeIndicator dm (Some None)
      else
        let color := UnitVisuals.colorOf (type pack) (team pack) in
        set_rangeIndicator dm
          (Some (Some
             (Phaser.mkRangeCircle (Phaser.x (sprite pack))
                (Phaser.y (sprite pack)) (range pack) color)))
  end.

Definition exitArmingMode (dm : State) : State :=
  let ps :=
    match warMachineToArm dm with
    | Some i =>
        mutate i
          (fun p => set_sprite p (Phaser.setStrokeStyle (sprite p) 0 None 1))
          (packs dm)
    | None => packs dm
    end in
  mkState ps (nextPackId dm) (deployTeam dm) (deployUnitType dm) false None
    (selectedPackId dm) (rangeIndicator dm).

Definition removePack (dm : State) (pack : DeployPack) : State :=
  let dm := if sameId (selectedPackId dm) (id pack)
            then clearSelection dm else dm in
  let dm := if sameId (warMachineToArm dm) (id pack)
            then exitArmingMode dm else dm in
  set_packs dm (mapDelete (id pack) (packs dm)).

(** [armWarMachine(warMachine, armingPack)]: both arguments are pack objects
    of the map; what is done to [warMachine] is done to the pack of its id. *)
Definition armWarMachine (dm : State) (warMachine armingPack : DeployPack)
  : State :=
  match type armingPack with
  | Regular armingType =>
      let armingStats := UnitRepository.regularCombatStats armingType in
      if match UnitRepository.range armingStats with
         | Some r => JS.truthy (Some r) && JS.gt r 0
         | None => false
         end
      then dm
      else if JS.lt (size armingPack) PACK_SIZE then dm
      else
        let armedStats :=
          WarMachineArming.calculateArmedWarMachineStats armingStats in
        let armed (p : DeployPack) : DeployPack :=
          let sprite1 :=
            Phaser.setStrokeStyle (sprite p) 2 (Some 0xffa500%Z) 1 in
          let sprite2 :=
            match UnitVisuals.UNIT_TYPE_COLORS (type armingPack) with
            | Some armedColor =>
                if (armedColor =? 0)%Z then sprite1
                else Phaser.setFillStyle sprite1 armedColor (95 # 100)
            | None => sprite1
            end in
          {| id := id p;
             team := team p;
             type := type p;
             size := size p;
             sprite := sprite2;
             range :=
               CombatRules.rangeToPixels (UnitRepository.range armedStats);
             isRanged := true;
             armedWarMachine :=
               Some (WarMachineArming.mkArmedWarMachine armingType
                       armedStats) |} in
        let dm := set_packs dm (mutate (id warMachine) armed (packs dm)) in
        let dm := removePack dm armingPack in
        if sameId (selectedPackId dm) (id warMachine)
        then updateRangeIndicator dm (armed warMachine)
        else dm
  | _ => dm
  end.

(** [reset()], up to its call of [emitChange()], which is the caller's. *)
Definition reset (dm : State) : State :=
  let dm := exitArmingMode dm in
  let dm := clearSelection dm in
  mkState [] 1%Z (deployTeam dm) (deployUnitType dm) (armingMode dm)
    (warMachineToArm dm) (selectedPackId dm) (rangeIndicator dm).

(** [selectPack], [enterArmingMode] and [destroy]. *)
Definition selectPack (dm : State) (pack : DeployPack) : State :=
  updateRangeIndicator
    (mkState (packs dm) (nextPackId dm) (deployTeam dm) (deployUnitType dm)
       (armingMode dm) (warMachineToArm dm) (Some (id pack))
       (rangeIndicator dm))
    pack.

Definition enterArmingMode (dm : State) (pack : DeployPack) : State :=
  mkState
    (mutate (id pack)
       (fun p =>
          set_sprite p
            (Phaser.setStrokeStyle (sprite p) 3 (Some 0xffff00%Z) 1))
       (packs dm))
    (nextPackId dm) (deployTeam dm) (deployUnitType dm) true (Some (id pack))
    (selectedPackId dm) (rangeIndicator dm).

Definition destroy (dm : State) : State :=
  set_packs (clearSelection dm) [].

(** [packs.get(id)] *)
Definition mapGet (i : Z) (ps : list DeployPack) : option DeployPack :=
  find (fun q => (id q =? i)%Z) ps.

(** [getPackFromObject]: the game object carries the pack id as its data
    ([undefined] when it has none); an id that is falsy finds nothing. *)
Definition getPackFromObject (dm : State) (packId : option Z)
  : option DeployPack :=
  match packId with
  | None => None
  | Some i => if (i =? 0)%Z then None else mapGet i (packs dm)
  end.

(** The listener of 'gameobjectdown': the deployment as it is left and
    whether [emitChange()] was called.  [warMachineToArm], kept as a pack
    id, is looked up in the map.  Where the map does not hold that pack any
    more ([destroy] and [materialize] empty the map and leave the field as
    it is) the call of [armWarMachine] is left out. *)
Definition onGameObjectDown (dm : State) (phase : Phase)
    (packId : option Z) (isRightClick : bool) : State * bool :=
  match phase with
  | battle => (dm, false)
  | deploy =>
      match getPackFromObject dm packId with
      | None => (dm, false)
      | Some pack =>
          if isRightClick then (removePack dm pack, true)
          else
            match armingMode dm, warMachineToArm dm with
            | true, Some w =>
                let dm1 :=
                  match mapGet w (packs dm) with
                  | Some warMachine => armWarMachine dm warMachine pack
                  | None => dm
                  end in
                (exitArmingMode dm1, true)
            | _, _ =>
                if isWarMachine (type pack)
                   && match armedWarMachine pack with
                      | Some _ => false
                      | None => true
                      end
                then (enterArmingMode dm pack, false)
                else (selectPack dm pack, false)
            end
      end
  end.

(** The listener of 'dragstart'. *)
Definition onDragStart (dm : State) (phase : Phase) (packId : option Z)
  : State :=
  match phase with
  | battle => dm
  | deploy =>
      match getPackFromObject dm packId with
      | None => dm
      | Some pack =>
          let dm1 :=
            if sameId (warMachineToArm dm) (id pack)
            then exitArmingMode dm else dm in
          selectPack dm1 pack
      end
  end.

(** The listener of 'drag'. *)
Definition onDrag (dm : State) (phase : Phase) (packId : option Z)
    (dragX dragY : JS.number) : State :=
  match phase with
  | battle => dm
  | deploy =>
      match getPackFromObject dm packId with
      | None => dm
      | Some pack =>
          let zone := getZoneForTeam (team pack) in
          let '(x, y) := clampToZone dragX dragY zone in
          let moved (p : DeployPack) : DeployPack :=
            set_sprite p (Phaser.setPosition (sprite p) x y) in
          let dm1 := set_packs dm (mutate (id pack) moved (packs dm)) in
          if sameId (selectedPackId dm1) (id pack)
          then updateRangeIndicator dm1 (moved pack)
          else dm1
      end
  end.

(** A [for] loop [for (let i = start; i < bound; i += 1) body(i)], given the
    number of its iterations. *)
Fixpoint forLoop {S : Type} (iterations : nat) (i : JS.number)
    (body : JS.number -> S -> S) (s : S) : S :=
  match iterations with
  | O => s
  | S iterations' => forLoop iterations' (i + 1) body (body i s)
  end.

(** [materialize(createUnit)]: [createUnit] is the caller's; [S] is what it
    works on. *)
Definition materializePack {S : Type}
    (createUnit :
       JS.number -> JS.number -> Team -> UnitType ->
       option WarMachineArming.ArmedWarMachine -> S -> S)
    (s : S) (pack : DeployPack) : S :=
  if Qeq_bool (size pack) 1 then
    createUnit (Phaser.x (sprite pack)) (Phaser.y (sprite pack)) (team pack)
      (type pack) (armedWarMachine pack) s
  else
    let zone := getZoneForTeam (team pack) in
    let minX := BattleConfig.x zone + 8 in
    let maxX := BattleConfig.x zone + width zone - 8 in
    let startX :=
      Phaser.x (sprite pack) - ((PACK_COLS - 1) * PACK_SPACING) / 2 in
    let startY :=
      Phaser.y (sprite pack) - ((PACK_ROWS - 1) * PACK_SPACING) / 2 in
    forLoop (SimulateBattle.iterationsBelow PACK_ROWS) 0
      (fun row =>
         forLoop (SimulateBattle.iterationsBelow PACK_COLS) 0
           (fun col =>
              let unitX := JS.Clamp (startX + col * PACK_SPACING) minX maxX in
              let unitY :=
                JS.Clamp (startY + row * PACK_SPACING) 10 (MAP_HEIGHT - 10) in
              createUnit unitX unitY (team pack) (type pack) None))
      s.

Definition materialize {S : Type}
    (createUnit :
       JS.number -> JS.number -> Team -> UnitType ->
       option WarMachineArming.ArmedWarMachine -> S -> S)
    (dm : State) (s : S) : State * S :=
  let s' := fold_left (materializePack createUnit) (packs dm) s in
  (clearSelection (set_packs dm []), s').

End DeployManager.

(** ** game/BattleScene.ts *)

Module BattleScene.
Import BattleConfig.

Record BattleStats : Set := mkBattleStats {
  stats_phase : Phase;
  stats_attacker : JS.number;
  stats_defender : JS.number
}.

Record Unit : Set := mkUnit {
  id : Z;
  team : Team;
  type : UnitType;
  attack : JS.number;
  defense : JS.number;
  hp : JS.number;
  maxHp : JS.number;
  speed : JS.number;
  range : JS.number;
  rangeDamage : option JS.number;
  isRanged : bool;
  cooldownMs : JS.number;
  lastAttackAt : JS.number;
  sprite : Phaser.Arc;
  targetId : option Z;
  armedWarMachine : option WarMachineArming.ArmedWarMachine
}.

(** The fields of the scene.  [units] is the [Map<number, Unit>] in insertion
    order; the arrays [attackers] and [defenders] hold objects of the map and
    are kept as their ids; [onStats] tells whether a callback is set. *)
Record State : Set := mkState {
  phase : Phase;
  deployManager : option DeployManager.State;
  units : list Unit;
  attackers : list Z;
  defenders : list Z;
  nextUnitId : Z;
  onStats : bool
}.

(** The field initialisers of the class, before [create()]. *)
Definition new : State :=
  {| phase := deploy;
     deployManager := None;
     units := [];
     attackers := [];
     defenders := [];
     nextUnitId := 1;
     onStats := false |}.

(** What a call sends out of the scene: lines on the console and calls of the
    stats callback. *)
Inductive Output : Set :=
  | WarnOneUnitTypePerTeam
      (* console.warn('Auto-resolve requires exactly one unit type per team.') *)
  | WarnArmedWarMachines
      (* console.warn('Auto-resolve does not support armed war machines yet.') *)
  | ErrorNoCombatStats (type : UnitType)
      (* console.error(`No combat stats found for unit type: ${type}`) *)
  | StatsCallback (stats : BattleStats).

Definition set_phase (s : State) (p : Phase) : State :=
  mkState p (deployManager s) (units s) (attackers s) (defenders s)
    (nextUnitId s) (onStats s).

Definition count (l : list Z) : JS.number := inject_Z (Z.of_nat (length l)).

Definition emitStats (s : State) : list Output :=
  if onStats s then
    let teamCount (t : Team) (live : list Z) : JS.number :=
      match phase s with
      | deploy =>
          match deployManager s with
          | Some dm => DeployManager.getTeamUnitCount dm t
          | None => 0
          end
      | battle => count live
      end in
    [StatsCallback
       {| stats_phase := phase s;
          stats_attacker := teamCount attacker (attackers s);
          stats_defender := teamCount defender (defenders s) |}]
  else [].

(** [resetBattle]: [deployManager.reset()] ends with its change callback,
    which is [emitStats] of the scene. *)
Definition resetBattle (s : State) : State * list Output :=
  let s1 :=
    mkState deploy (deployManager s) [] [] [] 1%Z (onStats s) in
  match deployManager s1 with
  | Some dm =>
      let s2 :=
        mkState (phase s1) (Some (DeployManager.reset dm)) (units s1)
          (attackers s1) (defenders s1) (nextUnitId s1) (onStats s1) in
      (s2, emitStats s2 ++ emitStats s2)
  | None => (s1, emitStats s1)
  end.

Definition getZoneForTeam (t : Team) : Zone :=
  match t with attacker => ZONE_ATTACKER | defender => ZONE_DEFENDER end.

Definition applyArmedWarMachineStats (unit : Unit)
    (armed : WarMachineArming.ArmedWarMachine) : Unit :=
  let armedStats := WarMachineArming.combatStats armed in
  let derived := CombatRules.deriveBattleStats armedStats in
  {| id := id unit;
     team := team unit;
     type := type unit;
     attack := UnitRepository.attack armedStats;
     defense := UnitRepository.defense armedStats;
     hp := UnitRepository.health armedStats;
     maxHp := UnitRepository.health armedStats;
     speed := CombatRules.speed derived;
     range := CombatRules.range derived;
     rangeDamage := UnitRepository.rangeDamage armedStats;
     isRanged := CombatRules.isRanged derived;
     cooldownMs := CombatRules.cooldownMs derived;
     lastAttackAt := lastAttackAt unit;
     sprite := sprite unit;
     targetId := targetId unit;
     armedWarMachine := armedWarMachine unit |}.

Definition set_sprite (u : Unit) (s : Phaser.Arc) : Unit :=
  mkUnit (id u) (team u) (type u) (attack u) (defense u) (hp u) (maxHp u)
    (speed u) (range u) (rangeDamage u) (isRanged u) (cooldownMs u)
    (lastAttackAt u) s (targetId u) (armedWarMachine u).

Definition updateArmedWarMachineVisual (warMachine : Unit) : Unit :=
  let sprite1 := Phaser.setStrokeStyle (sprite warMachine) 0 None 1 in
  let sprite2 := Phaser.setStrokeStyle sprite1 2 (Some 0xffa500%Z) 1 in
  let sprite3 :=
    match armedWarMachine warMachine with
    | Some armed =>
        match UnitVisuals.UNIT_TYPE_COLORS
                (Regular (WarMachineArming.armedWith armed)) with
        | Some armedUnitColor =>
            if (armedUnitColor =? 0)%Z then sprite2
            else Phaser.setFillStyle sprite2 armedUnitColor (9 # 10)
        | None => sprite2
        end
    | None => sprite2
    end in
  set_sprite warMachine sprite3.

Definition createUnit (s : State) (x y : JS.number) (team : Team)
    (type : UnitType) (armed : option WarMachineArming.ArmedWarMachine)
  : State * list Output :=
  match UnitRepository.unitCombatStats type with
  | None => (s, [ErrorNoCombatStats type])
  | Some combatData =>
      let derived := CombatRules.deriveBattleStats combatData in
      let id := nextUnitId s in
      let unitColor := UnitVisuals.colorOf type team in
      let unitSize : JS.number :=
        if isHeroType type then 7
        else if isWarMachine type then 9
        else 54 # 10 in
      let sprite := Phaser.circle x y unitSize unitColor (9 # 10) in
      let unit :=
        {| id := id;
           team := team;
           type := type;
           attack := UnitRepository.attack combatData;
           defense := UnitRepository.defense combatData;
           hp := UnitRepository.health combatData;
           maxHp := UnitRepository.health combatData;
           speed := CombatRules.speed derived;
           range := CombatRules.range derived;
           rangeDamage := UnitRepository.rangeDamage combatData;
           isRanged := CombatRules.isRanged derived;
           cooldownMs := CombatRules.cooldownMs derived;
           lastAttackAt := 0;
           sprite := sprite;
           targetId := None;
           armedWarMachine := armed |} in
      let unit :=
        match armed with
        | Some a => updateArmedWarMachineVisual (applyArmedWarMachineStats unit a)
        | None => unit
        end in
      (mkState (phase s) (deployManager s) (units s ++ [unit])
         (match team with
          | attacker => attackers s ++ [id]
          | defender => attackers s
          end)
         (match team with
          | attacker => defenders s
          | defender => defenders s ++ [id]
          end)
         (id + 1)%Z (onStats s),
       [])
  end.

(** The [for] loop of [spawnUnitsForTeam], for i, i + 1, ... while
    [i < count]; [remaining] counts the iterations left. *)
Fixpoint spawnUnitsFrom (remaining : nat) (i : JS.number) (s : State)
    (team : Team) (type : UnitType)
    (centerX centerY minX maxX spacing columns : JS.number)
  : State * list Output :=
  match remaining with
  | O => (s, [])
  | S remaining' =>
      let row := JS.Math_floor (i / columns) in
      let col := JS.rem i columns in
      let offsetX := (col - (columns - 1) / 2) * spacing in
      let offsetY := (row - 2) * spacing in
      let x := JS.Clamp (centerX + offsetX) minX maxX in
      let y := JS.Clamp (centerY + offsetY) 10 (MAP_HEIGHT - 10) in
      let '(s1, out1) := createUnit s x y team type None in
      let '(s2, out2) :=
        spawnUnitsFrom remaining' (i + 1) s1 team type centerX centerY minX
          maxX spacing columns in
      (s2, out1 ++ out2)
  end.

Definition spawnUnitsForTeam (s : State) (team : Team) (type : UnitType)
    (count : JS.number) : State * list Output :=
  if JS.le count 0 then (s, [])
  else
    let zone := getZoneForTeam team in
    let minX := BattleConfig.x zone + 18 in
    let maxX := BattleConfig.x zone + width zone - 18 in
    let centerX :=
      JS.Clamp (BattleConfig.x zone + width zone / 2) minX maxX in
    let centerY := MAP_HEIGHT / 2 in
    let isSingleUnit := isHeroType type || isWarMachine type in
    let spacing := if isSingleUnit then 24 else PACK_SPACING in
    let columns := if isSingleUnit then 1 else PACK_COLS in
    spawnUnitsFrom (SimulateBattle.iterationsBelow count) 0 s team type
      centerX centerY minX maxX spacing columns.

(** [new Set(array)]: the distinct elements, in the order of their first
    occurrence. *)
Fixpoint distinct (l : list UnitType) (seen : list UnitType) : list UnitType :=
  match l with
  | [] => []
  | t :: rest =>
      if in_dec UnitType_eq_dec t seen then distinct rest seen
      else t :: distinct rest (t :: seen)
  end.

Definition newSet (l : list UnitType) : list UnitType := distinct l [].

Definition onTeam (t : Team) (pack : DeployManager.DeployPack) : bool :=
  Team_eqb (DeployManager.team pack) t.

Definition isArmedWarMachine (pack : DeployManager.DeployPack) : bool :=
  isWarMachine (DeployManager.type pack)
  && match DeployManager.armedWarMachine pack with
     | Some _ => true
     | None => false
     end.

Definition sumSizes (packs : list DeployManager.DeployPack) : JS.number :=
  fold_left (fun sum pack => sum + DeployManager.size pack) packs 0.

(** [autoResolveBattle]: the value returned ([None] is [null]), the scene as
    it is left, and what was sent out. *)
Definition autoResolveBattle (fuel : nat) (s : State)
  : Outcome (option SimulateBattle.SimulationResult * State * list Output) :=
  match phase s with
  | battle => Return (None, s, [])
  | deploy =>
      let packs :=
        match deployManager s with
        | Some dm => DeployManager.getPacks dm
        | None => []
        end in
      let attackerPacks := filter (onTeam attacker) packs in
      let defenderPacks := filter (onTeam defender) packs in
      if (length attackerPacks =? 0)%nat || (length defenderPacks =? 0)%nat
      then Return (None, s, [])
      else
        let attackerTypes := newSet (map DeployManager.type attackerPacks) in
        let defenderTypes := newSet (map DeployManager.type defenderPacks) in
        match attackerTypes, defenderTypes with
        | [attackerType], [defenderType] =>
            if existsb isArmedWarMachine packs
            then Return (None, s, [WarnArmedWarMachines])
            else
              let attackerCount := sumSizes attackerPacks in
              let defenderCount := sumSizes defenderPacks in
              result <-
                SimulateBattle.simulateBattle fuel
                  {| SimulateBattle.attackerType := attackerType;
                     SimulateBattle.defenderType := defenderType;
                     SimulateBattle.packSize := None;
                     SimulateBattle.attackerCount := Some attackerCount;
                     SimulateBattle.defenderCount := Some defenderCount;
                     SimulateBattle.maxDurationMs := Some 90000;
                     SimulateBattle.timeStepMs := Some 50;
                     SimulateBattle.startDistance := Some 300 |} ;;
              let '(s1, out1) := resetBattle s in
              let s2 := set_phase s1 battle in
              let '(s3, out2) :=
                match SimulateBattle.winner result with
                | SimulateBattle.won attacker =>
                    spawnUnitsForTeam s2 attacker attackerType
                      (inject_Z (Z.of_nat
                         (SimulateBattle.remaining_attacker result)))
                | SimulateBattle.won defender =>
                    spawnUnitsForTeam s2 defender defenderType
                      (inject_Z (Z.of_nat
                         (SimulateBattle.remaining_defender result)))
                | SimulateBattle.draw => (s2, [])
                end in
              Return (Some result, s3, out1 ++ out2 ++ emitStats s3)
        | _, _ => Return (None, s, [WarnOneUnitTypePerTeam])
        end
  end.

(** The callback [startBattle] gives to [materialize]: a call of
    [createUnit], on the scene and what has been sent out so far. *)
Definition unitCreator (x y : JS.number) (team : Team) (type : UnitType)
    (armed : option WarMachineArming.ArmedWarMachine)
    (acc : State * list Output) : State * list Output :=
  let '(s', out') := createUnit (fst acc) x y team type armed in
  (s', snd acc ++ out').

Definition startBattle (s : State) : State * list Output :=
  match phase s with
  | battle => (s, [])
  | deploy =>
      let s1 := set_phase s battle in
      let '(s2, out) :=
        match deployManager s1 with
        | None => (s1, [])
        | Some dm =>
            let '(dm', acc) :=
              DeployManager.materialize unitCreator dm (s1, []) in
            (mkState (phase (fst acc)) (Some dm') (units (fst acc))
               (attackers (fst acc)) (defenders (fst acc))
               (nextUnitId (fst acc)) (onStats (fst acc)),
             snd acc)
        end in
      (s2, out ++ emitStats s2)
  end.

End BattleScene.

Local Close Scope js_scope.

(** ** The words of the specification *)

Module Spec.

(** "rounds": [n] is the integer nearest to [x], a tie going up. *)
Definition rounds_to (x : Q) (n : Z) : Prop :=
  inject_Z n - (1 # 2) <= x /\ x < inject_Z n + (1 # 2).

(** "attackPower = rangeDamage if defined and >0 else attack" *)
Definition attackPower (a : CombatRules.AttackProfile) : Q :=
  match CombatRules.rangeDamage a with
  | Some rd => if Qlt_le_dec 0 rd then rd else CombatRules.attack a
  | None => CombatRules.attack a
  end.

(** A well-formed catalogue entry: "attack > 0, defense >= 0, health > 0,
    speed > 0, optional range > 0". *)
Definition wellFormedEntry (s : UnitRepository.CombatStats) : Prop :=
  0 < UnitRepository.attack s /\ 0 <= UnitRepository.defense s
  /\ 0 < UnitRepository.health s /\ 0 < UnitRepository.speed s
  /\ (forall r, UnitRepository.range s = Some r -> 0 < r).

(** An arming request the preconditions turn down: "a pack of size < 20, or
    a ranged Regular type, or a Hero/WarMachine type". *)
Definition armingRefused (armingPack : DeployManager.DeployPack) : Prop :=
  DeployManager.size armingPack < 20
  \/ (exists r, DeployManager.type armingPack = Regular r
                /\ UnitRepository.range (UnitRepository.regularCombatStats r)
                   <> None)
  \/ isHeroType (DeployManager.type armingPack) = true
  \/ isWarMachine (DeployManager.type armingPack) = true.

(** Packs used as examples: a pack of [size] units of [type] with the pack
    id [id], placed at (x, 350); a war machine, which has no catalogue entry,
    is given the melee range. *)
Definition examplePack (id : Z) (team : Team) (type : UnitType)
    (size x : Q) : DeployManager.DeployPack :=
  {| DeployManager.id := id;
     DeployManager.team := team;
     DeployManager.type := type;
     DeployManager.size := size;
     DeployManager.sprite :=
       Phaser.circle x 350 (DeployManager.getPackRadius type)
         (UnitVisuals.colorOf type team) (95 # 100);
     DeployManager.range :=
       match UnitRepository.unitCombatStats type with
       | Some stats =>
           CombatRules.range (CombatRules.deriveBattleStats stats)
       | None => CombatRules.DEFAULT_MELEE_RANGE
       end;
     DeployManager.isRanged :=
       match UnitRepository.unitCombatStats type with
       | Some stats =>
           CombatRules.isRanged (CombatRules.deriveBattleStats stats)
       | None => false
       end;
     DeployManager.armedWarMachine := None |}.

Definition exampleDeployment (packs : list DeployManager.DeployPack)
  : DeployManager.State :=
  {| DeployManager.packs := packs;
     DeployManager.nextPackId := 10;
     DeployManager.deployTeam := attacker;
     DeployManager.deployUnitType := Regular WARRIOR;
     DeployManager.armingMode := false;
     DeployManager.warMachineToArm := None;
     DeployManager.selectedPackId := None;
     DeployManager.rangeIndicator := Some None |}.

(** The preconditions of auto-resolve, on the packs deployed in a scene. *)
Definition deployedPacks (s : BattleScene.State)
  : list DeployManager.DeployPack :=
  match BattleScene.deployManager s with
  | Some dm => DeployManager.packs dm
  | None => []
  end.

(** The units a team has deployed. *)
Definition unitsDeployed (s : BattleScene.State) (t : Team) : Q :=
  match BattleScene.deployManager s with
  | Some dm => DeployManager.getTeamUnitCount dm t
  | None => 0
  end.

(** "either side empty" *)
Definition sideEmpty (s : BattleScene.State) (t : Team) : Prop :=
  unitsDeployed s t == 0.

(** "mixed unit types per side" *)
Definition mixedTypes (s : BattleScene.State) (t : Team) : Prop :=
  exists p q,
    In p (deployedPacks s) /\ In q (deployedPacks s)
    /\ DeployManager.team p = t /\ DeployManager.team q = t
    /\ DeployManager.type p <> DeployManager.type q.

(** "armed war machines present" *)
Definition armedWarMachinePresent (s : BattleScene.State) : Prop :=
  exists p,
    In p (deployedPacks s)
    /\ isWarMachine (DeployManager.type p) = true
    /\ DeployManager.armedWarMachine p <> None.

Definition autoResolvePreconditionFails (s : BattleScene.State) : Prop :=
  sideEmpty s attacker \/ sideEmpty s defender
  \/ mixedTypes s attacker \/ mixedTypes s defender
  \/ armedWarMachinePresent s.

(** A pack holds at least one unit (1 for a Hero or a WarMachine, else 20). *)
Definition packsNonEmpty (s : BattleScene.State) : Prop :=
  forall p, In p (deployedPacks s) -> 0 < DeployManager.size p.

(** The same, on a deployment. *)
Definition sizesPositive (dm : DeployManager.State) : Prop :=
  forall p, In p (DeployManager.packs dm) -> 0 < DeployManager.size p.

Definition exampleScene (packs : list DeployManager.DeployPack)
  : BattleScene.State :=
  {| BattleScene.phase := deploy;
     BattleScene.deployManager := Some (exampleDeployment packs);
     BattleScene.units := [];
     BattleScene.attackers := [];
     BattleScene.defenders := [];
     BattleScene.nextUnitId := 1;
     BattleScene.onStats := true |}.

(** "bounded by maxDurationMs/timeStepMs iterations": the iterations the
    loop can make are those at the times 0, timeStepMs, 2 timeStepMs, ... up
    to maxDurationMs, one more than the quotient rounded down. *)
Definition iterationBound (maxDurationMs timeStepMs : Q) : nat :=
  Z.to_nat (Qfloor (maxDurationMs / timeStepMs) + 1).

(** A number that counts units: 0, 1, 2, ... *)
Definition isCount (q : Q) : Prop := exists n : nat, q == inject_Z (Z.of_nat n).

(** One unit on each side, both at the same place. *)
Definition duel (attackerType defenderType : UnitType)
    (timeStepMs maxDurationMs : Q) : SimulateBattle.SimulationConfig :=
  {| SimulateBattle.attackerType := attackerType;
     SimulateBattle.defenderType := defenderType;
     SimulateBattle.packSize := None;
     SimulateBattle.attackerCount := Some 1;
     SimulateBattle.defenderCount := Some 1;
     SimulateBattle.maxDurationMs := Some maxDurationMs;
     SimulateBattle.timeStepMs := Some timeStepMs;
     SimulateBattle.startDistance := Some 0 |}.

(** The iterations left from a loop state: none once the time is past the
    cap. *)
Definition iterationsLeft (max ts : Q) (st : SimulateBattle.LoopState) : nat :=
  Z.to_nat (Qfloor ((max - SimulateBattle.time st) / ts) + 1).

(** The quantities of the duration property, on catalogue entries: the
    damage of one attack, "requiredHits = ceil(targetHp / damage)", the
    cooldown of the unit that attacks, and the duration as the specification
    states it, "ceil(requiredHits * cooldownMs)". *)
Definition damageOf (attackerStats targetStats : UnitRepository.CombatStats)
  : Q :=
  CombatRules.calculateDamage
    (CombatRules.mkAttackProfile (UnitRepository.attack attackerStats)
       (UnitRepository.rangeDamage attackerStats))
    (CombatRules.mkDefenseProfile (UnitRepository.defense targetStats)).

Definition requiredHits (attackerStats targetStats : UnitRepository.CombatStats)
  : Z :=
  Qceiling (UnitRepository.health targetStats
            / damageOf attackerStats targetStats).

Definition cooldownOf (stats : UnitRepository.CombatStats) : Q :=
  CombatRules.cooldownMs (CombatRules.deriveBattleStats stats).

Definition statedDuration
    (attackerStats targetStats : UnitRepository.CombatStats) : Q :=
  inject_Z
    (Qceiling (inject_Z (requiredHits attackerStats targetStats)
               * cooldownOf attackerStats)).

(** The time steps from one attack to the next: the cooldown in time steps,
    rounded up; and the iteration in which the killing hit lands. *)
Definition stepsPerAttack (stats : UnitRepository.CombatStats) (ts : Q) : Z :=
  Qceiling (cooldownOf stats / ts).

Definition killTick (attackerStats targetStats : UnitRepository.CombatStats)
    (ts : Q) : Z :=
  (requiredHits attackerStats targetStats * stepsPerAttack attackerStats ts)%Z.

(** The unit [buildUnit] makes of a catalogue entry. *)
Definition built (type : UnitType) (team : Team) (id : Z) (x : Q)
    (stats : UnitRepository.CombatStats) : SimulateBattle.SimUnit :=
  {| SimulateBattle.id := id;
     SimulateBattle.team := team;
     SimulateBattle.type := type;
     SimulateBattle.attack := UnitRepository.attack stats;
     SimulateBattle.defense := UnitRepository.defense stats;
     SimulateBattle.hp := UnitRepository.health stats;
     SimulateBattle.maxHp := UnitRepository.health stats;
     SimulateBattle.speed :=
       CombatRules.speed (CombatRules.deriveBattleStats stats);
     SimulateBattle.range :=
       CombatRules.range (CombatRules.deriveBattleStats stats);
     SimulateBattle.rangeDamage := UnitRepository.rangeDamage stats;
     SimulateBattle.isRanged :=
       CombatRules.isRanged (CombatRules.deriveBattleStats stats);
     SimulateBattle.cooldownMs :=
       CombatRules.cooldownMs (CombatRules.deriveBattleStats stats);
     SimulateBattle.lastAttackAt := 0;
     SimulateBattle.x := x |}.

(** Examples. *)
Definition ballista : DeployManager.DeployPack :=
  examplePack 1 attacker (WarMachine BALLISTA) 1 100.
Definition elves : DeployManager.DeployPack :=
  examplePack 2 attacker (Regular ELF) 20 200.
Definition warriors : DeployManager.DeployPack :=
  examplePack 2 attacker (Regular WARRIOR) 20 200.
Definition orcs : DeployManager.DeployPack :=
  examplePack 3 attacker (Regular ORC) 20 250.
Definition dwarves : DeployManager.DeployPack :=
  examplePack 4 defender (Regular DWARF) 20 600.

(** Two units too far apart to meet within the cap. *)
Definition farApart : SimulateBattle.SimulationConfig :=
  {| SimulateBattle.attackerType := Regular WARRIOR;
     SimulateBattle.defenderType := Regular DWARF;
     SimulateBattle.packSize := None;
     SimulateBattle.attackerCount := Some 1;
     SimulateBattle.defenderCount := Some 1;
     SimulateBattle.maxDurationMs := Some 90000;
     SimulateBattle.timeStepMs := Some 50;
     SimulateBattle.startDistance := Some 100000 |}.

(** The same two units with a time step of 0. *)
Definition frozen : SimulateBattle.SimulationConfig :=
  {| SimulateBattle.attackerType := Regular WARRIOR;
     SimulateBattle.defenderType := Regular DWARF;
     SimulateBattle.packSize := None;
     SimulateBattle.attackerCount := Some 1;
     SimulateBattle.defenderCount := Some 1;
     SimulateBattle.maxDurationMs := Some 90000;
     SimulateBattle.timeStepMs := Some 0;
     SimulateBattle.startDistance := Some 100000 |}.

(** Three warriors against two dwarves. *)
Definition skirmish : SimulateBattle.SimulationConfig :=
  {| SimulateBattle.attackerType := Regular WARRIOR;
     SimulateBattle.defenderType := Regular DWARF;
     SimulateBattle.packSize := Some 3;
     SimulateBattle.attackerCount := None;
     SimulateBattle.defenderCount := Some 2;
     SimulateBattle.maxDurationMs := None;
     SimulateBattle.timeStepMs := None;
     SimulateBattle.startDistance := Some 30 |}.

(** The configuration of the repository's test of the resolver. *)
Definition packBattle : SimulateBattle.SimulationConfig :=
  {| SimulateBattle.attackerType := Regular WARRIOR;
     SimulateBattle.defenderType := Regular DWARF;
     SimulateBattle.packSize := Some 20;
     SimulateBattle.attackerCount := None;
     SimulateBattle.defenderCount := None;
     SimulateBattle.maxDurationMs := Some 90000;
     SimulateBattle.timeStepMs := Some 50;
     SimulateBattle.startDistance := Some 320 |}.

Definition warrior : UnitRepository.CombatStats :=
  UnitRepository.regularCombatStats WARRIOR.
Definition dwarf : UnitRepository.CombatStats :=
  UnitRepository.regularCombatStats DWARF.

End Spec.

(** ** A duel: one unit on each side, at the same place

    The definitions used to follow the resolver through a one-against-one
    battle in which nobody has to move. *)

Module Duel.
Import SimulateBattle.

(** The damage [u] deals to [e] with one attack. *)
Definition damage (u e : SimUnit) : Q :=
  CombatRules.calculateDamage (asAttackProfile u) (asDefenseProfile e).

(** "requiredHits = ceil(targetHp / damage)" *)
Definition requiredHits (u e : SimUnit) : Z := Qceiling (hp e / damage u e).

(** The iterations from one attack of [u] to its next: the least number of
    time steps that make up its cooldown. *)
Definition period (u : SimUnit) (ts : Q) : Z := Qceiling (cooldownMs u / ts).

(** The iteration in which [u] lands the hit that kills [e], if nothing stops
    it before. *)
Definition killTick (u e : SimUnit) (ts : Q) : Z :=
  (requiredHits u e * period u ts)%Z.

(** What the step of a living unit [u] does when its enemy [e] is in
    range. *)
Definition strike (u e : SimUnit) (t : Q) : SimUnit * SimUnit :=
  if JS.ge (JS.sub t (lastAttackAt u)) (cooldownMs u)
  then applyAttack u e t else (u, e).

(** One iteration of the loop on the attacker [u] and the defender [e]. *)
Definition duelTick (u e : SimUnit) (t ts : Q) : LoopState :=
  let '(u1, e1) := strike u e t in
  let '(e2, u2) := if alive e1 then strike e1 u1 t else (e1, u1) in
  mkLoopState (filter alive [u2]) (filter alive [e2]) (JS.add t ts).

(** The unit [u] after it has taken [hits] hits of [dmg] each and has last
    attacked in iteration [last] (0 when it has not attacked yet). *)
Definition unitAt (u : SimUnit) (hits : Z) (dmg : Q) (last : Z) (ts : Q)
  : SimUnit :=
  set_lastAttackAt (set_hp u (Qred (hp u - inject_Z hits * dmg)))
    (Qred (inject_Z last * ts)).

(** How far a duel has got when iteration [tick] starts: the hits landed by
    each side and the iterations of their last attacks. *)
Record Progress : Set := mkProgress {
  tick : Z;
  hitsA : Z;
  lastA : Z;
  hitsD : Z;
  lastD : Z
}.

Definition stateAt (a d : SimUnit) (ts : Q) (p : Progress) : LoopState :=
  mkLoopState
    [unitAt a (hitsD p) (damage d a) (lastA p) ts]
    [unitAt d (hitsA p) (damage a d) (lastD p) ts]
    (Qred (inject_Z (tick p) * ts)).

(** The progress made by one iteration in which nobody dies. *)
Definition advance (a d : SimUnit) (ts : Q) (p : Progress) : Progress :=
  let attackA := (period a ts <=? tick p - lastA p)%Z in
  let attackD := (period d ts <=? tick p - lastD p)%Z in
  {| tick := tick p + 1;
     hitsA := if attackA then hitsA p + 1 else hitsA p;
     lastA := if attackA then tick p else lastA p;
     hitsD := if attackD then hitsD p + 1 else hitsD p;
     lastD := if attackD then tick p else lastD p |}.

(** The invariant of a duel in which both units are alive. *)
Definition onSchedule (a d : SimUnit) (ts : Q) (p : Progress) : Prop :=
  (0 <= tick p
   /\ lastA p = hitsA p * period a ts /\ tick p <= lastA p + period a ts
   /\ lastD p = hitsD p * period d ts /\ tick p <= lastD p + period d ts
   /\ 0 <= hitsA p < requiredHits a d
   /\ 0 <= hitsD p < requiredHits d a)%Z.

(** Two units that can fight a duel: the attacker with id 1 and the defender
    with id 2 at the same place, alive, not having attacked yet. *)
Definition ready (a d : SimUnit) : Prop :=
  id a = 1%Z /\ team a = attacker /\ id d = 2%Z /\ team d = defender
  /\ x d = x a
  /\ 0 <= range a /\ 0 <= range d
  /\ 0 < hp a /\ 0 < hp d
  /\ Qred (hp a) = hp a /\ Qred (hp d) = hp d
  /\ lastAttackAt a = 0 /\ lastAttackAt d = 0
  /\ 0 < cooldownMs a /\ 0 < cooldownMs d.

End Duel.

(** ** Notions used to state what the code keeps

    Distances, orders and the invariants of the resolver's loop and of the
    deployment. *)

Module Notions.

(** The distance [findNearestEnemy] and [stepUnit] compare. *)
Definition distance (unit enemy : SimulateBattle.SimUnit) : Q :=
  JS.Math_abs (JS.sub (SimulateBattle.x enemy) (SimulateBattle.x unit)).

(** Every unit of the two arrays has hit points above 0. *)
Definition allAlive (st : SimulateBattle.LoopState) : Prop :=
  Forall (fun u => SimulateBattle.alive u = true)
    (SimulateBattle.attackers st ++ SimulateBattle.defenders st).

(** The ids grow along the attackers and on along the defenders. *)
Definition idsAscending (st : SimulateBattle.LoopState) : Prop :=
  StronglySorted Z.lt
    (map SimulateBattle.id
       (SimulateBattle.attackers st ++ SimulateBattle.defenders st)).

(** What the result of [findNearestEnemy] is among the enemies: no enemy is
    alive, or the position of a living enemy at the least distance, the first
    of those in the array. *)
Definition nearestLiving (unit : SimulateBattle.SimUnit)
    (enemies : list SimulateBattle.SimUnit) (nearest : option nat) : Prop :=
  match nearest with
  | None => forall e, In e enemies -> SimulateBattle.alive e = false
  | Some j =>
      exists e,
        nth_error enemies j = Some e /\ SimulateBattle.alive e = true
        /\ forall k e',
             nth_error enemies k = Some e' ->
             SimulateBattle.alive e' = true ->
             distance unit e <= distance unit e'
             /\ ((k < j)%nat -> distance unit e < distance unit e')
  end.

(** Some unit of the two arrays has hit points above 0. *)
Definition someAlive (st : SimulateBattle.LoopState) : Prop :=
  exists u,
    In u (SimulateBattle.attackers st ++ SimulateBattle.defenders st)
    /\ SimulateBattle.alive u = true.

(** Each array holds the units of its team. *)
Definition teamsApart (st : SimulateBattle.LoopState) : Prop :=
  Forall (fun u => SimulateBattle.team u = attacker)
    (SimulateBattle.attackers st)
  /\ Forall (fun u => SimulateBattle.team u = defender)
       (SimulateBattle.defenders st).

(** The loop states [simulateBattle] goes through on a configuration: the
    state the loop is entered with, and the state after each iteration that
    the loop condition lets through. *)
Inductive visited (config : SimulateBattle.SimulationConfig)
  : SimulateBattle.LoopState -> Prop :=
  | visited_first attackers0 defenders0 :
      SimulateBattle.createPack (SimulateBattle.attackerType config) attacker
        (SimulateBattle.effectiveAttackerCount config) 0 1%Z
      = Return attackers0 ->
      SimulateBattle.createPack (SimulateBattle.defenderType config) defender
        (SimulateBattle.effectiveDefenderCount config)
        (SimulateBattle.effectiveStartDistance config)
        (1 + Z.of_nat (length attackers0))%Z
      = Return defenders0 ->
      visited config (SimulateBattle.mkLoopState attackers0 defenders0 0)
  | visited_next st :
      visited config st ->
      SimulateBattle.loopCondition
        (SimulateBattle.effectiveMaxDurationMs config) st = true ->
      visited config
        (SimulateBattle.loopBody (SimulateBattle.effectiveTimeStepMs config)
           st).

(** The result [simulateBattle] builds from the state its loop ends in. *)
Definition resultOf (st : SimulateBattle.LoopState)
  : SimulateBattle.SimulationResult :=
  {| SimulateBattle.winner :=
       SimulateBattle.decideWinner (SimulateBattle.attackers st)
         (SimulateBattle.defenders st);
     SimulateBattle.remaining_attacker :=
       length (SimulateBattle.attackers st);
     SimulateBattle.remaining_defender :=
       length (SimulateBattle.defenders st);
     SimulateBattle.durationMs := SimulateBattle.time st |}.

(** A configuration with another time cap. *)
Definition withMaxDuration (config : SimulateBattle.SimulationConfig)
    (maxDurationMs : Q) : SimulateBattle.SimulationConfig :=
  {| SimulateBattle.attackerType := SimulateBattle.attackerType config;
     SimulateBattle.defenderType := SimulateBattle.defenderType config;
     SimulateBattle.packSize := SimulateBattle.packSize config;
     SimulateBattle.attackerCount := SimulateBattle.attackerCount config;
     SimulateBattle.defenderCount := SimulateBattle.defenderCount config;
     SimulateBattle.maxDurationMs := Some maxDurationMs;
     SimulateBattle.timeStepMs := SimulateBattle.timeStepMs config;
     SimulateBattle.startDistance := SimulateBattle.startDistance config |}.

(** Two units that differ at most in their hit points, the second having no
    more than the first. *)
Definition worn (before after : SimulateBattle.SimUnit) : Prop :=
  SimulateBattle.set_hp before (SimulateBattle.hp after) = after
  /\ SimulateBattle.hp after <= SimulateBattle.hp before.

(** The units of one team in the packs, as a sum. *)
Definition teamUnits (t : Team) (packs : list DeployManager.DeployPack) : Q :=
  fold_right
    (fun pack sum =>
       if Team_eqb (DeployManager.team pack) t
       then DeployManager.size pack + sum else sum)
    0 packs.

(** The interior of a team's zone, where packs are anchored: 8 from its
    left and right edges, 10 from the top and the bottom of the map. *)
Definition insideZone (t : Team) (x y : Q) : Prop :=
  match t with
  | attacker => 8 <= x /\ x <= 352
  | defender => 488 <= x /\ x <= 1192
  end /\ 10 <= y /\ y <= 690.

(** A pack as [spawnPack] makes it and the drag listener leaves it: an id
    that was issued, a type of the catalogue, not armed, 1 unit for a hero
    and 20 otherwise, anchored inside the zone of its team. *)
Definition soundPack (nextPackId : Z) (p : DeployManager.DeployPack) : Prop :=
  (1 <= DeployManager.id p < nextPackId)%Z
  /\ isWarMachine (DeployManager.type p) = false
  /\ DeployManager.armedWarMachine p = None
  /\ DeployManager.size p
     = (if isHeroType (DeployManager.type p) then 1 else 20)
  /\ insideZone (DeployManager.team p)
       (Phaser.x (DeployManager.sprite p))
       (Phaser.y (DeployManager.sprite p)).

(** What every deployment reached from the initial one satisfies. *)
Record deploymentInvariant (dm : DeployManager.State) : Prop :=
  mkDeploymentInvariant {
  idsDistinct : NoDup (map DeployManager.id (DeployManager.packs dm));
  nextPositive : (1 <= DeployManager.nextPackId dm)%Z;
  packsSound :
    forall p, In p (DeployManager.packs dm) ->
      soundPack (DeployManager.nextPackId dm) p;
  notArming :
    DeployManager.armingMode dm = false
    /\ DeployManager.warMachineToArm dm = None;
  withinCapacity :
    forall t, teamUnits t (DeployManager.packs dm) <= 500;
  selectionValid :
    forall i, DeployManager.selectedPackId dm = Some i ->
      exists p, In p (DeployManager.packs dm) /\ DeployManager.id p = i
}.

(** The deployments reached from the initial one by the public methods of
    the class and by its listeners in the deploy phase.  The listener of
    'pointerdown' does [clearSelection] and then [exitArmingMode] or
    [spawnPack]; its steps are taken one by one here, which covers the call
    that [spawnPack] ends by throwing. *)
Inductive reachable : DeployManager.State -> Prop :=
  | reach_new : reachable DeployManager.new
  | reach_setDeployTeam dm t :
      reachable dm ->
      reachable
        (DeployManager.mkState (DeployManager.packs dm)
           (DeployManager.nextPackId dm) t (DeployManager.deployUnitType dm)
           (DeployManager.armingMode dm) (DeployManager.warMachineToArm dm)
           (DeployManager.selectedPackId dm) (DeployManager.rangeIndicator dm))
  | reach_setDeployUnitType dm type :
      reachable dm ->
      reachable
        (DeployManager.mkState (DeployManager.packs dm)
           (DeployManager.nextPackId dm) (DeployManager.deployTeam dm) type
           (DeployManager.armingMode dm) (DeployManager.warMachineToArm dm)
           (DeployManager.selectedPackId dm) (DeployManager.rangeIndicator dm))
  | reach_initialize dm :
      reachable dm ->
      reachable (DeployManager.set_rangeIndicator dm (Some None))
  | reach_spawnPack dm x y t type dm' :
      reachable dm ->
      DeployManager.spawnPack dm x y t type = Return dm' ->
      reachable dm'
  | reach_clearSelection dm :
      reachable dm -> reachable (DeployManager.clearSelection dm)
  | reach_exitArmingMode dm :
      reachable dm -> reachable (DeployManager.exitArmingMode dm)
  | reach_gameObjectDown dm packId isRightClick :
      reachable dm ->
      reachable
        (fst (DeployManager.onGameObjectDown dm deploy packId isRightClick))
  | reach_dragStart dm packId :
      reachable dm -> reachable (DeployManager.onDragStart dm deploy packId)
  | reach_drag dm packId dragX dragY :
      reachable dm ->
      reachable (DeployManager.onDrag dm deploy packId dragX dragY)
  | reach_reset dm : reachable dm -> reachable (DeployManager.reset dm)
  | reach_destroy dm : reachable dm -> reachable (DeployManager.destroy dm)
  | reach_materialize (S : Type) create dm (s : S) :
      reachable dm ->
      reachable (fst (DeployManager.materialize create dm s)).

(** What a run of calls of [createUnit] for one team does to the scene and
    to what has been sent out: [n] units more of the team [t], no unit of
    the other team, nothing sent out. *)
Definition grown (t : Team) (n : nat)
    (acc acc' : BattleScene.State * list BattleScene.Output) : Prop :=
  snd acc' = snd acc
  /\ BattleScene.phase (fst acc') = BattleScene.phase (fst acc)
  /\ BattleScene.deployManager (fst acc')
     = BattleScene.deployManager (fst acc)
  /\ BattleScene.onStats (fst acc') = BattleScene.onStats (fst acc)
  /\ length (BattleScene.attackers (fst acc'))
     = (length (BattleScene.attackers (fst acc))
        + (if Team_eqb t attacker then n else 0))%nat
  /\ length (BattleScene.defenders (fst acc'))
     = (length (BattleScene.defenders (fst acc))
        + (if Team_eqb t defender then n else 0))%nat.

(** The units of a team on the field. *)
Definition live (t : Team) (s : BattleScene.State) : list Z :=
  match t with
  | attacker => BattleScene.attackers s
  | defender => BattleScene.defenders s
  end.

(** Deployments and loop states used as examples: the deployment after a
    click at (100, 100) with the initial settings, after a further click at
    (700, 300) for the defenders' dwarves, after a click on that pack, and
    the state the resolver enters its loop with on [Spec.skirmish]. *)
Definition afterOneClick : DeployManager.State :=
  match
    DeployManager.spawnPack DeployManager.new 100 100 attacker (Regular WARRIOR)
  with
  | Return dm => dm
  | _ => DeployManager.new
  end.

Definition afterTwoClicks : DeployManager.State :=
  match
    DeployManager.spawnPack afterOneClick 700 300 defender (Regular DWARF)
  with
  | Return dm => dm
  | _ => afterOneClick
  end.

Definition afterSelecting : DeployManager.State :=
  fst (DeployManager.onGameObjectDown afterTwoClicks deploy (Some 2%Z) false).

(** A scene with the deployment after the two clicks, and a deployment in
    arming mode for [Spec.ballista], next to [Spec.warriors]. *)
Definition sceneAfterTwoClicks : BattleScene.State :=
  {| BattleScene.phase := deploy;
     BattleScene.deployManager := Some afterTwoClicks;
     BattleScene.units := [];
     BattleScene.attackers := [];
     BattleScene.defenders := [];
     BattleScene.nextUnitId := 1;
     BattleScene.onStats := true |}.

Definition armingDeployment : DeployManager.State :=
  DeployManager.enterArmingMode
    (Spec.exampleDeployment [Spec.ballista; Spec.warriors]) Spec.ballista.

(** A configuration without attackers, of a type the catalogue lacks. *)
Definition noAttackers : SimulateBattle.SimulationConfig :=
  {| SimulateBattle.attackerType := WarMachine BALLISTA;
     SimulateBattle.defenderType := Regular DWARF;
     SimulateBattle.packSize := None;
     SimulateBattle.attackerCount := Some 0;
     SimulateBattle.defenderCount := Some 2;
     SimulateBattle.maxDurationMs := None;
     SimulateBattle.timeStepMs := None;
     SimulateBattle.startDistance := None |}.

Definition skirmishStart : SimulateBattle.LoopState :=
  SimulateBattle.mkLoopState
    [Spec.built (Regular WARRIOR) attacker 1 0 Spec.warrior;
     Spec.built (Regular WARRIOR) attacker 2 0 Spec.warrior;
     Spec.built (Regular WARRIOR) attacker 3 0 Spec.warrior]
    [Spec.built (Regular DWARF) defender 4 30 Spec.dwarf;
     Spec.built (Regular DWARF) defender 5 30 Spec.dwarf]
    0.

End Notions.

(** * Properties *)

(** ** Numbers *)

Section Numbers.

Lemma add_correct (a b : Q) : JS.add a b == a + b.
Proof. apply Qred_correct. Qed.

Lemma sub_correct (a b : Q) : JS.sub a b == a - b.
Proof. apply Qred_correct. Qed.

Lemma mul_correct (a b : Q) : JS.mul a b == a * b.
Proof. apply Qred_correct. Qed.

Lemma div_correct (a b : Q) : JS.div a b == a / b.
Proof. apply Qred_correct. Qed.

Lemma le_true (a b : Q) : JS.le a b = true <-> a <= b.
Proof. apply Qle_bool_iff. Qed.

Lemma le_false (a b : Q) : JS.le a b = false <-> b < a.
Proof.
  unfold JS.le. split; intro H.
  - apply Qnot_le_lt. intro Hle. apply Qle_bool_iff in Hle. congruence.
  - destruct (Qle_bool a b) eqn:E; [|reflexivity].
    apply Qle_bool_iff in E. exfalso. apply (Qlt_not_le _ _ H E).
Qed.

Lemma lt_true (a b : Q) : JS.lt a b = true <-> a < b.
Proof.
  unfold JS.lt. rewrite negb_true_iff. apply (le_false b a).
Qed.

Lemma lt_false (a b : Q) : JS.lt a b = false <-> b <= a.
Proof.
  unfold JS.lt. rewrite negb_false_iff. apply (le_true b a).
Qed.

Lemma ge_true (a b : Q) : JS.ge a b = true <-> b <= a.
Proof. apply (le_true b a). Qed.

Lemma ge_false (a b : Q) : JS.ge a b = false <-> a < b.
Proof. apply (le_false b a). Qed.

Lemma gt_true (a b : Q) : JS.gt a b = true <-> b < a.
Proof. apply (lt_true b a). Qed.

Lemma gt_false (a b : Q) : JS.gt a b = false <-> a <= b.
Proof. apply (lt_false b a). Qed.

Lemma truthy_Some (r : Q) : JS.truthy (Some r) = true <-> ~ r == 0.
Proof.
  simpl. rewrite negb_true_iff. split; intro H.
  - intro E. apply Qeq_bool_iff in E. congruence.
  - destruct (Qeq_bool r 0) eqn:E; [|reflexivity].
    apply Qeq_bool_iff in E. contradiction.
Qed.

Lemma Math_round_rounds (x : Q) :
  Spec.rounds_to x (Qfloor (x + (1 # 2))).
Proof.
  unfold Spec.rounds_to.
  pose proof (Qfloor_le (x + (1 # 2))) as Hlo.
  pose proof (Qlt_floor (x + (1 # 2))) as Hhi.
  rewrite inject_Z_plus in Hhi.
  change (inject_Z 1) with 1 in Hhi.
  split; lra.
Qed.

Lemma Math_round_comp (x y : Q) : x == y -> JS.Math_round x = JS.Math_round y.
Proof.
  intro E. unfold JS.Math_round. f_equal. apply Qfloor_comp.
  rewrite E. reflexivity.
Qed.

Lemma Math_max_1_inject (n : Z) :
  JS.Math_max 1 (inject_Z n) = inject_Z (Z.max 1 n).
Proof.
  unfold JS.Math_max. destruct (JS.le 1 (inject_Z n)) eqn:E.
  - apply le_true in E. change 1 with (inject_Z 1) in E.
    rewrite <- Zle_Qle in E. rewrite Z.max_r by assumption. reflexivity.
  - apply le_false in E. change 1 with (inject_Z 1) in E.
    rewrite <- Zlt_Qlt in E. rewrite Z.max_l by lia. reflexivity.
Qed.

End Numbers.

(** ** Combat rules *)

Section CombatRulesFacts.
Import CombatRules.

Lemma attackPower_agrees (a : AttackProfile) :
  match rangeDamage a with
  | Some rd => if JS.gt rd 0 then rd else attack a
  | None => attack a
  end = Spec.attackPower a.
Proof.
  unfold Spec.attackPower. destruct (rangeDamage a) as [rd|]; [|reflexivity].
  destruct (Qlt_le_dec 0 rd) as [H|H].
  - apply gt_true in H. rewrite H. reflexivity.
  - apply gt_false in H. rewrite H. reflexivity.
Qed.

Lemma calculateDamage_eq (a : AttackProfile) (t : DefenseProfile) :
  calculateDamage a t
  = inject_Z
      (Z.max 1 (Qfloor (JS.sub (Spec.attackPower a)
                          (JS.mul (defense t) (45 # 100)) + (1 # 2)))).
Proof.
  unfold calculateDamage. rewrite attackPower_agrees.
  unfold JS.Math_round. apply Math_max_1_inject.
Qed.



Lemma rangeToPixels_present (r : Q) :
  0 < r -> rangeToPixels (Some r) == r * 5.
Proof.
  intro H. unfold rangeToPixels.
  assert (T : JS.truthy (Some r) = true) by (apply truthy_Some; lra).
  rewrite T. unfold RANGE_SCALE. apply mul_correct.
Qed.

(** C2: for a well-formed catalogue entry the derived stats are
    speed * 20, range * 5 (18 without a range), ranged exactly when a range
    of at least 10 is present, and a cooldown of 700 with a range and 450
    without one. *)
Theorem deriveBattleStats_exact (stats : UnitRepository.CombatStats) :
  Spec.wellFormedEntry stats ->
  speed (deriveBattleStats stats) == UnitRepository.speed stats * 20
  /\ range (deriveBattleStats stats)
     == match UnitRepository.range stats with
        | Some r => r * 5
        | None => 18
        end
  /\ (isRanged (deriveBattleStats stats) = true
      <-> exists r, UnitRepository.range stats = Some r /\ 10 <= r)
  /\ cooldownMs (deriveBattleStats stats)
     = match UnitRepository.range stats with
       | Some _ => 700
       | None => 450
       end.
Proof.
  intros (_ & _ & _ & _ & Hrange).
  unfold deriveBattleStats; simpl.
  split; [apply mul_correct|].
  destruct (UnitRepository.range stats) as [r|] eqn:E.
  - specialize (Hrange r eq_refl).
    split; [apply rangeToPixels_present; assumption|].
    split.
    + rewrite ge_true. unfold RANGED_THRESHOLD. split.
      * intro H. exists r. split; [reflexivity|assumption].
      * intros (r' & Er & H). inversion Er; subst. assumption.
    + assert (T : JS.truthy (Some r) = true) by (apply truthy_Some; lra).
      rewrite T. reflexivity.
  - split; [reflexivity|]. split; [|reflexivity].
    split; [discriminate|]. intros (r & Er & _). discriminate.
Qed.

Lemma deriveBattleStats_exact_witness :
  Spec.wellFormedEntry (UnitRepository.regularCombatStats HALFLING)
  /\ speed (deriveBattleStats (UnitRepository.regularCombatStats HALFLING))
     == 4 * 20
  /\ range (deriveBattleStats (UnitRepository.regularCombatStats HALFLING))
     == 15 * 5
  /\ cooldownMs (deriveBattleStats (UnitRepository.regularCombatStats HALFLING))
     = 700.
Proof.
  assert (W : Spec.wellFormedEntry
                (UnitRepository.regularCombatStats HALFLING)).
  { unfold Spec.wellFormedEntry; simpl.
    split; [reflexivity|]. split; [discriminate|].
    split; [reflexivity|]. split; [reflexivity|].
    intros r E. inversion E; subst. reflexivity. }
  split; [exact W|].
  destruct (deriveBattleStats_exact
              (UnitRepository.regularCombatStats HALFLING) W)
    as (Hs & Hr & _ & Hc).
  split; [exact Hs|]. split; [exact Hr | exact Hc].
Defined.

End CombatRulesFacts.

(** ** War-machine arming *)

Section ArmingFacts.
Import UnitRepository WarMachineArming.



Example arm_warrior :
  calculateArmedWarMachineStats (regularCombatStats WARRIOR)
  = mkCombatStats 16 12 63 1 (Some 35) (Some 19).
Proof. reflexivity. Qed.

End ArmingFacts.

(** ** Deployment *)

Section DeploymentFacts.
Import BattleConfig DeployManager.

Lemma ZONE_ATTACKER_eq : ZONE_ATTACKER = mkZone 0 360.
Proof. reflexivity. Qed.

Lemma ZONE_NEUTRAL_eq : ZONE_NEUTRAL = mkZone 360 120.
Proof. reflexivity. Qed.

Lemma ZONE_DEFENDER_eq : ZONE_DEFENDER = mkZone 480 720.
Proof. reflexivity. Qed.

(** The attacker's zone is 0 <= x <= 360 and the defender's 480 <= x <= 1200,
    both ends included, with 0 <= y <= 700. *)
Lemma pointInZone_spec (x y : Q) (t : Team) :
  pointInZone x y (getZoneForTeam t) = true
  <-> match t with
      | attacker => 0 <= x /\ x <= 360
      | defender => 480 <= x /\ x <= 1200
      end /\ 0 <= y /\ y <= 700.
Proof.
  unfold pointInZone.
  rewrite !andb_true_iff, !ge_true, !le_true.
  destruct t; simpl getZoneForTeam.
  - rewrite ZONE_ATTACKER_eq. simpl BattleConfig.x. simpl width.
    change (JS.add 0 360) with 360. change MAP_HEIGHT with 700. tauto.
  - rewrite ZONE_DEFENDER_eq. simpl BattleConfig.x. simpl width.
    change (JS.add 480 720) with 1200. change MAP_HEIGHT with 700. tauto.
Qed.

Lemma pointInZone_strip (x y : Q) (t : Team) :
  360 < x -> x < 480 -> pointInZone x y (getZoneForTeam t) = false.
Proof.
  intros Hlo Hhi.
  destruct (pointInZone x y (getZoneForTeam t)) eqn:E; [|reflexivity].
  apply pointInZone_spec in E. destruct t; lra.
Qed.

Lemma spawnPack_outside (dm : State) (x y : Q) (t : Team) (type : UnitType) :
  pointInZone x y (getZoneForTeam t) = false ->
  spawnPack dm x y t type = Return dm.
Proof. intro H. unfold spawnPack. rewrite H. reflexivity. Qed.

(** C6, as the code has it: a point with 360 < x < 480 is in neither team's
    zone, and placing a pack there leaves the deployment as it was. *)
Theorem neutral_strip_interior_rejected
    (dm : State) (x y : Q) (t : Team) (type : UnitType) :
  360 < x -> x < 480 ->
  pointInZone x y (getZoneForTeam t) = false
  /\ spawnPack dm x y t type = Return dm.
Proof.
  intros Hlo Hhi.
  pose proof (pointInZone_strip x y t Hlo Hhi) as H.
  split; [exact H | apply spawnPack_outside; exact H].
Qed.

Lemma neutral_strip_interior_rejected_witness :
  360 < 400 /\ 400 < 480
  /\ pointInZone 400 100 (getZoneForTeam attacker) = false
  /\ spawnPack DeployManager.new 400 100 attacker (Regular WARRIOR)
     = Return DeployManager.new.
Proof.
  split; [reflexivity|]. split; [reflexivity|].
  apply (neutral_strip_interior_rejected DeployManager.new 400 100 attacker
           (Regular WARRIOR)); reflexivity.
Defined.

(** C6 fails on the boundary: x = 360 lies in [360, 480) and is a valid
    placement point of the attacker, where a pack is placed. *)
Lemma neutral_strip_boundary_accepted :
  360 <= 360 /\ 360 < 480
  /\ pointInZone 360 100 (getZoneForTeam attacker) = true
  /\ exists pack,
       spawnPack DeployManager.new 360 100 attacker (Regular WARRIOR)
       = Return (mkState [pack] 2 attacker (Regular WARRIOR) false None None
                   None)
       /\ DeployManager.size pack = 20
       /\ Phaser.x (DeployManager.sprite pack) = 352.
Proof.
  split; [discriminate|]. split; [reflexivity|]. split; [reflexivity|].
  eexists. split; [reflexivity|]. split; reflexivity.
Qed.

End DeploymentFacts.

(** ** Arming a war machine during deployment *)

Section ArmingWorkflowFacts.
Import BattleConfig DeployManager.

Lemma regular_range_positive (r : RegularUnitType) (q : JS.number) :
  UnitRepository.range (UnitRepository.regularCombatStats r) = Some q ->
  JS.truthy (Some q) && JS.gt q 0 = true.
Proof.
  destruct r; simpl; intro E; try discriminate;
    inversion E; subst; reflexivity.
Qed.

Lemma armWarMachine_refused (dm : State) (warMachine armingPack : DeployPack) :
  Spec.armingRefused armingPack ->
  armWarMachine dm warMachine armingPack = dm.
Proof.
  intros [Hsize | [(r & Et & Hr) | [Hh | Hw]]]; unfold armWarMachine.
  - destruct (DeployManager.type armingPack) as [r| |]; try reflexivity.
    destruct (UnitRepository.range (UnitRepository.regularCombatStats r))
      as [q|].
    + destruct (JS.truthy (Some q) && JS.gt q 0); [reflexivity|].
      apply lt_true in Hsize. unfold PACK_SIZE. rewrite Hsize. reflexivity.
    + apply lt_true in Hsize. unfold PACK_SIZE. rewrite Hsize. reflexivity.
  - rewrite Et.
    destruct (UnitRepository.range (UnitRepository.regularCombatStats r))
      as [q|] eqn:E; [|congruence].
    rewrite (regular_range_positive r q E). reflexivity.
  - destruct (DeployManager.type armingPack); try discriminate; reflexivity.
  - destruct (DeployManager.type armingPack); try discriminate; reflexivity.
Qed.

(** C7: an arming request with a pack of fewer than 20 units, or of a ranged
    Regular type, or of a Hero or WarMachine type, changes nothing: the
    deployment, with the war machine, the candidate pack and every other
    pack, is as before. *)
Theorem armWarMachine_failure_unchanged
    (dm : State) (warMachine armingPack : DeployPack) :
  Spec.armingRefused armingPack ->
  armWarMachine dm warMachine armingPack = dm
  /\ (In warMachine (packs dm) ->
      In warMachine (packs (armWarMachine dm warMachine armingPack)))
  /\ (In armingPack (packs dm) ->
      In armingPack (packs (armWarMachine dm warMachine armingPack))).
Proof.
  intro H. rewrite (armWarMachine_refused dm warMachine armingPack H).
  split; [reflexivity|]. split; trivial.
Qed.

Lemma armWarMachine_failure_unchanged_witness :
  Spec.armingRefused Spec.elves
  /\ armWarMachine (Spec.exampleDeployment [Spec.ballista; Spec.elves])
       Spec.ballista Spec.elves
     = Spec.exampleDeployment [Spec.ballista; Spec.elves].
Proof.
  assert (R : Spec.armingRefused Spec.elves).
  { right. left. exists ELF. split; [reflexivity | discriminate]. }
  split; [exact R|].
  apply (armWarMachine_failure_unchanged
           (Spec.exampleDeployment [Spec.ballista; Spec.elves])
           Spec.ballista Spec.elves R).
Defined.

(** A full pack of a melee Regular type does arm the war machine and is
    consumed. *)
Example armWarMachine_succeeds :
  exists armed,
    packs (armWarMachine
             (Spec.exampleDeployment [Spec.ballista; Spec.warriors])
             Spec.ballista Spec.warriors)
    = [armed]
    /\ DeployManager.id armed = 1%Z
    /\ DeployManager.range armed = 175
    /\ DeployManager.isRanged armed = true
    /\ DeployManager.armedWarMachine armed
       = Some (WarMachineArming.mkArmedWarMachine WARRIOR
                 (UnitRepository.mkCombatStats 16 12 63 1 (Some 35)
                    (Some 19))).
Proof.
  eexists. split; [reflexivity|]. repeat split.
Qed.

End ArmingWorkflowFacts.

(** ** Auto-resolve *)

Section AutoResolveFacts.
Import DeployManager BattleScene.

Lemma teamCount_grows (t : Team) (ps : list DeployPack) (acc : Q) :
  (forall p, In p ps -> 0 < DeployManager.size p) ->
  acc <= fold_left
           (fun count pack =>
              if Team_eqb (DeployManager.team pack) t
              then JS.add count (DeployManager.size pack) else count)
           ps acc.
Proof.
  revert acc. induction ps as [|p ps IH]; intros acc Hpos; simpl.
  - lra.
  - assert (Hp : 0 < DeployManager.size p) by (apply Hpos; left; reflexivity).
    assert (Hps : forall q, In q ps -> 0 < DeployManager.size q)
      by (intros q Hq; apply Hpos; right; exact Hq).
    destruct (Team_eqb (DeployManager.team p) t).
    + eapply Qle_trans; [|apply IH; exact Hps]. rewrite add_correct. lra.
    + apply IH; exact Hps.
Qed.

Lemma teamCount_positive (t : Team) (ps : list DeployPack) (acc : Q) :
  (forall p, In p ps -> 0 < DeployManager.size p) ->
  filter (onTeam t) ps <> [] ->
  acc < fold_left
          (fun count pack =>
             if Team_eqb (DeployManager.team pack) t
             then JS.add count (DeployManager.size pack) else count)
          ps acc.
Proof.
  revert acc. induction ps as [|p ps IH]; intros acc Hpos Hne; simpl in *.
  - congruence.
  - assert (Hp : 0 < DeployManager.size p) by (apply Hpos; left; reflexivity).
    assert (Hps : forall q, In q ps -> 0 < DeployManager.size q)
      by (intros q Hq; apply Hpos; right; exact Hq).
    unfold onTeam in Hne at 1.
    destruct (Team_eqb (DeployManager.team p) t).
    + eapply Qlt_le_trans; [|apply teamCount_grows; exact Hps].
      rewrite add_correct. lra.
    + apply IH; assumption.
Qed.

Lemma sideEmpty_no_packs (s : BattleScene.State) (t : Team) :
  Spec.packsNonEmpty s -> Spec.sideEmpty s t ->
  filter (onTeam t) (Spec.deployedPacks s) = [].
Proof.
  unfold Spec.packsNonEmpty, Spec.sideEmpty, Spec.unitsDeployed,
    Spec.deployedPacks.
  destruct (deployManager s) as [dm|]; [|reflexivity].
  intros Hpos Hzero.
  destruct (filter (onTeam t) (packs dm)) eqn:E; [reflexivity|].
  exfalso.
  assert (Hne : filter (onTeam t) (packs dm) <> []) by (rewrite E; discriminate).
  pose proof (teamCount_positive t (packs dm) 0 Hpos Hne) as Hlt.
  unfold getTeamUnitCount in Hzero. rewrite Hzero in Hlt.
  apply (Qlt_irrefl 0 Hlt).
Qed.

Lemma distinct_covers (l seen : list UnitType) (x : UnitType) :
  In x l -> In x seen \/ In x (distinct l seen).
Proof.
  revert seen. induction l as [|t l IH]; intros seen Hin; simpl in *.
  - contradiction.
  - destruct (in_dec UnitType_eq_dec t seen) as [Hs|Hs].
    + destruct Hin as [->|Hin]; [left; exact Hs | apply IH; exact Hin].
    + destruct Hin as [->|Hin]; [right; left; reflexivity|].
      destruct (IH (t :: seen) Hin) as [[->|H]|H].
      * right; left; reflexivity.
      * left; exact H.
      * right; right; exact H.
Qed.

Lemma newSet_singleton (l : list UnitType) (t x : UnitType) :
  newSet l = [t] -> In x l -> x = t.
Proof.
  intros E Hin. destruct (distinct_covers l [] x Hin) as [[]|H].
  unfold newSet in E. rewrite E in H. destruct H as [->|[]]. reflexivity.
Qed.

Lemma mixedTypes_not_singleton (s : BattleScene.State) (t : Team)
    (a : UnitType) :
  Spec.mixedTypes s t ->
  newSet (map DeployManager.type (filter (onTeam t) (Spec.deployedPacks s)))
  <> [a].
Proof.
  intros (p & q & Hp & Hq & Tp & Tq & Hne) E.
  assert (In_t : forall r, In r (Spec.deployedPacks s) ->
                 DeployManager.team r = t ->
                 DeployManager.type r = a).
  { intros r Hr Tr. apply (newSet_singleton _ _ _ E).
    apply in_map. apply filter_In. split; [exact Hr|].
    unfold onTeam. rewrite Tr. destruct t; reflexivity. }
  apply Hne. rewrite (In_t p Hp Tp), (In_t q Hq Tq). reflexivity.
Qed.

Lemma armed_existsb (s : BattleScene.State) :
  Spec.armedWarMachinePresent s ->
  existsb isArmedWarMachine (Spec.deployedPacks s) = true.
Proof.
  intros (p & Hp & Hw & Ha). apply existsb_exists. exists p.
  split; [exact Hp|]. unfold isArmedWarMachine. rewrite Hw.
  destruct (DeployManager.armedWarMachine p); [reflexivity | congruence].
Qed.

(** C4: in the deploy phase, when a side has no unit deployed, or a side
    holds packs of two distinct unit types, or an armed war machine is
    present, autoResolve returns null and leaves the scene as it was. *)
Theorem autoResolve_precondition_failure (fuel : nat) (s : BattleScene.State) :
  phase s = deploy ->
  Spec.packsNonEmpty s ->
  Spec.autoResolvePreconditionFails s ->
  exists out, autoResolveBattle fuel s = Return (None, s, out).
Proof.
  intros Hphase Hpos Hfail.
  pose proof (sideEmpty_no_packs s attacker Hpos) as EmptyA.
  pose proof (sideEmpty_no_packs s defender Hpos) as EmptyD.
  pose proof (fun a => mixedTypes_not_singleton s attacker a) as MixedA.
  pose proof (fun a => mixedTypes_not_singleton s defender a) as MixedD.
  pose proof (armed_existsb s) as Armed.
  unfold autoResolveBattle. rewrite Hphase.
  unfold Spec.deployedPacks, getPacks in *.
  set (packs := match deployManager s with
                | Some dm => DeployManager.packs dm
                | None => []
                end) in *.
  destruct (filter (onTeam attacker) packs) as [|pa psa] eqn:Ea;
    [eexists; reflexivity|].
  destruct (filter (onTeam defender) packs) as [|pd psd] eqn:Ed;
    [eexists; reflexivity|].
  cbn [length Nat.eqb orb].
  destruct (newSet (map DeployManager.type (pa :: psa)))
    as [|ta [|ta' tas]] eqn:Ta; try (eexists; reflexivity).
  destruct (newSet (map DeployManager.type (pd :: psd)))
    as [|td [|td' tds]] eqn:Td; try (eexists; reflexivity).
  destruct (existsb isArmedWarMachine packs) eqn:Ex;
    [eexists; reflexivity|].
  exfalso.
  destruct Hfail as [H | [H | [H | [H | H]]]].
  - specialize (EmptyA H). discriminate.
  - specialize (EmptyD H). discriminate.
  - apply (MixedA ta H). reflexivity.
  - apply (MixedD td H). reflexivity.
  - specialize (Armed H). congruence.
Qed.

(** Every pack the deployment model makes or keeps holds at least one unit,
    so the scenes the theorem is about are the scenes that occur. *)
Lemma mapSet_In (p q : DeployPack) (ps : list DeployPack) :
  In p (mapSet q ps) -> p = q \/ In p ps.
Proof.
  induction ps as [|r ps IH]; simpl.
  - intros [<-|[]]. left. reflexivity.
  - destruct (DeployManager.id r =? DeployManager.id q)%Z; simpl.
    + intros [<-|H]; [left; reflexivity | right; right; exact H].
    + intros [<-|H]; [right; left; reflexivity|].
      destruct (IH H) as [->|H']; [left; reflexivity | right; right; exact H'].
Qed.

Lemma mutate_sizes (i : Z) (f : DeployPack -> DeployPack)
    (ps : list DeployPack) :
  (forall p, DeployManager.size (f p) = DeployManager.size p) ->
  (forall p, In p ps -> 0 < DeployManager.size p) ->
  forall p, In p (mutate i f ps) -> 0 < DeployManager.size p.
Proof.
  intros Hf Hps p Hin. unfold mutate in Hin.
  apply in_map_iff in Hin. destruct Hin as (q & <- & Hq).
  destruct (DeployManager.id q =? i)%Z; [rewrite Hf|]; apply Hps; exact Hq.
Qed.

Lemma exitArmingMode_sizes (dm : DeployManager.State) :
  Spec.sizesPositive dm -> Spec.sizesPositive (exitArmingMode dm).
Proof.
  unfold Spec.sizesPositive, exitArmingMode. cbn [packs]. intro H.
  destruct (warMachineToArm dm); [|exact H].
  apply mutate_sizes; [reflexivity | exact H].
Qed.

Lemma removePack_sizes (dm : DeployManager.State) (pack : DeployPack) :
  Spec.sizesPositive dm -> Spec.sizesPositive (removePack dm pack).
Proof.
  intro H. unfold removePack.
  set (dm1 := if sameId (selectedPackId dm) (DeployManager.id pack)
              then clearSelection dm else dm).
  assert (H1 : Spec.sizesPositive dm1).
  { unfold dm1.
    destruct (sameId (selectedPackId dm) (DeployManager.id pack)); exact H. }
  set (dm2 := if sameId (warMachineToArm dm1) (DeployManager.id pack)
              then exitArmingMode dm1 else dm1).
  assert (H2 : Spec.sizesPositive dm2).
  { unfold dm2.
    destruct (sameId (warMachineToArm dm1) (DeployManager.id pack));
      [apply exitArmingMode_sizes|]; exact H1. }
  intros p Hin. cbn [set_packs packs] in Hin. unfold mapDelete in Hin.
  apply filter_In in Hin. apply H2. apply Hin.
Qed.

Lemma spawnPack_sizes (dm dm' : DeployManager.State) (x y : Q) (t : Team)
    (type : UnitType) :
  Spec.sizesPositive dm ->
  spawnPack dm x y t type = Return dm' ->
  Spec.sizesPositive dm'.
Proof.
  intros H. unfold spawnPack. cbv zeta.
  destruct (negb (pointInZone x y (DeployManager.getZoneForTeam t)));
    [intro E; inversion E; subst; exact H|].
  destruct (JS.gt _ BattleConfig.MAX_UNITS);
    [intro E; inversion E; subst; exact H|].
  destruct (clampToZone x y (DeployManager.getZoneForTeam t)) as [packX packY].
  unfold createPack.
  destruct (UnitRepository.unitCombatStats type); cbn [bind]; [|discriminate].
  intro E. inversion E; subst; clear E.
  intros p Hin. cbn [set_packs packs] in Hin.
  apply mapSet_In in Hin. destruct Hin as [->|Hin]; [|apply H; exact Hin].
  cbn [DeployManager.size].
  destruct (isHeroType type || isWarMachine type); reflexivity.
Qed.

Lemma armWarMachine_sizes (dm : DeployManager.State)
    (warMachine armingPack : DeployPack) :
  Spec.sizesPositive dm ->
  Spec.sizesPositive (armWarMachine dm warMachine armingPack).
Proof.
  intro H. unfold armWarMachine.
  destruct (DeployManager.type armingPack) as [r| |]; try exact H.
  destruct (match UnitRepository.range (UnitRepository.regularCombatStats r)
            with
            | Some q => JS.truthy (Some q) && JS.gt q 0
            | None => false
            end); [exact H|].
  destruct (JS.lt (DeployManager.size armingPack) BattleConfig.PACK_SIZE);
    [exact H|].
  cbv zeta.
  match goal with
  | |- Spec.sizesPositive (if _ then updateRangeIndicator ?d _ else ?d) =>
      assert (Hd : Spec.sizesPositive d)
  end.
  { apply removePack_sizes. intros p Hin. cbn [set_packs packs] in Hin.
    revert p Hin. apply mutate_sizes; [reflexivity | exact H]. }
  destruct (sameId _ _); [|exact Hd].
  unfold updateRangeIndicator.
  destruct (rangeIndicator _); [|exact Hd].
  destruct (isWarMachine _ && _); exact Hd.
Qed.

Lemma new_sizes : Spec.sizesPositive DeployManager.new.
Proof. intros p []. Qed.

Lemma autoResolve_precondition_failure_witness :
  phase (Spec.exampleScene [Spec.warriors; Spec.orcs; Spec.dwarves]) = deploy
  /\ Spec.packsNonEmpty
       (Spec.exampleScene [Spec.warriors; Spec.orcs; Spec.dwarves])
  /\ Spec.autoResolvePreconditionFails
       (Spec.exampleScene [Spec.warriors; Spec.orcs; Spec.dwarves])
  /\ exists out,
       autoResolveBattle 2000
         (Spec.exampleScene [Spec.warriors; Spec.orcs; Spec.dwarves])
       = Return
           (None, Spec.exampleScene [Spec.warriors; Spec.orcs; Spec.dwarves],
            out).
Proof.
  assert (Hpos : Spec.packsNonEmpty
                   (Spec.exampleScene
                      [Spec.warriors; Spec.orcs; Spec.dwarves])).
  { intros p [<-|[<-|[<-|[]]]]; reflexivity. }
  assert (Hfail : Spec.autoResolvePreconditionFails
                    (Spec.exampleScene
                       [Spec.warriors; Spec.orcs; Spec.dwarves])).
  { right. right. left. exists Spec.warriors, Spec.orcs.
    simpl. repeat split; auto. discriminate. }
  split; [reflexivity|]. split; [exact Hpos|]. split; [exact Hfail|].
  apply (autoResolve_precondition_failure 2000
           (Spec.exampleScene [Spec.warriors; Spec.orcs; Spec.dwarves])
           eq_refl Hpos Hfail).
Defined.

(** With one unit type per side and no armed war machine the battle is
    resolved: 20 warriors against 20 dwarves leave 19 dwarves, which are
    spawned in the scene. *)
Example autoResolve_resolves :
  exists s' out,
    autoResolveBattle 2000 (Spec.exampleScene [Spec.warriors; Spec.dwarves])
    = Return
        (Some (SimulateBattle.mkSimulationResult
                 (SimulateBattle.won defender) 0 19 6100),
         s', out)
    /\ phase s' = battle
    /\ length (units s') = 19%nat
    /\ attackers s' = [].
Proof.
  vm_compute. eexists. eexists. split; [reflexivity|]. repeat split.
Qed.

End AutoResolveFacts.

(** ** The fast-forward resolver *)

Section ResolverFacts.
Import SimulateBattle.

Lemma setNth_length {A : Type} (i : nat) (v : A) (l : list A) :
  length (setNth i v l) = length l.
Proof.
  revert i. induction l as [|a l IH]; intros [|i]; simpl; auto.
Qed.

Lemma stepUnit_enemies_length (u : SimUnit) (es : list SimUnit) (t dt : Q) :
  length (snd (stepUnit u es t dt)) = length es.
Proof.
  unfold stepUnit.
  destruct (JS.le (hp u) 0); [reflexivity|].
  destruct (findNearestEnemy u es) as [k|]; [|reflexivity].
  destruct (nth_error es k) as [target|]; [|reflexivity].
  destruct (JS.le _ (range u)); [|reflexivity].
  destruct (JS.ge _ (cooldownMs u)); [|reflexivity].
  simpl. apply setNth_length.
Qed.

Lemma stepRef_lengths (now ts : Q) (st : LoopState) (r : Team * Z) :
  length (attackers (stepRef now ts st r)) = length (attackers st)
  /\ length (defenders (stepRef now ts st r)) = length (defenders st).
Proof.
  unfold stepRef. destruct (fst r).
  - destruct (indexOfId (snd r) (attackers st)) as [k|]; [|split; reflexivity].
    destruct (nth_error (attackers st) k) as [u|]; [|split; reflexivity].
    pose proof (stepUnit_enemies_length u (defenders st) now ts) as H.
    destruct (stepUnit u (defenders st) now ts) as [u' es']. simpl in *.
    split; [apply setNth_length | exact H].
  - destruct (indexOfId (snd r) (defenders st)) as [k|]; [|split; reflexivity].
    destruct (nth_error (defenders st) k) as [u|]; [|split; reflexivity].
    pose proof (stepUnit_enemies_length u (attackers st) now ts) as H.
    destruct (stepUnit u (attackers st) now ts) as [u' es']. simpl in *.
    split; [exact H | apply setNth_length].
Qed.

Lemma stepRef_time (now ts : Q) (st : LoopState) (r : Team * Z) :
  time (stepRef now ts st r) = time st.
Proof.
  unfold stepRef. destruct (fst r).
  - destruct (indexOfId (snd r) (attackers st)) as [k|]; [|reflexivity].
    destruct (nth_error (attackers st) k) as [u|]; [|reflexivity].
    destruct (stepUnit u (defenders st) now ts). reflexivity.
  - destruct (indexOfId (snd r) (defenders st)) as [k|]; [|reflexivity].
    destruct (nth_error (defenders st) k) as [u|]; [|reflexivity].
    destruct (stepUnit u (attackers st) now ts). reflexivity.
Qed.

Lemma steps_lengths (now ts : Q) (refs : list (Team * Z)) (st : LoopState) :
  length (attackers (fold_left (stepRef now ts) refs st))
  = length (attackers st)
  /\ length (defenders (fold_left (stepRef now ts) refs st))
     = length (defenders st).
Proof.
  revert st. induction refs as [|r refs IH]; intro st; simpl.
  - split; reflexivity.
  - destruct (IH (stepRef now ts st r)) as [Ha Hd].
    destruct (stepRef_lengths now ts st r) as [Ha' Hd'].
    split; congruence.
Qed.

(** One iteration removes units and adds none. *)
Lemma loopBody_lengths (ts : Q) (st : LoopState) :
  (length (attackers (loopBody ts st)) <= length (attackers st))%nat
  /\ (length (defenders (loopBody ts st)) <= length (defenders st))%nat.
Proof.
  unfold loopBody. cbn [attackers defenders].
  set (refs := sortById (map ref (attackers st ++ defenders st))).
  destruct (steps_lengths (time st) ts refs st) as [Ha Hd].
  split.
  - rewrite <- Ha. apply filter_length_le.
  - rewrite <- Hd. apply filter_length_le.
Qed.

Lemma loopBody_time (ts : Q) (st : LoopState) :
  time (loopBody ts st) = JS.add (time st) ts.
Proof. reflexivity. Qed.

Lemma while_lengths (fuel : nat) (max ts : Q) (st st' : LoopState)
    (n k : nat) :
  while fuel max ts st n = Return (st', k) ->
  (length (attackers st') <= length (attackers st))%nat
  /\ (length (defenders st') <= length (defenders st))%nat.
Proof.
  revert st n. induction fuel as [|fuel IH]; intros st n; simpl.
  - destruct (loopCondition max st); [discriminate|].
    intro E. inversion E; subst. split; apply Nat.le_refl.
  - destruct (loopCondition max st).
    + intro E. destruct (IH _ _ E) as [Ha Hd].
      destruct (loopBody_lengths ts st) as [Ha' Hd'].
      split; eapply Nat.le_trans; eassumption.
    + intro E. inversion E; subst. split; apply Nat.le_refl.
Qed.

(** The loop neither throws nor, given fuel, fails to end. *)
Lemma while_never_throws (fuel : nat) (max ts : Q) (st : LoopState) (n : nat) :
  throws (while fuel max ts st n) = false.
Proof.
  revert st n. induction fuel as [|fuel IH]; intros st n; simpl.
  - destruct (loopCondition max st); reflexivity.
  - destruct (loopCondition max st); [apply IH | reflexivity].
Qed.

Lemma createPackFrom_Return (type : UnitType) (team : Team)
    (stats : UnitRepository.CombatStats) (n : nat) (x0 : Q) (startId i : Z) :
  UnitRepository.unitCombatStats type = Some stats ->
  exists units,
    createPackFrom type team n x0 startId i = Return units
    /\ length units = n.
Proof.
  intro E. revert i. induction n as [|n IH]; intro i; simpl.
  - exists []. split; reflexivity.
  - unfold buildUnit. rewrite E. simpl.
    destruct (IH (i + 1)%Z) as (units & -> & Hlen). simpl.
    eexists. split; [reflexivity|]. simpl. congruence.
Qed.

Lemma createPackFrom_Throw (type : UnitType) (team : Team) (n : nat)
    (x0 : Q) (startId i : Z) :
  UnitRepository.unitCombatStats type = None ->
  createPackFrom type team (S n) x0 startId i
  = Throw (MissingCombatStats type).
Proof.
  intro E. simpl. unfold buildUnit. rewrite E. reflexivity.
Qed.

Lemma createPackFrom_length (type : UnitType) (team : Team) (n : nat)
    (x0 : Q) (startId i : Z) (units : list SimUnit) :
  createPackFrom type team n x0 startId i = Return units ->
  length units = n.
Proof.
  revert i units. induction n as [|n IH]; intros i units; simpl.
  - intro E. inversion E. reflexivity.
  - destruct (buildUnit type team (startId + i) x0) as [u| |];
      simpl; try discriminate.
    destruct (createPackFrom type team n x0 startId (i + 1)) as [l| |] eqn:E;
      simpl; try discriminate.
    intro E'. inversion E'. simpl. f_equal. apply (IH _ _ E).
Qed.

Lemma createPackFrom_ends (type : UnitType) (team : Team) (n : nat)
    (x0 : Q) (startId i : Z) :
  createPackFrom type team n x0 startId i <> OutOfFuel.
Proof.
  revert i. induction n as [|n IH]; intro i; simpl; [discriminate|].
  unfold buildUnit.
  destruct (UnitRepository.unitCombatStats type); simpl; [|discriminate].
  specialize (IH (i + 1)%Z).
  destruct (createPackFrom type team n x0 startId (i + 1)); simpl;
    [discriminate | discriminate | congruence].
Qed.

(** [createPack] builds one unit for each natural number below
    [packSize]. *)
Lemma iterationsBelow_spec (packSize : Q) (i : nat) :
  (i < iterationsBelow packSize)%nat <-> inject_Z (Z.of_nat i) < packSize.
Proof.
  unfold iterationsBelow.
  pose proof (Qle_ceiling packSize) as Hhi.
  pose proof (Qceiling_lt packSize) as Hlo.
  split; intro H.
  - assert (Hz : (Z.of_nat i <= Qceiling packSize - 1)%Z) by lia.
    rewrite Zle_Qle in Hz. lra.
  - assert (Hz : (Z.of_nat i < Qceiling packSize)%Z).
    { rewrite Zlt_Qlt. lra. }
    lia.
Qed.

Lemma iterationsBelow_nat (n : nat) :
  iterationsBelow (inject_Z (Z.of_nat n)) = n.
Proof.
  unfold iterationsBelow. rewrite Qceiling_Z. apply Nat2Z.id.
Qed.

End ResolverFacts.

Section ResolverTermination.
Import SimulateBattle.

Lemma Qfloor_unique (x : Q) (n : Z) :
  inject_Z n <= x -> x < inject_Z (n + 1) -> Qfloor x = n.
Proof.
  intros Hlo Hhi.
  pose proof (Qfloor_resp_le _ _ Hlo) as H1. rewrite Qfloor_Z in H1.
  pose proof (Qfloor_le x) as H2.
  assert (H3 : (Qfloor x < n + 1)%Z).
  { rewrite Zlt_Qlt. eapply Qle_lt_trans; eassumption. }
  lia.
Qed.

Lemma Qfloor_pred (x : Q) : Qfloor (x - 1) = (Qfloor x - 1)%Z.
Proof.
  apply Qfloor_unique.
  - pose proof (Qfloor_le x) as H. unfold Z.sub.
    rewrite inject_Z_plus, inject_Z_opp. change (inject_Z 1) with 1. lra.
  - pose proof (Qlt_floor x) as H.
    replace (Qfloor x - 1 + 1)%Z with (Qfloor x) by lia.
    rewrite inject_Z_plus in H. change (inject_Z 1) with 1 in H. lra.
Qed.

Lemma loopCondition_time (max : Q) (st : LoopState) :
  loopCondition max st = true -> time st <= max.
Proof.
  unfold loopCondition. rewrite !andb_true_iff. intros [[H _] _].
  apply le_true. exact H.
Qed.

Lemma iterationsLeft_step (max ts : Q) (st : LoopState) :
  0 < ts -> time st <= max ->
  Spec.iterationsLeft max ts st = S (Spec.iterationsLeft max ts (loopBody ts st)).
Proof.
  intros Hts Hle. unfold Spec.iterationsLeft. rewrite loopBody_time.
  assert (E : (max - JS.add (time st) ts) / ts == (max - time st) / ts - 1).
  { rewrite add_correct. field. lra. }
  rewrite (Qfloor_comp _ _ E), Qfloor_pred.
  assert (H0 : (0 <= Qfloor ((max - time st) / ts))%Z).
  { change 0%Z with (Qfloor 0). apply Qfloor_resp_le.
    apply Qle_shift_div_l; [exact Hts|]. lra. }
  lia.
Qed.

Lemma while_terminates (fuel : nat) (max ts : Q) (st : LoopState) (n : nat) :
  0 < ts ->
  (Spec.iterationsLeft max ts st <= fuel)%nat ->
  exists st' k,
    while fuel max ts st n = Return (st', k)
    /\ (k <= n + Spec.iterationsLeft max ts st)%nat
    /\ loopCondition max st' = false.
Proof.
  intro Hts. revert st n.
  induction fuel as [|fuel IH]; intros st n Hfuel; simpl.
  - destruct (loopCondition max st) eqn:C.
    + pose proof (iterationsLeft_step max ts st Hts
                    (loopCondition_time _ _ C)) as E. lia.
    + exists st, n. split; [reflexivity|]. split; [lia | exact C].
  - destruct (loopCondition max st) eqn:C.
    + pose proof (iterationsLeft_step max ts st Hts
                    (loopCondition_time _ _ C)) as E.
      destruct (IH (loopBody ts st) (S n)) as (st' & k & Hw & Hk & Hc);
        [lia|].
      exists st', k. split; [exact Hw|]. split; [lia | exact Hc].
    + exists st, n. split; [reflexivity|]. split; [lia | exact C].
Qed.

Lemma decideWinner_draw (attackers defenders : list SimUnit) :
  (0 < length attackers)%nat -> (0 < length defenders)%nat ->
  decideWinner attackers defenders = draw.
Proof.
  intros Ha Hd. unfold decideWinner.
  destruct (length attackers) as [|a]; [lia|].
  destruct (length defenders) as [|d]; [lia|]. reflexivity.
Qed.

Lemma loopCondition_cap (max : Q) (st : LoopState) :
  loopCondition max st = false ->
  (0 < length (attackers st))%nat -> (0 < length (defenders st))%nat ->
  max < time st.
Proof.
  unfold loopCondition. intros C Ha Hd.
  apply Nat.ltb_lt in Ha, Hd. rewrite Ha, Hd, !andb_true_r in C.
  apply le_false. exact C.
Qed.


End ResolverTermination.

Section ResolverBounds.
Import SimulateBattle.



(** Without timeStepMs > 0 the loop need not end: with a time step of 0
    neither the time nor the units move, whatever the number of
    iterations. *)
Lemma zero_time_step_never_ends (fuel : nat) :
  simulateBattle fuel Spec.frozen = OutOfFuel.
Proof.
  unfold simulateBattle, simulateBattleCounting.
  change (createPack (attackerType Spec.frozen) attacker
            (effectiveAttackerCount Spec.frozen) 0 1)
    with (Return [Spec.built (Regular WARRIOR) attacker 1 0 Spec.warrior]).
  cbn [bind length].
  change (createPack (defenderType Spec.frozen) defender
            (effectiveDefenderCount Spec.frozen)
            (effectiveStartDistance Spec.frozen) (1 + Z.of_nat 1))
    with (Return [Spec.built (Regular DWARF) defender 2 100000 Spec.dwarf]).
  cbn [bind].
  change (effectiveMaxDurationMs Spec.frozen) with 90000.
  change (effectiveTimeStepMs Spec.frozen) with 0.
  set (st := mkLoopState
               [Spec.built (Regular WARRIOR) attacker 1 0 Spec.warrior]
               [Spec.built (Regular DWARF) defender 2 100000 Spec.dwarf] 0).
  assert (Hfix : loopBody 0 st = st) by (vm_compute; reflexivity).
  assert (Hcond : loopCondition 90000 st = true) by reflexivity.
  assert (W : forall n, while fuel 90000 0 st n = OutOfFuel).
  { induction fuel as [|f IH]; intro n; cbn [while]; rewrite Hcond;
      [reflexivity | rewrite Hfix; apply IH]. }
  rewrite W. reflexivity.
Qed.

(** The units left on a side are at most the units created for it. *)
Lemma simulateBattle_remaining (fuel : nat) (cfg : SimulationConfig)
    (r : SimulationResult) :
  simulateBattle fuel cfg = Return r ->
  (remaining_attacker r <= iterationsBelow (effectiveAttackerCount cfg))%nat
  /\ (remaining_defender r
      <= iterationsBelow (effectiveDefenderCount cfg))%nat.
Proof.
  unfold simulateBattle, simulateBattleCounting.
  destruct (createPack (attackerType cfg) attacker
              (effectiveAttackerCount cfg) 0 1) as [as0|e|] eqn:Ea;
    cbn [bind]; try discriminate.
  destruct (createPack (defenderType cfg) defender
              (effectiveDefenderCount cfg) (effectiveStartDistance cfg)
              (1 + Z.of_nat (length as0))) as [ds0|e|] eqn:Ed;
    cbn [bind]; try discriminate.
  destruct (while fuel (effectiveMaxDurationMs cfg) (effectiveTimeStepMs cfg)
              (mkLoopState as0 ds0 0) 0) as [[st k]|e|] eqn:Ew;
    cbn [bind]; try discriminate.
  intro E. inversion E; subst; clear E.
  cbn [remaining_attacker remaining_defender fst].
  destruct (while_lengths _ _ _ _ _ _ _ Ew) as [Ha Hd].
  cbn [attackers defenders] in Ha, Hd.
  unfold createPack in Ea, Ed.
  apply createPackFrom_length in Ea, Ed. lia.
Qed.



(** The resolver on the configuration of the repository's test: 20 warriors
    against 20 dwarves from a distance of 320.  The dwarves come into range
    first and strike first; all 20 of them are left. *)
Example warriors_against_dwarves :
  simulateBattle 2000 Spec.packBattle
  = Return (mkSimulationResult (won defender) 0 20 5950).
Proof. vm_compute. reflexivity. Qed.

End ResolverBounds.

(** ** What throws and what does not *)

Section ErrorFacts.
Import SimulateBattle.

Lemma spawnPack_capacity (dm : DeployManager.State) (x y : Q) (t : Team)
    (type : UnitType) :
  BattleConfig.MAX_UNITS
  < DeployManager.getTeamUnitCount dm t
    + (if isHeroType type || isWarMachine type
       then 1 else BattleConfig.PACK_SIZE) ->
  DeployManager.spawnPack dm x y t type = Return dm.
Proof.
  intro H. unfold DeployManager.spawnPack. cbv zeta.
  destruct (negb (DeployManager.pointInZone x y
                    (DeployManager.getZoneForTeam t))); [reflexivity|].
  destruct (JS.gt _ BattleConfig.MAX_UNITS) eqn:G; [reflexivity|].
  exfalso. apply gt_false in G. rewrite add_correct in G.
  apply (Qlt_not_le _ _ H). exact G.
Qed.

Lemma createUnit_missing (s : BattleScene.State) (x y : Q) (t : Team)
    (type : UnitType) (armed : option WarMachineArming.ArmedWarMachine) :
  UnitRepository.unitCombatStats type = None ->
  BattleScene.createUnit s x y t type armed
  = (s, [BattleScene.ErrorNoCombatStats type]).
Proof. intro E. unfold BattleScene.createUnit. rewrite E. reflexivity. Qed.

Lemma simulateBattle_no_throw (fuel : nat) (cfg : SimulationConfig) :
  UnitRepository.unitCombatStats (attackerType cfg) <> None ->
  UnitRepository.unitCombatStats (defenderType cfg) <> None ->
  throws (simulateBattle fuel cfg) = false.
Proof.
  intros Ha Hd. unfold simulateBattle, simulateBattleCounting, createPack.
  destruct (UnitRepository.unitCombatStats (attackerType cfg))
    as [sa|] eqn:Ea; [|congruence].
  destruct (UnitRepository.unitCombatStats (defenderType cfg))
    as [sd|] eqn:Ed; [|congruence].
  destruct (createPackFrom_Return (attackerType cfg) attacker sa
              (iterationsBelow (effectiveAttackerCount cfg)) 0 1 0 Ea)
    as (as0 & -> & _).
  cbn [bind].
  destruct (createPackFrom_Return (defenderType cfg) defender sd
              (iterationsBelow (effectiveDefenderCount cfg))
              (effectiveStartDistance cfg) (1 + Z.of_nat (length as0)) 0 Ed)
    as (ds0 & -> & _).
  cbn [bind].
  pose proof (while_never_throws fuel (effectiveMaxDurationMs cfg)
                (effectiveTimeStepMs cfg) (mkLoopState as0 ds0 0) 0) as W.
  destruct (while fuel (effectiveMaxDurationMs cfg) (effectiveTimeStepMs cfg)
              (mkLoopState as0 ds0 0) 0) as [[st k]| |];
    cbn [bind throws] in *; [reflexivity | discriminate | reflexivity].
Qed.

Lemma iterationsBelow_positive (q : Q) :
  0 < q -> exists n, iterationsBelow q = S n.
Proof.
  intro H. pose proof (proj2 (iterationsBelow_spec q 0) H) as L.
  destruct (iterationsBelow q) as [|n]; [lia|]. exists n. reflexivity.
Qed.

Lemma simulateBattle_throws (fuel : nat) (cfg : SimulationConfig) :
  UnitRepository.unitCombatStats (attackerType cfg) = None ->
  0 < effectiveAttackerCount cfg ->
  simulateBattle fuel cfg = Throw (MissingCombatStats (attackerType cfg)).
Proof.
  intros E Hc. unfold simulateBattle, simulateBattleCounting, createPack.
  destruct (iterationsBelow_positive _ Hc) as [n ->].
  rewrite (createPackFrom_Throw _ _ n _ _ _ E). reflexivity.
Qed.

Lemma simulateBattle_throws_defender (fuel : nat) (cfg : SimulationConfig) :
  UnitRepository.unitCombatStats (attackerType cfg) <> None ->
  UnitRepository.unitCombatStats (defenderType cfg) = None ->
  0 < effectiveDefenderCount cfg ->
  simulateBattle fuel cfg = Throw (MissingCombatStats (defenderType cfg)).
Proof.
  intros Ha E Hc. unfold simulateBattle, simulateBattleCounting, createPack.
  destruct (UnitRepository.unitCombatStats (attackerType cfg))
    as [sa|] eqn:Ea; [|congruence].
  destruct (createPackFrom_Return (attackerType cfg) attacker sa
              (iterationsBelow (effectiveAttackerCount cfg)) 0 1 0 Ea)
    as (as0 & -> & _).
  cbn [bind].
  destruct (iterationsBelow_positive _ Hc) as [n ->].
  rewrite (createPackFrom_Throw _ _ n _ _ _ E). reflexivity.
Qed.

(** C5, as the code has it: a placement out of the zone or over the
    capacity and a refused arming leave the deployment as it was, and the
    live engine logs a unit type without a catalogue entry and creates
    nothing; the fast-forward resolver does not throw for types that have a
    catalogue entry, and throws 'Missing combat stats' when it is to build a
    unit of a type that has none. *)
Theorem fallible_operations :
  (forall dm x y t type,
     DeployManager.pointInZone x y (DeployManager.getZoneForTeam t) = false ->
     DeployManager.spawnPack dm x y t type = Return dm)
  /\ (forall dm x y t type,
        BattleConfig.MAX_UNITS
        < DeployManager.getTeamUnitCount dm t
          + (if isHeroType type || isWarMachine type
             then 1 else BattleConfig.PACK_SIZE) ->
        DeployManager.spawnPack dm x y t type = Return dm)
  /\ (forall dm warMachine armingPack,
        Spec.armingRefused armingPack ->
        DeployManager.armWarMachine dm warMachine armingPack = dm)
  /\ (forall s x y t type armed,
        UnitRepository.unitCombatStats type = None ->
        BattleScene.createUnit s x y t type armed
        = (s, [BattleScene.ErrorNoCombatStats type]))
  /\ (forall fuel cfg,
        UnitRepository.unitCombatStats (attackerType cfg) <> None ->
        UnitRepository.unitCombatStats (defenderType cfg) <> None ->
        throws (simulateBattle fuel cfg) = false)
  /\ (forall fuel cfg,
        UnitRepository.unitCombatStats (attackerType cfg) = None ->
        0 < effectiveAttackerCount cfg ->
        simulateBattle fuel cfg
        = Throw (MissingCombatStats (attackerType cfg)))
  /\ (forall fuel cfg,
        UnitRepository.unitCombatStats (attackerType cfg) <> None ->
        UnitRepository.unitCombatStats (defenderType cfg) = None ->
        0 < effectiveDefenderCount cfg ->
        simulateBattle fuel cfg
        = Throw (MissingCombatStats (defenderType cfg))).
Proof.
  split; [exact spawnPack_outside|].
  split; [exact spawnPack_capacity|].
  split; [exact armWarMachine_refused|].
  split; [exact createUnit_missing|].
  split; [exact simulateBattle_no_throw|].
  split; [exact simulateBattle_throws | exact simulateBattle_throws_defender].
Qed.

Lemma fallible_operations_witness :
  UnitRepository.unitCombatStats (attackerType Spec.skirmish) <> None
  /\ UnitRepository.unitCombatStats (defenderType Spec.skirmish) <> None
  /\ throws (simulateBattle 1201 Spec.skirmish) = false.
Proof.
  assert (Ha : UnitRepository.unitCombatStats (attackerType Spec.skirmish)
               <> None) by discriminate.
  assert (Hd : UnitRepository.unitCombatStats (defenderType Spec.skirmish)
               <> None) by discriminate.
  split; [exact Ha|]. split; [exact Hd|].
  exact (proj1 (proj2 (proj2 (proj2 (proj2 fallible_operations))))
           1201%nat Spec.skirmish Ha Hd).
Defined.

(** C5 fails for the resolver: asked for a war machine, a type without a
    catalogue entry, it throws. *)
Lemma simulateBattle_throws_for_war_machine :
  simulateBattle 1201
    (Spec.duel (WarMachine BALLISTA) (Regular DWARF) 50 60000)
  = Throw (MissingCombatStats (WarMachine BALLISTA))
  /\ throws
       (simulateBattle 1201
          (Spec.duel (WarMachine BALLISTA) (Regular DWARF) 50 60000))
     = true.
Proof. split; reflexivity. Qed.

(** The exception goes through auto-resolve, which accepts a war machine
    that is not armed. *)
Example autoResolve_throws_for_war_machine :
  BattleScene.autoResolveBattle 2000
    (Spec.exampleScene [Spec.ballista; Spec.dwarves])
  = Throw (MissingCombatStats (WarMachine BALLISTA)).
Proof. reflexivity. Qed.

(** Placing a pack of a war machine inside the zone reaches [createPack],
    which hands the missing catalogue entry to [deriveBattleStats]. *)
Example spawnPack_war_machine :
  DeployManager.spawnPack DeployManager.new 100 100 attacker
    (WarMachine BALLISTA)
  = Throw TypeError.
Proof. reflexivity. Qed.

End ErrorFacts.

(** ** The duration of a duel *)

Section DuelStep.
Import SimulateBattle Duel.

Lemma alive_le (u : SimUnit) : JS.le (hp u) 0 = negb (alive u).
Proof. unfold alive, JS.gt, JS.le. rewrite negb_involutive. reflexivity. Qed.

Lemma stepUnit_dead (u : SimUnit) (es : list SimUnit) (t dt : Q) :
  alive u = false -> stepUnit u es t dt = (u, es).
Proof. intro H. unfold stepUnit. rewrite alive_le, H. reflexivity. Qed.

Lemma findNearestEnemy_single (u e : SimUnit) :
  alive e = true -> findNearestEnemy u [e] = Some 0%nat.
Proof.
  intro H. unfold findNearestEnemy. cbn [findNearestEnemyFrom].
  rewrite alive_le, H. reflexivity.
Qed.

Lemma same_place (u e : SimUnit) :
  x e = x u -> 0 <= range u ->
  JS.le (JS.Math_abs (JS.sub (x e) (x u))) (range u) = true.
Proof.
  intros E R. apply le_true. rewrite E. unfold JS.Math_abs.
  rewrite sub_correct.
  assert (Z : x u - x u == 0) by ring. rewrite Z. exact R.
Qed.

Lemma stepUnit_strike (u e : SimUnit) (t dt : Q) :
  alive u = true -> alive e = true -> x e = x u -> 0 <= range u ->
  stepUnit u [e] t dt = (fst (strike u e t), [snd (strike u e t)]).
Proof.
  intros Hu He Hx Hr. unfold stepUnit, strike.
  rewrite alive_le, Hu. cbn [negb].
  rewrite (findNearestEnemy_single u e He). cbn [nth_error].
  rewrite (same_place u e Hx Hr).
  destruct (JS.ge (JS.sub t (lastAttackAt u)) (cooldownMs u)); reflexivity.
Qed.

(** A strike changes the hit points of the enemy and the time of the last
    attack of the unit, and nothing else. *)
Lemma strike_fields (u e : SimUnit) (t : Q) :
  let u' := fst (strike u e t) in
  let e' := snd (strike u e t) in
  id u' = id u /\ team u' = team u /\ x u' = x u /\ range u' = range u
  /\ hp u' = hp u
  /\ id e' = id e /\ team e' = team e /\ x e' = x e /\ range e' = range e.
Proof.
  unfold strike.
  destruct (JS.ge (JS.sub t (lastAttackAt u)) (cooldownMs u));
    cbn; repeat split; reflexivity.
Qed.

Lemma duel_steps (u e : SimUnit) (t ts : Q) :
  id u = 1%Z -> id e = 2%Z ->
  x e = x u -> 0 <= range u -> 0 <= range e ->
  alive u = true -> alive e = true ->
  fold_left (stepRef t ts) [(attacker, 1%Z); (defender, 2%Z)]
    (mkLoopState [u] [e] t)
  = let '(u1, e1) := strike u e t in
    let '(e2, u2) := if alive e1 then strike e1 u1 t else (e1, u1) in
    mkLoopState [u2] [e2] t.
Proof.
  intros Iu Ie Hx Ru Re Au Ae.
  destruct (strike_fields u e t) as (Iu1 & Tu1 & Xu1 & Ru1 & Hu1 & Ie1 & Te1
                                      & Xe1 & Re1).
  cbn [fold_left].
  unfold stepRef at 2. cbn [fst snd attackers defenders time indexOfId].
  rewrite Iu. cbn [Z.eqb Pos.eqb nth_error].
  rewrite (stepUnit_strike u e t ts Au Ae Hx Ru).
  destruct (strike u e t) as [u1 e1]. cbn [fst snd] in *. cbn [setNth].
  unfold stepRef. cbn [fst snd attackers defenders time indexOfId].
  rewrite Ie1, Ie. cbn [Z.eqb Pos.eqb nth_error].
  destruct (alive e1) eqn:Ae1.
  - assert (Au1 : alive u1 = true) by (unfold alive in *; rewrite Hu1; exact Au).
    rewrite (stepUnit_strike e1 u1 t ts Ae1 Au1);
      [| congruence | rewrite Re1; exact Re].
    destruct (strike e1 u1 t) as [e2 u2]. reflexivity.
  - rewrite (stepUnit_dead e1 [u1] t ts Ae1). reflexivity.
Qed.

Lemma duel_loopBody (u e : SimUnit) (t ts : Q) :
  id u = 1%Z -> team u = attacker -> id e = 2%Z -> team e = defender ->
  x e = x u -> 0 <= range u -> 0 <= range e ->
  alive u = true -> alive e = true ->
  loopBody ts (mkLoopState [u] [e] t) = duelTick u e t ts.
Proof.
  intros Iu Tu Ie Te Hx Ru Re Au Ae.
  unfold loopBody, duelTick.
  cbn [attackers defenders time app map]. unfold ref. rewrite Iu, Tu, Ie, Te.
  change (sortById [(attacker, 1%Z); (defender, 2%Z)])
    with [(attacker, 1%Z); (defender, 2%Z)].
  rewrite (duel_steps u e t ts Iu Ie Hx Ru Re Au Ae).
  destruct (strike u e t) as [u1 e1].
  destruct (if alive e1 then strike e1 u1 t else (e1, u1)) as [e2 u2].
  reflexivity.
Qed.

End DuelStep.

Section DuelArithmetic.
Import SimulateBattle Duel.

Lemma ceiling_le (q : Q) (z : Z) : q <= inject_Z z <-> (Qceiling q <= z)%Z.
Proof.
  split; intro H.
  - pose proof (Qceiling_resp_le _ _ H) as L. rewrite Qceiling_Z in L. exact L.
  - eapply Qle_trans; [apply Qle_ceiling|]. rewrite <- Zle_Qle. exact H.
Qed.

Lemma lt_ceiling (q : Q) (z : Z) : inject_Z z < q <-> (z < Qceiling q)%Z.
Proof.
  split; intro H.
  - apply Z.nle_gt. intro L. apply ceiling_le in L.
    apply (Qlt_not_le _ _ H L).
  - apply Qnot_le_lt. intro L. apply ceiling_le in L. lia.
Qed.

Lemma attack_due (cd ts : Q) (k l : Z) :
  0 < ts ->
  JS.ge (JS.sub (Qred (inject_Z k * ts)) (Qred (inject_Z l * ts))) cd
  = (Qceiling (cd / ts) <=? k - l)%Z.
Proof.
  intro Hts. apply eq_iff_eq_true.
  rewrite ge_true, Z.leb_le, <- ceiling_le, sub_correct, !Qred_correct.
  unfold Z.sub. rewrite inject_Z_plus, inject_Z_opp.
  split; intro H.
  - apply Qle_shift_div_r; [exact Hts|]. lra.
  - assert (E : cd == cd / ts * ts) by (field; lra).
    rewrite E.
    assert (M : cd / ts * ts <= (inject_Z k + - inject_Z l) * ts).
    { apply Qmult_le_compat_r; [exact H | lra]. }
    lra.
Qed.

Lemma hits_short (h0 dmg : Q) (h : Z) :
  0 < dmg -> (0 < h0 - inject_Z h * dmg <-> inject_Z h < h0 / dmg).
Proof.
  intro Hd. split; intro H.
  - apply Qlt_shift_div_l; [exact Hd|]. lra.
  - assert (E : h0 == h0 / dmg * dmg) by (field; lra).
    assert (M : inject_Z h * dmg < h0 / dmg * dmg).
    { apply Qmult_lt_compat_r; assumption. }
    lra.
Qed.

Lemma alive_unitAt (u : SimUnit) (h : Z) (dmg : Q) (l : Z) (ts : Q) :
  0 < dmg ->
  alive (unitAt u h dmg l ts) = (h <? Qceiling (hp u / dmg))%Z.
Proof.
  intro Hd. apply eq_iff_eq_true.
  unfold alive, unitAt. cbn [hp set_lastAttackAt set_hp].
  rewrite gt_true, Z.ltb_lt, <- lt_ceiling, Qred_correct.
  apply hits_short. exact Hd.
Qed.

Lemma hit_again (h0 : Q) (h : Z) (dmg : Q) :
  JS.sub (Qred (h0 - inject_Z h * dmg)) dmg
  = Qred (h0 - inject_Z (h + 1) * dmg).
Proof.
  unfold JS.sub. apply Qred_complete.
  rewrite Qred_correct, inject_Z_plus. change (inject_Z 1) with 1. ring.
Qed.

Lemma strike_unitAt (u e : SimUnit) (hu he lu le k : Z) (ts : Q) :
  0 < ts ->
  strike (unitAt u hu (damage e u) lu ts) (unitAt e he (damage u e) le ts)
    (Qred (inject_Z k * ts))
  = if (period u ts <=? k - lu)%Z
    then (unitAt u hu (damage e u) k ts,
          unitAt e (he + 1) (damage u e) le ts)
    else (unitAt u hu (damage e u) lu ts, unitAt e he (damage u e) le ts).
Proof.
  intro Hts. unfold strike.
  assert (C : JS.ge (JS.sub (Qred (inject_Z k * ts))
                      (lastAttackAt (unitAt u hu (damage e u) lu ts)))
                (cooldownMs (unitAt u hu (damage e u) lu ts))
              = (period u ts <=? k - lu)%Z).
  { unfold unitAt. cbn [lastAttackAt cooldownMs set_lastAttackAt set_hp].
    apply attack_due. exact Hts. }
  rewrite C. destruct (period u ts <=? k - lu)%Z; [|reflexivity].
  unfold applyAttack, unitAt, set_lastAttackAt, set_hp.
  cbn [id team type attack defense hp maxHp speed range rangeDamage isRanged
       cooldownMs lastAttackAt x].
  unfold asAttackProfile, asDefenseProfile.
  cbn [id team type attack defense hp maxHp speed range rangeDamage isRanged
       cooldownMs lastAttackAt x].
  f_equal. f_equal. apply hit_again.
Qed.

End DuelArithmetic.

Section DuelRun.
Import SimulateBattle Duel.

Variables (a d : SimUnit) (ts : Q).
Hypothesis Hready : ready a d.
Hypothesis Hts : 0 < ts.

Lemma damage_positive (u e : SimUnit) : 0 < damage u e.
Proof.
  unfold damage. rewrite calculateDamage_eq.
  change 0 with (inject_Z 0). rewrite <- Zlt_Qlt. lia.
Qed.

Lemma period_positive (u : SimUnit) : 0 < cooldownMs u -> (0 < period u ts)%Z.
Proof.
  intro H. unfold period. apply lt_ceiling. change (inject_Z 0) with 0.
  apply Qlt_shift_div_l; [exact Hts|]. lra.
Qed.

Lemma requiredHits_positive (u e : SimUnit) :
  0 < hp e -> (0 < requiredHits u e)%Z.
Proof.
  intro H. unfold requiredHits. apply lt_ceiling. change (inject_Z 0) with 0.
  apply Qlt_shift_div_l; [apply damage_positive|]. lra.
Qed.

Lemma next_time (k : Z) :
  JS.add (Qred (inject_Z k * ts)) ts = Qred (inject_Z (k + 1) * ts).
Proof.
  unfold JS.add. apply Qred_complete.
  rewrite Qred_correct, inject_Z_plus. change (inject_Z 1) with 1. ring.
Qed.

(** One iteration from a state in which both units are alive. *)
Lemma loopBody_stateAt (p : Progress) :
  (hitsA p < requiredHits a d)%Z -> (hitsD p < requiredHits d a)%Z ->
  loopBody ts (stateAt a d ts p)
  = let attackA := (period a ts <=? tick p - lastA p)%Z in
    let hitsA' := (if attackA then hitsA p + 1 else hitsA p)%Z in
    let lastA' := if attackA then tick p else lastA p in
    let aliveD := (hitsA' <? requiredHits a d)%Z in
    let attackD := aliveD && (period d ts <=? tick p - lastD p)%Z in
    let hitsD' := (if attackD then hitsD p + 1 else hitsD p)%Z in
    let lastD' := if attackD then tick p else lastD p in
    let aliveA := (hitsD' <? requiredHits d a)%Z in
    mkLoopState
      (if aliveA then [unitAt a hitsD' (damage d a) lastA' ts] else [])
      (if aliveD then [unitAt d hitsA' (damage a d) lastD' ts] else [])
      (Qred (inject_Z (tick p + 1) * ts)).
Proof.
  intros HA HD.
  destruct Hready as (Ia & Ta & Id & Td & Hx & Ra & Rd & _).
  unfold stateAt.
  rewrite duel_loopBody; try assumption.
  2: { rewrite alive_unitAt by apply damage_positive.
       apply Z.ltb_lt. exact HD. }
  2: { rewrite alive_unitAt by apply damage_positive.
       apply Z.ltb_lt. exact HA. }
  unfold duelTick. rewrite (strike_unitAt a d _ _ _ _ _ ts Hts).
  cbv zeta.
  destruct (period a ts <=? tick p - lastA p)%Z.
  - rewrite alive_unitAt by apply damage_positive. fold (requiredHits a d).
    destruct (hitsA p + 1 <? requiredHits a d)%Z eqn:AD.
    + rewrite (strike_unitAt d a _ _ _ _ _ ts Hts). cbn [andb].
      destruct (period d ts <=? tick p - lastD p)%Z;
        cbn [filter]; rewrite !alive_unitAt by apply damage_positive;
        fold (requiredHits a d); fold (requiredHits d a);
        rewrite AD, next_time; reflexivity.
    + cbn [andb filter]. rewrite !alive_unitAt by apply damage_positive.
      fold (requiredHits a d); fold (requiredHits d a).
      rewrite AD, next_time. reflexivity.
  - rewrite alive_unitAt by apply damage_positive. fold (requiredHits a d).
    destruct (hitsA p <? requiredHits a d)%Z eqn:AD.
    + rewrite (strike_unitAt d a _ _ _ _ _ ts Hts). cbn [andb].
      destruct (period d ts <=? tick p - lastD p)%Z;
        cbn [filter]; rewrite !alive_unitAt by apply damage_positive;
        fold (requiredHits a d); fold (requiredHits d a);
        rewrite AD, next_time; reflexivity.
    + cbn [andb filter]. rewrite !alive_unitAt by apply damage_positive.
      fold (requiredHits a d); fold (requiredHits d a).
      rewrite AD, next_time. reflexivity.
Qed.


Local Notation "'nA'" := (period a ts).
Local Notation "'nD'" := (period d ts).
Local Notation "'HA'" := (requiredHits a d).
Local Notation "'HD'" := (requiredHits d a).

Lemma duel_numbers : (0 < nA /\ 0 < nD /\ 0 < HA /\ 0 < HD)%Z.
Proof.
  destruct Hready as (_ & _ & _ & _ & _ & _ & _ & Pa & Pd & _ & _ & _ & _
                      & Ca & Cd).
  repeat split.
  - apply period_positive; exact Ca.
  - apply period_positive; exact Cd.
  - apply requiredHits_positive; exact Pd.
  - apply requiredHits_positive; exact Pa.
Qed.

Lemma survive (p : Progress) :
  onSchedule a d ts p ->
  (tick p < Z.min (killTick a d ts) (killTick d a ts))%Z ->
  loopBody ts (stateAt a d ts p) = stateAt a d ts (advance a d ts p)
  /\ onSchedule a d ts (advance a d ts p).
Proof.
  pose proof duel_numbers as (PnA & PnD & PHA & PHD).
  unfold onSchedule, killTick.
  intros (T0 & LA & TA & LD & TD & BA & BD) HK.
  rewrite loopBody_stateAt by lia.
  unfold advance, stateAt. cbv zeta.
  cbn [tick hitsA lastA hitsD lastD].
  destruct (nA <=? tick p - lastA p)%Z eqn:EA;
    [apply Z.leb_le in EA | apply Z.leb_gt in EA];
    (destruct (nD <=? tick p - lastD p)%Z eqn:ED;
     [apply Z.leb_le in ED | apply Z.leb_gt in ED]).
  - assert (A1 : (hitsA p + 1 <? HA)%Z = true) by (apply Z.ltb_lt; nia).
    assert (D1 : (hitsD p + 1 <? HD)%Z = true) by (apply Z.ltb_lt; nia).
    rewrite A1. cbn [andb]. rewrite D1.
    split; [reflexivity|]. apply Z.ltb_lt in A1, D1. repeat split; nia.
  - assert (A1 : (hitsA p + 1 <? HA)%Z = true) by (apply Z.ltb_lt; nia).
    assert (D1 : (hitsD p <? HD)%Z = true) by (apply Z.ltb_lt; lia).
    rewrite A1. cbn [andb]. rewrite D1.
    split; [reflexivity|]. apply Z.ltb_lt in A1, D1. repeat split; nia.
  - assert (A1 : (hitsA p <? HA)%Z = true) by (apply Z.ltb_lt; lia).
    assert (D1 : (hitsD p + 1 <? HD)%Z = true) by (apply Z.ltb_lt; nia).
    rewrite A1. cbn [andb]. rewrite D1.
    split; [reflexivity|]. apply Z.ltb_lt in A1, D1. repeat split; nia.
  - assert (A1 : (hitsA p <? HA)%Z = true) by (apply Z.ltb_lt; lia).
    assert (D1 : (hitsD p <? HD)%Z = true) by (apply Z.ltb_lt; lia).
    rewrite A1. cbn [andb]. rewrite D1.
    split; [reflexivity|]. repeat split; lia.
Qed.

Lemma kill_by_attacker (p : Progress) :
  onSchedule a d ts p ->
  tick p = killTick a d ts ->
  (killTick a d ts <= killTick d a ts)%Z ->
  loopBody ts (stateAt a d ts p)
  = mkLoopState [unitAt a (hitsD p) (damage d a) (tick p) ts] []
      (Qred (inject_Z (tick p + 1) * ts)).
Proof.
  pose proof duel_numbers as (PnA & PnD & PHA & PHD).
  unfold onSchedule, killTick.
  intros (T0 & LA & TA & LD & TD & BA & BD) HT HK.
  rewrite loopBody_stateAt by lia.
  cbv zeta.
  assert (EH : (HA = hitsA p + 1)%Z) by nia.
  assert (EA : (nA <=? tick p - lastA p)%Z = true) by (apply Z.leb_le; nia).
  rewrite EA.
  assert (A1 : (hitsA p + 1 <? HA)%Z = false) by (apply Z.ltb_ge; lia).
  rewrite A1. cbn [andb].
  assert (D1 : (hitsD p <? HD)%Z = true) by (apply Z.ltb_lt; lia).
  rewrite D1. reflexivity.
Qed.

Lemma kill_by_defender (p : Progress) :
  onSchedule a d ts p ->
  tick p = killTick d a ts ->
  (killTick d a ts < killTick a d ts)%Z ->
  exists hits,
    loopBody ts (stateAt a d ts p)
    = mkLoopState [] [unitAt d hits (damage a d) (tick p) ts]
        (Qred (inject_Z (tick p + 1) * ts)).
Proof.
  pose proof duel_numbers as (PnA & PnD & PHA & PHD).
  unfold onSchedule, killTick.
  intros (T0 & LA & TA & LD & TD & BA & BD) HT HK.
  rewrite loopBody_stateAt by lia.
  cbv zeta.
  assert (EH : (HD = hitsD p + 1)%Z) by nia.
  assert (ED : (nD <=? tick p - lastD p)%Z = true) by (apply Z.leb_le; nia).
  rewrite ED.
  assert (D1 : (hitsD p + 1 <? HD)%Z = false) by (apply Z.ltb_ge; lia).
  destruct (nA <=? tick p - lastA p)%Z eqn:EA;
    [apply Z.leb_le in EA | apply Z.leb_gt in EA].
  - assert (A1 : (hitsA p + 1 <? HA)%Z = true) by (apply Z.ltb_lt; nia).
    rewrite A1. cbn [andb]. rewrite D1. eexists. reflexivity.
  - assert (A1 : (hitsA p <? HA)%Z = true) by (apply Z.ltb_lt; lia).
    rewrite A1. cbn [andb]. rewrite D1. eexists. reflexivity.
Qed.


Variable max : Q.

Local Notation "'K'" := (Z.min (killTick a d ts) (killTick d a ts)).

Lemma loopCondition_stateAt (p : Progress) :
  (tick p <= K)%Z -> inject_Z K * ts <= max ->
  loopCondition max (stateAt a d ts p) = true.
Proof.
  intros HK Hmax. unfold loopCondition, stateAt.
  cbn [time attackers defenders length Nat.ltb Nat.leb andb].
  rewrite !andb_true_r. apply le_true. rewrite Qred_correct.
  eapply Qle_trans; [|exact Hmax].
  apply Qmult_le_compat_r; [rewrite <- Zle_Qle; exact HK | lra].
Qed.

Lemma while_stops (fuel : nat) (st : LoopState) (n : nat) :
  attackers st = [] \/ defenders st = [] ->
  while fuel max ts st n = Return (st, n).
Proof.
  intro H.
  assert (C : loopCondition max st = false).
  { unfold loopCondition. destruct H as [-> | ->]; cbn [length Nat.ltb Nat.leb].
    - rewrite andb_false_r. reflexivity.
    - apply andb_false_r. }
  destruct fuel; cbn [while]; rewrite C; reflexivity.
Qed.

(** From a state on schedule the loop runs up to the iteration of the first
    kill and stops after it. *)
Lemma run_to_kill (j : nat) :
  forall (p : Progress) (n fuel : nat),
    onSchedule a d ts p ->
    (tick p + Z.of_nat j = K)%Z ->
    inject_Z K * ts <= max ->
    (j < fuel)%nat ->
    exists st',
      while fuel max ts (stateAt a d ts p) n = Return (st', (n + j + 1)%nat)
      /\ time st' = Qred (inject_Z (K + 1) * ts)
      /\ (length (attackers st'), length (defenders st'))
         = if (killTick a d ts <=? killTick d a ts)%Z
           then (1%nat, 0%nat) else (0%nat, 1%nat).
Proof.
  induction j as [|j IH]; intros p n fuel Hp Hj Hmax Hfuel.
  - destruct fuel as [|fuel]; [lia|]. cbn [while].
    rewrite loopCondition_stateAt by (assumption || lia).
    replace (n + 0 + 1)%nat with (S n) by lia.
    assert (ET : tick p = K) by lia.
    destruct (killTick a d ts <=? killTick d a ts)%Z eqn:C;
      [apply Z.leb_le in C | apply Z.leb_gt in C].
    + rewrite (kill_by_attacker p Hp) by lia.
      eexists. split; [apply while_stops; right; reflexivity|].
      cbn [time attackers defenders length]. rewrite ET.
      split; reflexivity.
    + destruct (kill_by_defender p Hp) as [hits ->]; [lia | lia |].
      eexists. split; [apply while_stops; left; reflexivity|].
      cbn [time attackers defenders length]. rewrite ET.
      split; reflexivity.
  - destruct fuel as [|fuel]; [lia|]. cbn [while].
    rewrite loopCondition_stateAt by (assumption || lia).
    destruct (survive p Hp) as [-> Hp']; [lia|].
    destruct (IH (advance a d ts p) (S n) fuel Hp') as (st' & Hw & Ht & Hl);
      [cbn [advance tick]; lia | assumption | lia |].
    exists st'. split; [|split; assumption].
    rewrite Hw. do 2 f_equal. lia.
Qed.

Lemma stateAt_start :
  stateAt a d ts (mkProgress 0 0 0 0 0) = mkLoopState [a] [d] 0.
Proof.
  destruct Hready as (_ & _ & _ & _ & _ & _ & _ & _ & _ & Na & Nd & La & Ld
                      & _).
  assert (Z0 : Qred (inject_Z 0 * ts) = 0).
  { transitivity (Qred 0); [apply Qred_complete; ring | reflexivity]. }
  assert (H0 : forall (h dmg : Q), Qred h = h ->
                 Qred (h - inject_Z 0 * dmg) = h).
  { intros h dmg E. transitivity (Qred h); [|exact E].
    apply Qred_complete. ring. }
  unfold stateAt, unitAt. cbn [tick hitsA lastA hitsD lastD].
  rewrite Z0, (H0 _ _ Na), (H0 _ _ Nd).
  destruct a, d. cbn in La, Ld. subst. reflexivity.
Qed.

Lemma onSchedule_start : onSchedule a d ts (mkProgress 0 0 0 0 0).
Proof.
  pose proof duel_numbers as (PnA & PnD & PHA & PHD).
  unfold onSchedule. cbn [tick hitsA lastA hitsD lastD]. lia.
Qed.

(** The duel of two ready units: the loop stops after the iteration of the
    first kill. *)
Lemma duel_outcome (fuel : nat) :
  inject_Z K * ts <= max ->
  (Z.to_nat K < fuel)%nat ->
  exists st',
    while fuel max ts (mkLoopState [a] [d] 0) 0
    = Return (st', S (Z.to_nat K))
    /\ time st' = Qred (inject_Z (K + 1) * ts)
    /\ (length (attackers st'), length (defenders st'))
       = if (killTick a d ts <=? killTick d a ts)%Z
         then (1%nat, 0%nat) else (0%nat, 1%nat).
Proof.
  intros Hmax Hfuel.
  pose proof duel_numbers as (PnA & PnD & PHA & PHD).
  assert (K0 : (0 <= K)%Z) by (unfold killTick; nia).
  rewrite <- stateAt_start.
  destruct (run_to_kill (Z.to_nat K) (mkProgress 0 0 0 0 0) 0 fuel
              onSchedule_start) as (st' & Hw & Ht & Hl);
    [cbn [tick]; lia | assumption | assumption |].
  exists st'. split; [|split; assumption].
  rewrite Hw. do 2 f_equal. lia.
Qed.

End DuelRun.

Section CatalogueDuel.
Import SimulateBattle.

Lemma catalogue_entry (t : UnitType) (s : UnitRepository.CombatStats) :
  UnitRepository.unitCombatStats t = Some s ->
  0 < UnitRepository.health s
  /\ Qred (UnitRepository.health s) = UnitRepository.health s
  /\ 0 <= CombatRules.range (CombatRules.deriveBattleStats s).
Proof.
  destruct t as [[]|[]|[]]; cbn [UnitRepository.unitCombatStats];
    intro E; inversion E; subst;
    (split; [reflexivity | split; [reflexivity | discriminate]]).
Qed.

Lemma cooldown_positive (s : UnitRepository.CombatStats) :
  0 < Spec.cooldownOf s.
Proof.
  unfold Spec.cooldownOf, CombatRules.deriveBattleStats.
  cbn [CombatRules.cooldownMs].
  destruct (JS.truthy (UnitRepository.range s)); reflexivity.
Qed.

Lemma built_ready (ta td : UnitType) (sa sd : UnitRepository.CombatStats) :
  UnitRepository.unitCombatStats ta = Some sa ->
  UnitRepository.unitCombatStats td = Some sd ->
  Duel.ready (Spec.built ta attacker 1 0 sa) (Spec.built td defender 2 0 sd).
Proof.
  intros Ea Ed.
  destruct (catalogue_entry ta sa Ea) as (Ha & Na & Ra).
  destruct (catalogue_entry td sd Ed) as (Hd & Nd & Rd).
  unfold Duel.ready, Spec.built.
  cbn [id team x range hp lastAttackAt cooldownMs].
  repeat (split; [first [reflexivity | assumption | apply cooldown_positive]|]).
  apply cooldown_positive.
Qed.

Lemma createPack_one (t : UnitType) (team : Team) (x0 : Q) (startId : Z)
    (s : UnitRepository.CombatStats) :
  UnitRepository.unitCombatStats t = Some s ->
  createPack t team 1 x0 startId = Return [Spec.built t team startId x0 s].
Proof.
  intro E. unfold createPack.
  change (iterationsBelow 1) with 1%nat. cbn [createPackFrom].
  unfold buildUnit. rewrite E. cbn [bind]. rewrite Z.add_0_r. reflexivity.
Qed.

(** A cooldown that is a whole number of time steps is the time from one
    attack to the next. *)
Lemma stepsPerAttack_exact (s : UnitRepository.CombatStats) (ts : Q) (m : Z) :
  0 < ts -> Spec.cooldownOf s == inject_Z m * ts ->
  inject_Z (Spec.stepsPerAttack s ts) * ts == Spec.cooldownOf s.
Proof.
  intros Hts E. unfold Spec.stepsPerAttack.
  assert (Q : Spec.cooldownOf s / ts == inject_Z m).
  { rewrite E. field. lra. }
  rewrite (Qceiling_comp _ _ Q), Qceiling_Z, E. reflexivity.
Qed.




End CatalogueDuel.

(** ** More on the rules *)

Section RulesFacts.
Import CombatRules.

(** X1: the damage grows with the attack power and falls with the defense:
    an attacker with no less attack power deals no less damage to a target
    with no more defense. *)
Theorem calculateDamage_monotone (a a' : AttackProfile)
    (t t' : DefenseProfile) :
  Spec.attackPower a <= Spec.attackPower a' ->
  defense t' <= defense t ->
  calculateDamage a t <= calculateDamage a' t'.
Proof.
  intros Ha Hd. rewrite !calculateDamage_eq. rewrite <- Zle_Qle.
  apply Z.max_le_compat_l. apply Qfloor_resp_le.
  rewrite !sub_correct, !mul_correct.
  assert (M : defense t' * (45 # 100) <= defense t * (45 # 100)).
  { apply Qmult_le_compat_r; [exact Hd | discriminate]. }
  lra.
Qed.

Lemma calculateDamage_monotone_witness :
  Spec.attackPower (mkAttackProfile 8 None)
  <= Spec.attackPower (mkAttackProfile 8 (Some 12))
  /\ defense (mkDefenseProfile 3) <= defense (mkDefenseProfile 6)
  /\ calculateDamage (mkAttackProfile 8 None) (mkDefenseProfile 6)
     <= calculateDamage (mkAttackProfile 8 (Some 12)) (mkDefenseProfile 3).
Proof.
  assert (Ha : Spec.attackPower (mkAttackProfile 8 None)
               <= Spec.attackPower (mkAttackProfile 8 (Some 12)))
    by discriminate.
  assert (Hd : defense (mkDefenseProfile 3) <= defense (mkDefenseProfile 6))
    by discriminate.
  split; [exact Ha|]. split; [exact Hd|].
  apply (calculateDamage_monotone _ _ _ _ Ha Hd).
Defined.

(** X2: a range of 0 in a catalogue entry counts as no range: the derived
    stats are those of the entry without a range, melee range and melee
    cooldown. *)
Theorem zero_range_is_melee (a d h s r : Q) (rd : option Q) :
  r == 0 ->
  deriveBattleStats (UnitRepository.mkCombatStats a d h s (Some r) rd)
  = deriveBattleStats (UnitRepository.mkCombatStats a d h s None rd)
  /\ range (deriveBattleStats (UnitRepository.mkCombatStats a d h s (Some r) rd))
     = DEFAULT_MELEE_RANGE
  /\ cooldownMs
       (deriveBattleStats (UnitRepository.mkCombatStats a d h s (Some r) rd))
     = MELEE_COOLDOWN_MS.
Proof.
  intro E.
  assert (D : deriveBattleStats
                (UnitRepository.mkCombatStats a d h s (Some r) rd)
              = deriveBattleStats
                  (UnitRepository.mkCombatStats a d h s None rd)).
  { unfold deriveBattleStats, rangeToPixels.
    cbn [UnitRepository.range UnitRepository.speed].
    assert (T : JS.truthy (Some r) = false).
    { simpl. apply negb_false_iff. apply Qeq_bool_iff. exact E. }
    assert (G : JS.ge r RANGED_THRESHOLD = false).
    { apply ge_false. unfold RANGED_THRESHOLD. lra. }
    rewrite T, G. reflexivity. }
  rewrite D. repeat split.
Qed.

Lemma zero_range_is_melee_witness :
  0 == 0
  /\ deriveBattleStats (UnitRepository.mkCombatStats 8 6 25 2 (Some 0) None)
     = deriveBattleStats (UnitRepository.mkCombatStats 8 6 25 2 None None).
Proof.
  split; [reflexivity|].
  apply (zero_range_is_melee 8 6 25 2 0 None). reflexivity.
Defined.

(** X3: whatever the entry, the derived stats call a unit ranged exactly when
    its engagement range is 50 pixels or more, and a ranged unit has the
    ranged cooldown. *)
Theorem ranged_means_long_range (stats : UnitRepository.CombatStats) :
  (isRanged (deriveBattleStats stats) = true
   <-> 50 <= range (deriveBattleStats stats))
  /\ (isRanged (deriveBattleStats stats) = true ->
      cooldownMs (deriveBattleStats stats) = RANGED_COOLDOWN_MS).
Proof.
  unfold deriveBattleStats, rangeToPixels. cbn [isRanged cooldownMs range].
  destruct (UnitRepository.range stats) as [r|].
  - destruct (JS.truthy (Some r)) eqn:T.
    + split; [|reflexivity]. rewrite ge_true, mul_correct.
      unfold RANGED_THRESHOLD, RANGE_SCALE. split; intro H; lra.
    + assert (E : r == 0).
      { simpl in T. apply negb_false_iff in T. apply Qeq_bool_iff in T.
        exact T. }
      assert (G : JS.ge r RANGED_THRESHOLD = false).
      { apply ge_false. unfold RANGED_THRESHOLD. lra. }
      rewrite G. split; [|discriminate].
      unfold DEFAULT_MELEE_RANGE. split; [discriminate|].
      intro H. exfalso. lra.
  - split; [|discriminate]. unfold DEFAULT_MELEE_RANGE.
    split; [discriminate|]. intro H. exfalso. lra.
Qed.

End RulesFacts.

Section ArmedFacts.
Import UnitRepository WarMachineArming.

Lemma floor_ge (x : Q) (n : Z) : inject_Z n <= x -> (n <= Qfloor x)%Z.
Proof.
  intro H. pose proof (Qfloor_resp_le _ _ H) as L.
  rewrite Qfloor_Z in L. exact L.
Qed.

Lemma Math_round_ge (x : Q) (n : Z) :
  inject_Z n <= x + (1 # 2) -> inject_Z n <= JS.Math_round x.
Proof.
  intro H. unfold JS.Math_round. rewrite <- Zle_Qle.
  apply floor_ge. exact H.
Qed.

Lemma armed_numbers (stats : CombatStats) :
  1 <= attack stats ->
  2 <= attack (calculateArmedWarMachineStats stats)
  /\ exists rd,
       rangeDamage (calculateArmedWarMachineStats stats) = Some rd
       /\ attack (calculateArmedWarMachineStats stats) <= rd.
Proof.
  intros Ha. unfold calculateArmedWarMachineStats.
  cbn [attack rangeDamage].
  assert (A2 : 2 <= JS.Math_round (JS.mul (attack stats) 2)).
  { apply (Math_round_ge _ 2). rewrite mul_correct.
    change (inject_Z 2) with 2. lra. }
  split; [exact A2|].
  eexists. split; [reflexivity|].
  revert A2. unfold JS.Math_round at 1 2 4.
  generalize (Qfloor (JS.mul (attack stats) 2 + (1 # 2))). intros n A2.
  apply Math_round_ge. rewrite mul_correct. lra.
Qed.

(** X4: arming makes a war machine no weaker than the numbers promise: for
    an entry with attack, health and speed of 1 or more, the armed attack
    is 2 or more, the armed health 3 or more, the armed speed 1 or more,
    and the armed ranged damage is no less than the armed attack. *)
Theorem armed_strength (stats : CombatStats) :
  1 <= attack stats -> 1 <= health stats -> 1 <= speed stats ->
  2 <= attack (calculateArmedWarMachineStats stats)
  /\ 3 <= health (calculateArmedWarMachineStats stats)
  /\ 1 <= speed (calculateArmedWarMachineStats stats)
  /\ exists rd,
       rangeDamage (calculateArmedWarMachineStats stats) = Some rd
       /\ attack (calculateArmedWarMachineStats stats) <= rd.
Proof.
  intros Ha Hh Hs.
  destruct (armed_numbers stats Ha) as [A2 Rd].
  split; [exact A2|].
  split.
  { unfold calculateArmedWarMachineStats. cbn [health].
    apply (Math_round_ge _ 3). rewrite mul_correct.
    change (inject_Z 3) with 3. lra. }
  split; [|exact Rd].
  unfold calculateArmedWarMachineStats. cbn [speed].
  apply (Math_round_ge _ 1). rewrite mul_correct.
  change (inject_Z 1) with 1. lra.
Qed.

Lemma armed_strength_witness :
  1 <= attack (regularCombatStats WARRIOR)
  /\ 1 <= health (regularCombatStats WARRIOR)
  /\ 1 <= speed (regularCombatStats WARRIOR)
  /\ 2 <= attack (calculateArmedWarMachineStats (regularCombatStats WARRIOR))
  /\ 3 <= health (calculateArmedWarMachineStats (regularCombatStats WARRIOR)).
Proof.
  assert (Ha : 1 <= attack (regularCombatStats WARRIOR)) by discriminate.
  assert (Hh : 1 <= health (regularCombatStats WARRIOR)) by discriminate.
  assert (Hs : 1 <= speed (regularCombatStats WARRIOR)) by discriminate.
  split; [exact Ha|]. split; [exact Hh|]. split; [exact Hs|].
  destruct (armed_strength (regularCombatStats WARRIOR) Ha Hh Hs)
    as (A & H & _).
  split; [exact A | exact H].
Defined.

(** X5: a unit that takes the stats of an armed war machine fights at range,
    whatever was armed with: its range is 175 pixels, it is ranged, its
    cooldown is the ranged one, it is at full health, and for an arming
    attack of 1 or more its damage is computed from the ranged damage. *)
Theorem armed_unit_fights_at_range (unit : BattleScene.Unit)
    (armedWith : RegularUnitType) (stats : CombatStats) :
  1 <= attack stats ->
  let u :=
    BattleScene.applyArmedWarMachineStats unit
      (mkArmedWarMachine armedWith (calculateArmedWarMachineStats stats)) in
  BattleScene.range u = 175
  /\ BattleScene.isRanged u = true
  /\ BattleScene.cooldownMs u = CombatRules.RANGED_COOLDOWN_MS
  /\ BattleScene.hp u = BattleScene.maxHp u
  /\ exists rd,
       BattleScene.rangeDamage u = Some rd
       /\ forall target,
            CombatRules.calculateDamage
              (CombatRules.mkAttackProfile (BattleScene.attack u)
                 (BattleScene.rangeDamage u))
              target
            = CombatRules.calculateDamage
                (CombatRules.mkAttackProfile rd None) target.
Proof.
  intros Ha u. subst u.
  split; [reflexivity|]. split; [reflexivity|]. split; [reflexivity|].
  split; [reflexivity|].
  destruct (armed_numbers stats Ha) as [A2 (rd & Erd & Le)].
  exists rd. unfold BattleScene.applyArmedWarMachineStats.
  cbn [BattleScene.rangeDamage BattleScene.attack combatStats].
  split; [exact Erd|]. intro target. rewrite Erd.
  unfold CombatRules.calculateDamage.
  cbn [CombatRules.rangeDamage CombatRules.attack].
  assert (G : JS.gt rd 0 = true) by (apply gt_true; lra).
  rewrite G. reflexivity.
Qed.

Lemma armed_unit_fights_at_range_witness :
  1 <= attack (regularCombatStats ORC)
  /\ forall unit,
       BattleScene.range
         (BattleScene.applyArmedWarMachineStats unit
            (mkArmedWarMachine ORC
               (calculateArmedWarMachineStats (regularCombatStats ORC))))
       = 175.
Proof.
  assert (Ha : 1 <= attack (regularCombatStats ORC)) by discriminate.
  split; [exact Ha|]. intro unit.
  apply (armed_unit_fights_at_range unit ORC (regularCombatStats ORC) Ha).
Defined.

End ArmedFacts.

(** ** The resolver, one unit at a time *)

Section NearestEnemy.
Import SimulateBattle.

Lemma findNearestEnemyFrom_found (unit : SimUnit) (rest : list SimUnit) :
  forall (seen : list SimUnit) (nearest : option nat) (best : option Q),
    Notions.nearestLiving unit seen nearest ->
    match nearest with
    | None => best = None
    | Some j =>
        exists e, nth_error seen j = Some e
                  /\ best = Some (Notions.distance unit e)
    end ->
    Notions.nearestLiving unit (seen ++ rest)
      (findNearestEnemyFrom unit rest (length seen) nearest best).
Proof.
  induction rest as [|enemy rest IH]; intros seen nearest best Hf Hb.
  - cbn [findNearestEnemyFrom]. rewrite app_nil_r. exact Hf.
  - cbn [findNearestEnemyFrom].
    replace (seen ++ enemy :: rest) with ((seen ++ [enemy]) ++ rest)
      by (rewrite <- app_assoc; reflexivity).
    replace (S (length seen)) with (length (seen ++ [enemy]))
      by (rewrite length_app; cbn; lia).
    assert (Last : nth_error (seen ++ [enemy]) (length seen) = Some enemy).
    { rewrite nth_error_app2 by lia. rewrite Nat.sub_diag. reflexivity. }
    assert (Split : forall k e',
              nth_error (seen ++ [enemy]) k = Some e' ->
              ((k < length seen)%nat /\ nth_error seen k = Some e')
              \/ (k = length seen /\ e' = enemy)).
    { intros k e' Hk.
      destruct (Nat.lt_ge_cases k (length seen)) as [L|L].
      - left. rewrite nth_error_app1 in Hk by exact L. auto.
      - right. rewrite nth_error_app2 in Hk by exact L.
        destruct (k - length seen)%nat as [|m] eqn:Ek.
        + cbn in Hk. split; [lia | congruence].
        + destruct m; discriminate. }
    rewrite alive_le.
    destruct (alive enemy) eqn:Ae; cbn [negb].
    + fold (Notions.distance unit enemy).
      destruct nearest as [j|].
      * destruct Hb as (ej & Hj & ->).
        destruct Hf as (e & He & Ale & Hmin).
        assert (e = ej) by congruence. subst ej.
        assert (Jlt : (j < length seen)%nat).
        { apply nth_error_Some. congruence. }
        cbn [closer].
        destruct (JS.lt (Notions.distance unit enemy)
                    (Notions.distance unit e)) eqn:C.
        -- apply lt_true in C. apply IH.
           ++ exists enemy. split; [exact Last|]. split; [exact Ae|].
              intros k e' Hk Ae'.
              destruct (Split k e' Hk) as [[L Hk']|[-> ->]].
              ** destruct (Hmin k e' Hk' Ae') as [M _].
                 split; [lra | intros _; lra].
              ** split; [lra | lia].
           ++ exists enemy. split; [exact Last | reflexivity].
        -- apply lt_false in C. apply IH.
           ++ exists e.
              split; [rewrite nth_error_app1 by exact Jlt; exact He|].
              split; [exact Ale|].
              intros k e' Hk Ae'.
              destruct (Split k e' Hk) as [[L Hk']|[-> ->]].
              ** apply (Hmin k e' Hk' Ae').
              ** split; [exact C | lia].
           ++ exists e. split; [|reflexivity].
              rewrite nth_error_app1 by exact Jlt. exact He.
      * subst best. cbn [closer]. apply IH.
        -- exists enemy. split; [exact Last|]. split; [exact Ae|].
           intros k e' Hk Ae'.
           destruct (Split k e' Hk) as [[L Hk']|[-> ->]].
           ** apply nth_error_In in Hk'. rewrite (Hf e' Hk') in Ae'.
              discriminate.
           ** split; [lra | lia].
        -- exists enemy. split; [exact Last | reflexivity].
    + apply IH.
      * destruct nearest as [j|].
        -- destruct Hf as (e & He & Ale & Hmin).
           assert (Jlt : (j < length seen)%nat).
           { apply nth_error_Some. congruence. }
           exists e.
           split; [rewrite nth_error_app1 by exact Jlt; exact He|].
           split; [exact Ale|].
           intros k e' Hk Ae'.
           destruct (Split k e' Hk) as [[L Hk']|[-> ->]].
           ** apply (Hmin k e' Hk' Ae').
           ** congruence.
        -- intros e He. apply in_app_or in He.
           destruct He as [He|[<-|[]]]; [apply Hf; exact He | exact Ae].
      * destruct nearest as [j|]; [|exact Hb].
        destruct Hb as (e & He & ->).
        assert (Jlt : (j < length seen)%nat).
        { apply nth_error_Some. congruence. }
        exists e. split; [|reflexivity].
        rewrite nth_error_app1 by exact Jlt. exact He.
Qed.

(** X6: [findNearestEnemy] finds nothing exactly when no enemy has hit points
    above 0; otherwise it finds a living enemy at the least distance, and of
    the living enemies at that distance the first in the array. *)
Theorem findNearestEnemy_nearest (unit : SimUnit) (enemies : list SimUnit) :
  Notions.nearestLiving unit enemies (findNearestEnemy unit enemies).
Proof.
  apply (findNearestEnemyFrom_found unit enemies [] None None).
  - intros e [].
  - reflexivity.
Qed.

Lemma findNearestEnemy_living (unit : SimUnit) (enemies : list SimUnit)
    (k : nat) :
  findNearestEnemy unit enemies = Some k ->
  exists target, nth_error enemies k = Some target /\ alive target = true.
Proof.
  intro E.
  assert (F : Notions.nearestLiving unit enemies (Some k)).
  { rewrite <- E.
    apply (findNearestEnemyFrom_found unit enemies [] None None).
    - intros e [].
    - reflexivity. }
  destruct F as (e & He & Ae & _). exists e. auto.
Qed.

End NearestEnemy.

Section StepUnit.
Import SimulateBattle.

Lemma setNth_same {A : Type} (k : nat) (v : A) (l : list A) :
  nth_error l k = Some v -> setNth k v l = l.
Proof.
  revert k. induction l as [|a l IH]; intros [|k] H; cbn in *;
    try reflexivity; try discriminate.
  - congruence.
  - rewrite (IH k H). reflexivity.
Qed.

Lemma setNth_In {A : Type} (k : nat) (v : A) (l : list A) :
  (k < length l)%nat -> In v (setNth k v l).
Proof.
  revert k. induction l as [|a l IH]; intros [|k] H; cbn in *; try lia.
  - left. reflexivity.
  - right. apply IH. lia.
Qed.

Lemma setNth_other {A : Type} (k j : nat) (v : A) (l : list A) :
  j <> k -> nth_error (setNth k v l) j = nth_error l j.
Proof.
  revert k j. induction l as [|a l IH]; intros [|k] [|j] H; cbn;
    try reflexivity; try contradiction.
  apply IH. congruence.
Qed.

Lemma setNth_Forall2 {A : Type} (R : A -> A -> Prop) (k : nat) (a v : A)
    (l : list A) :
  (forall b, R b b) -> nth_error l k = Some a -> R a v ->
  Forall2 R l (setNth k v l).
Proof.
  intros Refl. revert k.
  assert (Same : forall l' : list A, Forall2 R l' l').
  { induction l'; constructor; auto. }
  induction l as [|b l IH]; intros [|k] H Rav; cbn in *; try discriminate.
  - inversion H; subst. constructor; [exact Rav | apply Same].
  - constructor; [apply Refl | apply IH; assumption].
Qed.

Lemma setNth_map {A B : Type} (f : A -> B) (k : nat) (a v : A) (l : list A) :
  nth_error l k = Some a -> f v = f a ->
  map f (setNth k v l) = map f l.
Proof.
  revert k. induction l as [|b l IH]; intros [|k] H E; cbn in *;
    try discriminate; try reflexivity.
  - inversion H; subst. rewrite E. reflexivity.
  - rewrite (IH k H E). reflexivity.
Qed.

Lemma calculateDamage_positive (a : CombatRules.AttackProfile)
    (t : CombatRules.DefenseProfile) :
  1 <= CombatRules.calculateDamage a t.
Proof.
  rewrite calculateDamage_eq. change 1 with (inject_Z 1).
  rewrite <- Zle_Qle. lia.
Qed.

(** The three things a call of [stepUnit] can do. *)
Lemma stepUnit_cases (u : SimUnit) (es : list SimUnit) (t dt : Q) :
  stepUnit u es t dt = (u, es)
  \/ (alive u = true
      /\ exists k target,
           nth_error es k = Some target /\ alive target = true
           /\ stepUnit u es t dt
              = (set_lastAttackAt u t,
                 setNth k
                   (set_hp target
                      (JS.sub (hp target)
                         (CombatRules.calculateDamage
                            (asAttackProfile (set_lastAttackAt u t))
                            (asDefenseProfile target))))
                   es))
  \/ (alive u = true /\ exists x', stepUnit u es t dt = (set_x u x', es)).
Proof.
  unfold stepUnit. rewrite alive_le.
  destruct (alive u) eqn:Au; cbn [negb]; [|left; reflexivity].
  destruct (findNearestEnemy u es) as [k|] eqn:F; [|left; reflexivity].
  destruct (findNearestEnemy_living u es k F) as (target & Hk & At).
  rewrite Hk.
  destruct (JS.le _ (range u)).
  - destruct (JS.ge _ (cooldownMs u)); [|left; reflexivity].
    right. left. split; [reflexivity|].
    exists k, target. split; [exact Hk|]. split; [exact At|].
    reflexivity.
  - right. right. split; [reflexivity|]. eexists. reflexivity.
Qed.

(** X7: a call of [stepUnit] leaves the hit points and all the other fields of
    the unit but its place and the time of its last attack; it leaves every
    enemy as it was but for the hit points of at most one, which it lowers;
    it never moves the unit and attacks in one call; and a unit without hit
    points does nothing. *)
Theorem stepUnit_frame (unit : SimUnit) (enemies : list SimUnit)
    (time deltaMs : Q) :
  let r := stepUnit unit enemies time deltaMs in
  set_x (set_lastAttackAt unit (lastAttackAt (fst r))) (x (fst r)) = fst r
  /\ Forall2 Notions.worn enemies (snd r)
  /\ (exists k, forall j, j <> k -> nth_error (snd r) j = nth_error enemies j)
  /\ (x (fst r) <> x unit ->
      snd r = enemies /\ lastAttackAt (fst r) = lastAttackAt unit)
  /\ (alive unit = false -> r = (unit, enemies)).
Proof.
  intro r. subst r.
  assert (Same : forall l : list SimUnit, Forall2 Notions.worn l l).
  { induction l as [|a l IH]; constructor; [|exact IH].
    split; [destruct a; reflexivity | apply Qle_refl]. }
  destruct (stepUnit_cases unit enemies time deltaMs)
    as [E|[(Au & k & target & Hk & At & E)|(Au & x' & E)]]; rewrite E;
    cbn [fst snd].
  - split; [destruct unit; reflexivity|]. split; [apply Same|].
    split; [exists O; reflexivity|]. split; [intro N; contradiction N; reflexivity|].
    reflexivity.
  - split; [destruct unit; reflexivity|].
    split.
    { apply (setNth_Forall2 _ k target); [| exact Hk |].
      - intro b. split; [destruct b; reflexivity | apply Qle_refl].
      - split; [destruct target; reflexivity|].
        cbn [hp set_hp]. rewrite sub_correct.
        pose proof (calculateDamage_positive
                      (asAttackProfile (set_lastAttackAt unit time))
                      (asDefenseProfile target)).
        lra. }
    split; [exists k; intros j N; apply setNth_other; exact N|].
    split.
    { intro N. contradiction N. destruct unit; reflexivity. }
    intro D. congruence.
  - split; [destruct unit; reflexivity|]. split; [apply Same|].
    split; [exists O; reflexivity|].
    split; [intros _; split; [reflexivity | destruct unit; reflexivity]|].
    intro D. congruence.
Qed.

End StepUnit.

Section LoopInvariants.
Import SimulateBattle.

Lemma stepUnit_ids (u : SimUnit) (es : list SimUnit) (t dt : Q) :
  id (fst (stepUnit u es t dt)) = id u
  /\ team (fst (stepUnit u es t dt)) = team u
  /\ map id (snd (stepUnit u es t dt)) = map id es
  /\ map team (snd (stepUnit u es t dt)) = map team es.
Proof.
  destruct (stepUnit_cases u es t dt)
    as [E|[(Au & k & target & Hk & At & E)|(Au & x' & E)]]; rewrite E;
    cbn [fst snd]; repeat split; try reflexivity.
  - apply (setNth_map id k target); [exact Hk | reflexivity].
  - apply (setNth_map team k target); [exact Hk | reflexivity].
Qed.

Lemma stepRef_ids (now ts : Q) (st : LoopState) (r : Team * Z) :
  map id (attackers (stepRef now ts st r)) = map id (attackers st)
  /\ map team (attackers (stepRef now ts st r)) = map team (attackers st)
  /\ map id (defenders (stepRef now ts st r)) = map id (defenders st)
  /\ map team (defenders (stepRef now ts st r)) = map team (defenders st).
Proof.
  unfold stepRef.
  destruct (fst r).
  - destruct (indexOfId (snd r) (attackers st)) as [k|]; [|auto].
    destruct (nth_error (attackers st) k) as [unit|] eqn:Hk; [|auto].
    destruct (stepUnit_ids unit (defenders st) now ts) as (I & T & Is & Ts).
    destruct (stepUnit unit (defenders st) now ts) as [unit' enemies'].
    cbn [fst snd] in *. cbn [attackers defenders].
    repeat split; try assumption.
    + apply (setNth_map id k unit); assumption.
    + apply (setNth_map team k unit); assumption.
  - destruct (indexOfId (snd r) (defenders st)) as [k|]; [|auto].
    destruct (nth_error (defenders st) k) as [unit|] eqn:Hk; [|auto].
    destruct (stepUnit_ids unit (attackers st) now ts) as (I & T & Is & Ts).
    destruct (stepUnit unit (attackers st) now ts) as [unit' enemies'].
    cbn [fst snd] in *. cbn [attackers defenders].
    repeat split; try assumption.
    + apply (setNth_map id k unit); assumption.
    + apply (setNth_map team k unit); assumption.
Qed.

Lemma steps_ids (now ts : Q) (refs : list (Team * Z)) (st : LoopState) :
  map id (attackers (fold_left (stepRef now ts) refs st))
  = map id (attackers st)
  /\ map team (attackers (fold_left (stepRef now ts) refs st))
     = map team (attackers st)
  /\ map id (defenders (fold_left (stepRef now ts) refs st))
     = map id (defenders st)
  /\ map team (defenders (fold_left (stepRef now ts) refs st))
     = map team (defenders st).
Proof.
  revert st. induction refs as [|r refs IH]; intro st; cbn [fold_left].
  - auto.
  - destruct (IH (stepRef now ts st r)) as (A & B & C & D).
    destruct (stepRef_ids now ts st r) as (A' & B' & C' & D').
    repeat split; congruence.
Qed.

(** A unit that acts stays alive, so a step that changes anything leaves a
    living unit behind. *)
Lemma stepRef_someAlive (now ts : Q) (st : LoopState) (r : Team * Z) :
  Notions.someAlive st -> Notions.someAlive (stepRef now ts st r).
Proof.
  intro H. unfold stepRef.
  destruct (fst r).
  - destruct (indexOfId (snd r) (attackers st)) as [k|]; [|exact H].
    destruct (nth_error (attackers st) k) as [unit|] eqn:Hk; [|exact H].
    assert (Kl : (k < length (attackers st))%nat).
    { apply nth_error_Some. congruence. }
    destruct (stepUnit_cases unit (defenders st) now ts)
      as [E|[(Au & j & target & Hj & At & E)|(Au & x' & E)]]; rewrite E.
    + rewrite (setNth_same k unit _ Hk). destruct st; exact H.
    + exists (set_lastAttackAt unit now). split; [|exact Au].
      cbn [attackers defenders]. apply in_or_app. left.
      apply setNth_In. exact Kl.
    + exists (set_x unit x'). split; [|exact Au].
      cbn [attackers defenders]. apply in_or_app. left.
      apply setNth_In. exact Kl.
  - destruct (indexOfId (snd r) (defenders st)) as [k|]; [|exact H].
    destruct (nth_error (defenders st) k) as [unit|] eqn:Hk; [|exact H].
    assert (Kl : (k < length (defenders st))%nat).
    { apply nth_error_Some. congruence. }
    destruct (stepUnit_cases unit (attackers st) now ts)
      as [E|[(Au & j & target & Hj & At & E)|(Au & x' & E)]]; rewrite E.
    + rewrite (setNth_same k unit _ Hk). destruct st; exact H.
    + exists (set_lastAttackAt unit now). split; [|exact Au].
      cbn [attackers defenders]. apply in_or_app. right.
      apply setNth_In. exact Kl.
    + exists (set_x unit x'). split; [|exact Au].
      cbn [attackers defenders]. apply in_or_app. right.
      apply setNth_In. exact Kl.
Qed.

Lemma loopBody_someAlive (ts : Q) (st : LoopState) :
  Notions.someAlive st -> Notions.someAlive (loopBody ts st).
Proof.
  intro H. unfold loopBody.
  assert (F : forall refs st0,
            Notions.someAlive st0 ->
            Notions.someAlive (fold_left (stepRef (time st) ts) refs st0)).
  { induction refs as [|r refs IH]; intros st0 H0; cbn [fold_left].
    - exact H0.
    - apply IH. apply stepRef_someAlive. exact H0. }
  destruct (F (sortById (map ref (attackers st ++ defenders st))) st H)
    as (u & Hu & Au).
  exists u. split; [|exact Au]. cbn [attackers defenders].
  apply in_app_or in Hu. apply in_or_app.
  destruct Hu as [Hu|Hu]; [left|right]; apply filter_In; auto.
Qed.

(** The units [createPack] builds. *)
Lemma createPackFrom_units (type : UnitType) (t : Team) (n : nat) (x0 : Q)
    (startId : Z) :
  forall (i : Z) (units : list SimUnit),
    createPackFrom type t n x0 startId i = Return units ->
    Forall (fun u => alive u = true /\ team u = t) units
    /\ map id units
       = map (fun j => (startId + i + Z.of_nat j)%Z) (seq 0 n).
Proof.
  induction n as [|n IH]; intros i units E; cbn [createPackFrom] in E.
  - inversion E; subst. split; [constructor | reflexivity].
  - unfold buildUnit in E.
    destruct (UnitRepository.unitCombatStats type) as [stats|] eqn:Es;
      [|discriminate].
    cbn [bind] in E.
    destruct (createPackFrom type t n x0 startId (i + 1)) as [rest| |] eqn:Er;
      cbn [bind] in E; try discriminate.
    inversion E; subst units. clear E.
    destruct (IH (i + 1)%Z rest Er) as [Fa Ids].
    split.
    + constructor; [|exact Fa]. split; [|reflexivity].
      unfold alive. cbn [hp]. apply gt_true.
      apply (catalogue_entry type stats Es).
    + cbn [map seq id]. f_equal; [cbn; lia|].
      rewrite Ids. rewrite <- seq_shift, map_map.
      apply map_ext. intro j. lia.
Qed.

Lemma ascending_seq (c : Z) (n : nat) :
  forall s, StronglySorted Z.lt (map (fun j => (c + Z.of_nat j)%Z) (seq s n)).
Proof.
  induction n as [|n IH]; intro s; cbn [seq map]; constructor.
  - apply IH.
  - apply Forall_forall. intros z Hz. apply in_map_iff in Hz.
    destruct Hz as (j & <- & Hj). apply in_seq in Hj. lia.
Qed.

Lemma seq_offset (c : Z) (a n : nat) :
  forall s,
    map (fun j => (c + Z.of_nat j)%Z) (seq (s + a) n)
    = map (fun j => (c + Z.of_nat a + Z.of_nat j)%Z) (seq s n).
Proof.
  induction n as [|n IH]; intro s; cbn [seq map]; [reflexivity|].
  f_equal; [lia|]. apply (IH (S s)).
Qed.

Lemma ascending_filter (p : SimUnit -> bool) (l : list SimUnit) :
  StronglySorted Z.lt (map id l) ->
  StronglySorted Z.lt (map id (filter p l)).
Proof.
  induction l as [|a l IH]; intro H; cbn [filter map] in *; [exact H|].
  inversion H as [|? ? Hs Hf]; subst.
  destruct (p a); cbn [map]; [|apply IH; exact Hs].
  constructor; [apply IH; exact Hs|].
  apply Forall_forall. intros z Hz. apply in_map_iff in Hz.
  destruct Hz as (u & <- & Hu). apply filter_In in Hu.
  rewrite Forall_forall in Hf. apply Hf. apply in_map. apply Hu.
Qed.

Lemma Forall_map_eq {A B : Type} (f : A -> B) (b : B) (l l' : list A) :
  map f l' = map f l ->
  Forall (fun u => f u = b) l -> Forall (fun u => f u = b) l'.
Proof.
  revert l'. induction l as [|a l IH]; intros [|a' l'] E H; cbn in E;
    try discriminate; constructor.
  - inversion H; subst. congruence.
  - inversion H; subst. apply IH; congruence.
Qed.

Lemma Forall_filter {A : Type} (P : A -> Prop) (p : A -> bool) (l : list A) :
  Forall P l -> Forall P (filter p l).
Proof.
  intro H. apply Forall_forall. intros a Ha. apply filter_In in Ha.
  rewrite Forall_forall in H. apply H. apply Ha.
Qed.

Lemma loopBody_ascending (ts : Q) (st : LoopState) :
  Notions.idsAscending st -> Notions.idsAscending (loopBody ts st).
Proof.
  unfold Notions.idsAscending, loopBody. cbn [attackers defenders].
  intro H. rewrite <- filter_app. apply ascending_filter.
  rewrite map_app.
  destruct (steps_ids (time st) ts
              (sortById (map ref (attackers st ++ defenders st))) st)
    as (A & _ & D & _).
  rewrite A, D, <- map_app. exact H.
Qed.

Lemma loopBody_teamsApart (ts : Q) (st : LoopState) :
  Notions.teamsApart st -> Notions.teamsApart (loopBody ts st).
Proof.
  unfold Notions.teamsApart, loopBody. cbn [attackers defenders].
  intros [Ha Hd].
  destruct (steps_ids (time st) ts
              (sortById (map ref (attackers st ++ defenders st))) st)
    as (_ & A & _ & D).
  split; apply Forall_filter.
  - apply (Forall_map_eq team attacker _ _ A Ha).
  - apply (Forall_map_eq team defender _ _ D Hd).
Qed.

Lemma loopBody_allAlive (ts : Q) (st : LoopState) :
  Notions.allAlive (loopBody ts st).
Proof.
  unfold Notions.allAlive, loopBody. cbn [attackers defenders].
  apply Forall_forall. intros u Hu. apply in_app_or in Hu.
  destruct Hu as [Hu|Hu]; apply filter_In in Hu; apply Hu.
Qed.

(** What holds of every loop state the resolver goes through. *)
Lemma visited_invariant (cfg : SimulationConfig) (st : LoopState) :
  Notions.visited cfg st ->
  Notions.allAlive st /\ Notions.idsAscending st /\ Notions.teamsApart st.
Proof.
  induction 1 as [as0 ds0 Ea Ed | st V IH C].
  - unfold createPack in Ea, Ed.
    destruct (createPackFrom_units _ _ _ _ _ _ _ Ea) as [Fa Ia].
    destruct (createPackFrom_units _ _ _ _ _ _ _ Ed) as [Fd Id].
    pose proof (createPackFrom_length _ _ _ _ _ _ _ Ea) as La.
    split; [|split].
    + unfold Notions.allAlive. cbn [attackers defenders].
      apply Forall_app. split; eapply Forall_impl; try eassumption;
        cbn; intros u Hu; apply Hu.
    + unfold Notions.idsAscending. cbn [attackers defenders].
      rewrite map_app, Ia, Id, La.
      set (na := iterationsBelow (effectiveAttackerCount cfg)).
      set (nd := iterationsBelow (effectiveDefenderCount cfg)).
      replace (map (fun j => (1 + Z.of_nat na + 0 + Z.of_nat j)%Z) (seq 0 nd))
        with (map (fun j => (1 + 0 + Z.of_nat j)%Z) (seq (0 + na) nd)).
      * rewrite <- map_app, <- seq_app. apply ascending_seq.
      * rewrite seq_offset. apply map_ext. intro j. lia.
    + split; cbn [attackers defenders]; eapply Forall_impl; try eassumption;
        cbn; intros u Hu; apply Hu.
  - destruct IH as (A & I & T).
    split; [apply loopBody_allAlive|].
    split; [apply loopBody_ascending; exact I|].
    apply loopBody_teamsApart; exact T.
Qed.

Lemma while_visited (cfg : SimulationConfig) (fuel : nat) :
  forall (st st' : LoopState) (n k : nat),
    Notions.visited cfg st ->
    while fuel (effectiveMaxDurationMs cfg) (effectiveTimeStepMs cfg) st n
    = Return (st', k) ->
    Notions.visited cfg st'
    /\ loopCondition (effectiveMaxDurationMs cfg) st' = false.
Proof.
  induction fuel as [|fuel IH]; intros st st' n k V E; cbn [while] in E;
    destruct (loopCondition (effectiveMaxDurationMs cfg) st) eqn:C;
    try discriminate.
  - inversion E; subst. auto.
  - apply (IH _ _ _ _ (Notions.visited_next cfg st V C) E).
  - inversion E; subst. auto.
Qed.

(** The result of the resolver is built from a state its loop went through
    and stopped at. *)
Lemma simulate_visited (fuel : nat) (cfg : SimulationConfig)
    (r : SimulationResult) (n : nat) :
  simulateBattleCounting fuel cfg = Return (r, n) ->
  exists st,
    Notions.visited cfg st
    /\ loopCondition (effectiveMaxDurationMs cfg) st = false
    /\ r = Notions.resultOf st.
Proof.
  unfold simulateBattleCounting. intro E.
  destruct (createPack (attackerType cfg) attacker
              (effectiveAttackerCount cfg) 0 1) as [as0| |] eqn:Ea;
    cbn [bind] in E; try discriminate.
  destruct (createPack (defenderType cfg) defender
              (effectiveDefenderCount cfg) (effectiveStartDistance cfg)
              (1 + Z.of_nat (length as0))) as [ds0| |] eqn:Ed;
    cbn [bind] in E; try discriminate.
  destruct (while fuel (effectiveMaxDurationMs cfg) (effectiveTimeStepMs cfg)
              (mkLoopState as0 ds0 0) 0) as [[st k]| |] eqn:Ew;
    cbn [bind] in E; try discriminate.
  inversion E; subst. clear E.
  destruct (while_visited cfg fuel _ _ _ _
              (Notions.visited_first cfg as0 ds0 Ea Ed) Ew) as [V C].
  exists st. auto.
Qed.

Lemma simulate_counting (fuel : nat) (cfg : SimulationConfig)
    (r : SimulationResult) :
  simulateBattle fuel cfg = Return r ->
  exists n, simulateBattleCounting fuel cfg = Return (r, n).
Proof.
  unfold simulateBattle. intro E.
  destruct (simulateBattleCounting fuel cfg) as [[r' n]| |];
    cbn [bind] in E; try discriminate.
  inversion E; subst. exists n. reflexivity.
Qed.

Lemma sortById_ascending (l : list (Team * Z)) :
  StronglySorted Z.lt (map snd l) -> sortById l = l.
Proof.
  induction l as [|r l IH]; intro H; [reflexivity|].
  cbn [map] in H. inversion H as [|? ? Hs Hf]; subst.
  unfold sortById. cbn [fold_right]. fold (sortById l). rewrite (IH Hs).
  destruct l as [|r' l]; [reflexivity|].
  cbn [insertById]. cbn [map] in Hf. inversion Hf; subst.
  destruct (snd r <? snd r')%Z eqn:L; [reflexivity|].
  apply Z.ltb_ge in L. lia.
Qed.

Lemma indexOfId_ascending (l : list SimUnit) :
  StronglySorted Z.lt (map id l) ->
  forall k u, nth_error l k = Some u -> indexOfId (id u) l = Some k.
Proof.
  induction l as [|a l IH]; intros H [|k] u Hk; cbn in Hk; try discriminate.
  - inversion Hk; subst. cbn [indexOfId]. rewrite Z.eqb_refl. reflexivity.
  - cbn [map] in H. inversion H as [|? ? Hs Hf]; subst.
    cbn [indexOfId].
    assert (Lt : (id a < id u)%Z).
    { rewrite Forall_forall in Hf. apply Hf. apply in_map.
      apply (nth_error_In _ _ Hk). }
    destruct (id a =? id u)%Z eqn:Eq; [apply Z.eqb_eq in Eq; lia|].
    rewrite (IH Hs k u Hk). reflexivity.
Qed.

Lemma ascending_app_l (l1 l2 : list Z) :
  StronglySorted Z.lt (l1 ++ l2) -> StronglySorted Z.lt l1.
Proof.
  induction l1 as [|a l1 IH]; intro H; [constructor|].
  cbn in H. inversion H as [|? ? Hs Hf]; subst.
  constructor; [apply IH; exact Hs|].
  apply Forall_app in Hf. apply Hf.
Qed.

Lemma ascending_app_r (l1 l2 : list Z) :
  StronglySorted Z.lt (l1 ++ l2) -> StronglySorted Z.lt l2.
Proof.
  induction l1 as [|a l1 IH]; intro H; [exact H|].
  cbn in H. inversion H; subst. apply IH. assumption.
Qed.

(** X8: in every iteration the sort leaves the units as they are in the two
    arrays, the attackers before the defenders: each unit of the arrays is
    the first of its id there and is of the team of its array, so that every
    unit gets one turn, the attackers ahead of the defenders. *)
Theorem units_act_in_array_order (config : SimulationConfig)
    (st : LoopState) :
  Notions.visited config st ->
  sortById (map ref (attackers st ++ defenders st))
  = map ref (attackers st ++ defenders st)
  /\ (forall k u,
        nth_error (attackers st) k = Some u ->
        team u = attacker /\ indexOfId (id u) (attackers st) = Some k)
  /\ (forall k u,
        nth_error (defenders st) k = Some u ->
        team u = defender /\ indexOfId (id u) (defenders st) = Some k).
Proof.
  intro V. destruct (visited_invariant config st V) as (_ & I & Ta & Td).
  unfold Notions.idsAscending in I.
  split.
  { apply sortById_ascending. rewrite map_map. exact I. }
  rewrite map_app in I.
  split; intros k u Hk.
  - split.
    + rewrite Forall_forall in Ta. apply Ta. apply (nth_error_In _ _ Hk).
    + apply indexOfId_ascending; [|exact Hk].
      apply (ascending_app_l _ _ I).
  - split.
    + rewrite Forall_forall in Td. apply Td. apply (nth_error_In _ _ Hk).
    + apply indexOfId_ascending; [|exact Hk].
      apply (ascending_app_r _ _ I).
Qed.

Lemma skirmish_visited :
  Notions.visited Spec.skirmish
    (loopBody (effectiveTimeStepMs Spec.skirmish) Notions.skirmishStart).
Proof.
  apply Notions.visited_next; [|reflexivity].
  unfold Notions.skirmishStart. apply Notions.visited_first; reflexivity.
Qed.

Lemma units_act_in_array_order_witness :
  Notions.visited Spec.skirmish
    (loopBody (effectiveTimeStepMs Spec.skirmish) Notions.skirmishStart)
  /\ sortById
       (map ref
          (attackers
             (loopBody (effectiveTimeStepMs Spec.skirmish)
                Notions.skirmishStart)
           ++ defenders
                (loopBody (effectiveTimeStepMs Spec.skirmish)
                   Notions.skirmishStart)))
     = map ref
         (attackers
            (loopBody (effectiveTimeStepMs Spec.skirmish)
               Notions.skirmishStart)
          ++ defenders
               (loopBody (effectiveTimeStepMs Spec.skirmish)
                  Notions.skirmishStart)).
Proof.
  split; [exact skirmish_visited|].
  apply (units_act_in_array_order Spec.skirmish _ skirmish_visited).
Defined.

Lemma visited_someAlive (cfg : SimulationConfig) (st : LoopState) :
  0 < effectiveAttackerCount cfg \/ 0 < effectiveDefenderCount cfg ->
  Notions.visited cfg st -> Notions.someAlive st.
Proof.
  intros Pos V. induction V as [as0 ds0 Ea Ed | st V IH C].
  - pose proof (visited_invariant cfg _
                  (Notions.visited_first cfg as0 ds0 Ea Ed)) as (A & _ & _).
    unfold Notions.allAlive in A. cbn [attackers defenders] in A.
    unfold createPack in Ea, Ed.
    apply createPackFrom_length in Ea, Ed.
    assert (N : as0 ++ ds0 <> []).
    { intro N. apply app_eq_nil in N. destruct N; subst. cbn in *.
      destruct Pos as [P|P]; apply iterationsBelow_positive in P;
        destruct P as [m P]; congruence. }
    destruct (as0 ++ ds0) as [|u l] eqn:El; [contradiction N; reflexivity|].
    exists u. cbn [attackers defenders]. rewrite El.
    split; [left; reflexivity|]. inversion A; subst. assumption.
  - apply loopBody_someAlive. exact IH.
Qed.

(** X9: when the resolver returns and a unit was created, the two sides are
    never both eliminated: a unit is left on one side at least, and the
    winner is 'draw' only with units left on both sides, the time being past
    the cap. *)
Theorem simulateBattle_leaves_a_survivor (fuel : nat)
    (config : SimulationConfig) (r : SimulationResult) :
  0 < effectiveAttackerCount config \/ 0 < effectiveDefenderCount config ->
  simulateBattle fuel config = Return r ->
  (0 < remaining_attacker r + remaining_defender r)%nat
  /\ (winner r = draw ->
      (0 < remaining_attacker r)%nat /\ (0 < remaining_defender r)%nat
      /\ effectiveMaxDurationMs config < durationMs r).
Proof.
  intros Pos E. destruct (simulate_counting fuel config r E) as [n En].
  destruct (simulate_visited fuel config r n En) as (st & V & C & ->).
  destruct (visited_someAlive config st Pos V) as (u & Hu & _).
  cbn [Notions.resultOf remaining_attacker remaining_defender winner
       durationMs].
  assert (L : (0 < length (attackers st) + length (defenders st))%nat).
  { rewrite <- length_app. destruct (attackers st ++ defenders st);
      [destruct Hu | cbn; lia]. }
  split; [exact L|].
  unfold decideWinner. intro W.
  destruct (length (attackers st)) as [|a] eqn:La;
    destruct (length (defenders st)) as [|d] eqn:Ld;
    cbn in W; try discriminate; try lia.
  split; [lia|]. split; [lia|].
  apply loopCondition_cap; [exact C | lia | lia].
Qed.

Lemma simulateBattle_leaves_a_survivor_witness :
  (0 < effectiveAttackerCount Spec.skirmish
   \/ 0 < effectiveDefenderCount Spec.skirmish)
  /\ simulateBattle 1201 Spec.skirmish
     = Return (mkSimulationResult (won defender) 0 2 2300)
  /\ (0 < remaining_attacker (mkSimulationResult (won defender) 0 2 2300%Q)
         + remaining_defender
             (mkSimulationResult (won defender) 0 2 2300%Q))%nat.
Proof.
  assert (Pos : 0 < effectiveAttackerCount Spec.skirmish
                \/ 0 < effectiveDefenderCount Spec.skirmish)
    by (left; reflexivity).
  assert (E : simulateBattle 1201 Spec.skirmish
              = Return (mkSimulationResult (won defender) 0 2 2300))
    by (vm_compute; reflexivity).
  split; [exact Pos|]. split; [exact E|].
  exact (proj1 (simulateBattle_leaves_a_survivor 1201 Spec.skirmish _ Pos E)).
Defined.

End LoopInvariants.

Section ResolverRuns.
Import SimulateBattle.

Lemma no_iteration (t ts : Q) : t == t + inject_Z (Z.of_nat 0) * ts.
Proof. cbn. ring. Qed.

Lemma one_more_iteration (t ts : Q) (m : nat) :
  t + ts + inject_Z (Z.of_nat m) * ts == t + inject_Z (Z.of_nat (S m)) * ts.
Proof.
  rewrite Nat2Z.inj_succ. unfold Z.succ. rewrite inject_Z_plus.
  change (inject_Z 1) with 1. ring.
Qed.

Lemma while_time (fuel : nat) (max ts : Q) :
  forall (st st' : LoopState) (n k : nat),
    while fuel max ts st n = Return (st', k) ->
    (n <= k)%nat
    /\ time st' == time st + inject_Z (Z.of_nat (k - n)) * ts.
Proof.
  induction fuel as [|fuel IH]; intros st st' n k E; cbn [while] in E;
    destruct (loopCondition max st); try discriminate.
  - inversion E; subst. rewrite Nat.sub_diag. split; [lia|].
    apply no_iteration.
  - destruct (IH _ _ _ _ E) as [L T]. split; [lia|].
    rewrite T, loopBody_time, add_correct.
    replace (k - n)%nat with (S (k - S n)) by lia.
    apply one_more_iteration.
  - inversion E; subst. rewrite Nat.sub_diag. split; [lia|].
    apply no_iteration.
Qed.



Lemma while_cap (fuel : nat) (max max' ts : Q) :
  max <= max' ->
  forall (st st' : LoopState) (n k : nat),
    while fuel max ts st n = Return (st', k) ->
    attackers st' = [] \/ defenders st' = [] ->
    while fuel max' ts st n = Return (st', k).
Proof.
  intro Le.
  induction fuel as [|fuel IH]; intros st st' n k E Empty; cbn [while] in *.
  - destruct (loopCondition max st) eqn:C; [discriminate|].
    inversion E; subst.
    assert (C' : loopCondition max' st' = false).
    { unfold loopCondition.
      destruct Empty as [-> | ->]; cbn [length Nat.ltb Nat.leb];
        rewrite ?andb_false_r; reflexivity. }
    rewrite C'. reflexivity.
  - destruct (loopCondition max st) eqn:C.
    + assert (C' : loopCondition max' st = true).
      { unfold loopCondition in *.
        apply andb_true_iff in C. destruct C as [C C3].
        apply andb_true_iff in C. destruct C as [C1 C2].
        rewrite C2, C3. apply le_true in C1.
        assert (T : JS.le (time st) max' = true) by (apply le_true; lra).
        rewrite T. reflexivity. }
      rewrite C'. apply IH; assumption.
    + inversion E; subst.
      assert (C' : loopCondition max' st' = false).
      { unfold loopCondition.
        destruct Empty as [-> | ->]; cbn [length Nat.ltb Nat.leb];
          rewrite ?andb_false_r; reflexivity. }
      rewrite C'. reflexivity.
Qed.

Lemma decideWinner_decided (attackers defenders : list SimUnit) :
  decideWinner attackers defenders <> draw ->
  attackers = [] \/ defenders = [].
Proof.
  unfold decideWinner.
  destruct attackers, defenders; cbn; auto. intro N. contradiction N.
  reflexivity.
Qed.

(** X11: a battle the resolver decides within a time cap is decided in the
    same way, with the same survivors and the same duration, under every
    greater cap. *)
Theorem decided_battle_ignores_cap (fuel : nat) (config : SimulationConfig)
    (r : SimulationResult) (maxDurationMs' : Q) :
  simulateBattle fuel config = Return r ->
  winner r <> draw ->
  effectiveMaxDurationMs config <= maxDurationMs' ->
  simulateBattle fuel (Notions.withMaxDuration config maxDurationMs')
  = Return r.
Proof.
  unfold simulateBattle, simulateBattleCounting. intros E W Le.
  change (attackerType (Notions.withMaxDuration config maxDurationMs'))
    with (attackerType config).
  change (defenderType (Notions.withMaxDuration config maxDurationMs'))
    with (defenderType config).
  change (effectiveAttackerCount
            (Notions.withMaxDuration config maxDurationMs'))
    with (effectiveAttackerCount config).
  change (effectiveDefenderCount
            (Notions.withMaxDuration config maxDurationMs'))
    with (effectiveDefenderCount config).
  change (effectiveStartDistance
            (Notions.withMaxDuration config maxDurationMs'))
    with (effectiveStartDistance config).
  change (effectiveTimeStepMs
            (Notions.withMaxDuration config maxDurationMs'))
    with (effectiveTimeStepMs config).
  change (effectiveMaxDurationMs
            (Notions.withMaxDuration config maxDurationMs'))
    with maxDurationMs'.
  destruct (createPack (attackerType config) attacker
              (effectiveAttackerCount config) 0 1) as [as0| |];
    cbn [bind] in *; try discriminate.
  destruct (createPack (defenderType config) defender
              (effectiveDefenderCount config) (effectiveStartDistance config)
              (1 + Z.of_nat (length as0))) as [ds0| |];
    cbn [bind] in *; try discriminate.
  destruct (while fuel (effectiveMaxDurationMs config)
              (effectiveTimeStepMs config) (mkLoopState as0 ds0 0) 0)
    as [[st k]| |] eqn:Ew; cbn [bind] in E; try discriminate.
  cbn [fst] in E. inversion E; subst r. clear E. cbn [winner] in W.
  rewrite (while_cap fuel _ maxDurationMs' _ Le _ _ _ _ Ew
             (decideWinner_decided _ _ W)).
  reflexivity.
Qed.

Lemma decided_battle_ignores_cap_witness :
  simulateBattle 1201 Spec.skirmish
  = Return (mkSimulationResult (won defender) 0 2 2300)
  /\ winner (mkSimulationResult (won defender) 0 2 2300) <> draw
  /\ effectiveMaxDurationMs Spec.skirmish <= 90000
  /\ simulateBattle 1201 (Notions.withMaxDuration Spec.skirmish 90000)
     = Return (mkSimulationResult (won defender) 0 2 2300).
Proof.
  assert (E : simulateBattle 1201 Spec.skirmish
              = Return (mkSimulationResult (won defender) 0 2 2300))
    by (vm_compute; reflexivity).
  assert (W : winner (mkSimulationResult (won defender) 0 2 2300) <> draw)
    by discriminate.
  assert (Le : effectiveMaxDurationMs Spec.skirmish <= 90000)
    by discriminate.
  split; [exact E|]. split; [exact W|]. split; [exact Le|].
  apply (decided_battle_ignores_cap 1201 Spec.skirmish _ 90000 E W Le).
Defined.

Lemma iterationsBelow_none (q : Q) : q <= 0 -> iterationsBelow q = O.
Proof.
  intro H. unfold iterationsBelow.
  assert (L : (Qceiling q <= 0)%Z).
  { apply ceiling_le. exact H. }
  lia.
Qed.

(** X12: with an attacker count of 0 or less no attacker is built, whatever
    the attacker type, and the loop is not entered: the resolver returns at
    once, with the defenders as they were created and a duration of 0; the
    defenders win if there is one, otherwise it is a draw. *)
Theorem simulateBattle_without_attackers (fuel : nat)
    (config : SimulationConfig) (stats : UnitRepository.CombatStats) :
  effectiveAttackerCount config <= 0 ->
  UnitRepository.unitCombatStats (defenderType config) = Some stats ->
  simulateBattleCounting fuel config
  = Return
      ({| winner :=
            if (0 <? iterationsBelow (effectiveDefenderCount config))%nat
            then won defender else draw;
          remaining_attacker := 0;
          remaining_defender :=
            iterationsBelow (effectiveDefenderCount config);
          durationMs := 0 |},
       O).
Proof.
  intros Ha Hd. unfold simulateBattleCounting, createPack.
  rewrite (iterationsBelow_none _ Ha). cbn [createPackFrom bind length].
  destruct (createPackFrom_Return (defenderType config) defender stats
              (iterationsBelow (effectiveDefenderCount config))
              (effectiveStartDistance config) (1 + Z.of_nat 0) 0 Hd)
    as (ds0 & Ed & Ld).
  rewrite Ed. cbn [bind].
  rewrite while_stops by (left; reflexivity). cbn [bind].
  cbn [attackers defenders time]. rewrite Ld.
  unfold decideWinner. cbn [length Nat.ltb Nat.leb andb]. rewrite Ld.
  destruct (iterationsBelow (effectiveDefenderCount config)); reflexivity.
Qed.

Lemma simulateBattle_without_attackers_witness :
  effectiveAttackerCount Notions.noAttackers <= 0
  /\ UnitRepository.unitCombatStats (defenderType Notions.noAttackers)
     = Some Spec.dwarf
  /\ simulateBattleCounting 0 Notions.noAttackers
     = Return (mkSimulationResult (won defender) 0 2 0, O).
Proof.
  assert (Ha : effectiveAttackerCount Notions.noAttackers <= 0)
    by discriminate.
  split; [exact Ha|]. split; [reflexivity|].
  apply (simulateBattle_without_attackers 0 Notions.noAttackers Spec.dwarf
           Ha eq_refl).
Defined.

End ResolverRuns.

(** ** What the deployment keeps *)

Section DeploymentInvariant.
Import BattleConfig DeployManager.

Lemma Clamp_between (v lo hi : Q) :
  lo <= hi -> lo <= JS.Clamp v lo hi /\ JS.Clamp v lo hi <= hi.
Proof.
  intro H. unfold JS.Clamp, JS.Math_max, JS.Math_min.
  destruct (JS.le hi v) eqn:A.
  - assert (B : JS.le lo hi = true) by (apply le_true; exact H).
    rewrite B. split; [exact H | apply Qle_refl].
  - apply le_false in A. destruct (JS.le lo v) eqn:B.
    + apply le_true in B. split; lra.
    + apply le_false in B. split; lra.
Qed.

Lemma clampToZone_inside (t : Team) (x y : Q) :
  Notions.insideZone t (fst (clampToZone x y (getZoneForTeam t)))
    (snd (clampToZone x y (getZoneForTeam t))).
Proof.
  assert (Y : 10 <= JS.Clamp y 10 690 /\ JS.Clamp y 10 690 <= 690)
    by (apply Clamp_between; discriminate).
  destruct t.
  - change (clampToZone x y (getZoneForTeam attacker))
      with (JS.Clamp x 8 352, JS.Clamp y 10 690).
    cbn [fst snd]. split; [|exact Y]. apply Clamp_between. discriminate.
  - change (clampToZone x y (getZoneForTeam defender))
      with (JS.Clamp x 488 1192, JS.Clamp y 10 690).
    cbn [fst snd]. split; [|exact Y]. apply Clamp_between. discriminate.
Qed.

Lemma insideZone_pointInZone (t : Team) (x y : Q) :
  Notions.insideZone t x y -> pointInZone x y (getZoneForTeam t) = true.
Proof.
  intros [Hx Hy]. apply pointInZone_spec. destruct t; split; lra.
Qed.

Lemma teamUnits_cons (t : Team) (p : DeployPack) (ps : list DeployPack) :
  Notions.teamUnits t (p :: ps)
  = if Team_eqb (team p) t then size p + Notions.teamUnits t ps
    else Notions.teamUnits t ps.
Proof. reflexivity. Qed.

Lemma teamCount_sum (t : Team) (ps : list DeployPack) :
  forall acc : Q,
    fold_left
      (fun count pack =>
         if Team_eqb (team pack) t then JS.add count (size pack) else count)
      ps acc
    == acc + Notions.teamUnits t ps.
Proof.
  induction ps as [|p ps IH]; intro acc; cbn [fold_left].
  - change (Notions.teamUnits t []) with 0. ring.
  - rewrite teamUnits_cons.
    destruct (Team_eqb (team p) t).
    + rewrite IH, add_correct. ring.
    + apply IH.
Qed.

Lemma getTeamUnitCount_sum (dm : State) (t : Team) :
  getTeamUnitCount dm t == Notions.teamUnits t (packs dm).
Proof.
  unfold getTeamUnitCount. rewrite teamCount_sum. apply Qplus_0_l.
Qed.

Lemma teamUnits_app (t : Team) (ps qs : list DeployPack) :
  Notions.teamUnits t (ps ++ qs)
  == Notions.teamUnits t ps + Notions.teamUnits t qs.
Proof.
  induction ps as [|p ps IH]; cbn [app].
  - change (Notions.teamUnits t []) with 0. ring.
  - rewrite !teamUnits_cons.
    destruct (Team_eqb (team p) t); rewrite IH; ring.
Qed.

Lemma teamUnits_filter (t : Team) (f : DeployPack -> bool)
    (ps : list DeployPack) :
  (forall p, In p ps -> 0 <= size p) ->
  0 <= Notions.teamUnits t (filter f ps)
  /\ Notions.teamUnits t (filter f ps) <= Notions.teamUnits t ps.
Proof.
  induction ps as [|p ps IH]; intro H; cbn [filter].
  - split; apply Qle_refl.
  - assert (Hp : 0 <= size p) by (apply H; left; reflexivity).
    destruct IH as [I0 I1]; [intros q Hq; apply H; right; exact Hq|].
    destruct (f p); rewrite !teamUnits_cons;
      destruct (Team_eqb (team p) t); split; lra.
Qed.

Lemma teamUnits_mutate (t : Team) (i : Z) (f : DeployPack -> DeployPack)
    (ps : list DeployPack) :
  (forall p, team (f p) = team p /\ size (f p) = size p) ->
  Notions.teamUnits t (mutate i f ps) = Notions.teamUnits t ps.
Proof.
  intro H. induction ps as [|p ps IH]; [reflexivity|].
  unfold mutate. cbn [map]. fold (mutate i f ps).
  rewrite !teamUnits_cons, IH.
  destruct (id p =? i)%Z; [|reflexivity].
  destruct (H p) as [-> ->]. reflexivity.
Qed.

Lemma mutate_ids (i : Z) (f : DeployPack -> DeployPack)
    (ps : list DeployPack) :
  (forall p, id (f p) = id p) -> map id (mutate i f ps) = map id ps.
Proof.
  intro H. unfold mutate. rewrite map_map. apply map_ext.
  intro p. destruct (id p =? i)%Z; [apply H | reflexivity].
Qed.

Lemma mutate_In (i : Z) (f : DeployPack -> DeployPack)
    (ps : list DeployPack) (q : DeployPack) :
  In q (mutate i f ps) ->
  exists p, In p ps
            /\ ((id p = i /\ q = f p) \/ (id p <> i /\ q = p)).
Proof.
  unfold mutate. intro H. apply in_map_iff in H.
  destruct H as (p & E & Hp). exists p. split; [exact Hp|].
  destruct (id p =? i)%Z eqn:B.
  - apply Z.eqb_eq in B. left. auto.
  - apply Z.eqb_neq in B. right. auto.
Qed.

Lemma mutate_keeps (i : Z) (f : DeployPack -> DeployPack)
    (ps : list DeployPack) (p : DeployPack) :
  (forall q, id (f q) = id q) ->
  In p ps -> exists q, In q (mutate i f ps) /\ id q = id p.
Proof.
  intros H Hp.
  exists (if (id p =? i)%Z then f p else p). split.
  - unfold mutate. apply in_map_iff. exists p. auto.
  - destruct (id p =? i)%Z; [apply H | reflexivity].
Qed.

Lemma ids_determine (ps : list DeployPack) (p q : DeployPack) :
  NoDup (map id ps) -> In p ps -> In q ps -> id p = id q -> p = q.
Proof.
  induction ps as [|a ps IH]; intros N Hp Hq E; [destruct Hp|].
  cbn [map] in N. inversion N as [|? ? Na Nd]; subst.
  destruct Hp as [<-|Hp], Hq as [<-|Hq].
  - reflexivity.
  - contradiction Na. rewrite E. apply in_map. exact Hq.
  - contradiction Na. rewrite <- E. apply in_map. exact Hp.
  - apply IH; assumption.
Qed.

Lemma distinct_filter (f : DeployPack -> bool) (ps : list DeployPack) :
  NoDup (map id ps) -> NoDup (map id (filter f ps)).
Proof.
  induction ps as [|a ps IH]; intro N; cbn [filter map] in *; [exact N|].
  inversion N as [|? ? Na Nd]; subst.
  destruct (f a); cbn [map]; [|apply IH; exact Nd].
  constructor; [|apply IH; exact Nd].
  intro H. apply Na. apply in_map_iff in H. destruct H as (q & E & Hq).
  apply filter_In in Hq. rewrite <- E. apply in_map. apply Hq.
Qed.

Lemma distinct_snoc (ps : list DeployPack) (p : DeployPack) :
  NoDup (map id ps) -> ~ In (id p) (map id ps) ->
  NoDup (map id (ps ++ [p])).
Proof.
  induction ps as [|a ps IH]; intros N F; cbn [app map] in *.
  - constructor; [intros [] | constructor].
  - inversion N as [|? ? Na Nd]; subst.
    constructor.
    + rewrite map_app. intro H. apply in_app_or in H.
      destruct H as [H|[H|[]]]; [exact (Na H)|].
      apply F. left. symmetry. exact H.
    + apply IH; [exact Nd|]. intro H. apply F. right. exact H.
Qed.

Lemma mapSet_fresh (p : DeployPack) (ps : list DeployPack) :
  (forall q, In q ps -> id q <> id p) -> mapSet p ps = ps ++ [p].
Proof.
  induction ps as [|a ps IH]; intro F; cbn [mapSet app]; [reflexivity|].
  destruct (id a =? id p)%Z eqn:E.
  - apply Z.eqb_eq in E. exfalso. apply (F a); [left; reflexivity | exact E].
  - rewrite IH; [reflexivity|]. intros q Hq. apply F. right. exact Hq.
Qed.

Lemma mapGet_In (i : Z) (ps : list DeployPack) (p : DeployPack) :
  mapGet i ps = Some p -> In p ps /\ id p = i.
Proof.
  unfold mapGet. intro H. apply find_some in H. destruct H as [Hp E].
  apply Z.eqb_eq in E. auto.
Qed.

Lemma mapGet_present (ps : list DeployPack) (p : DeployPack) :
  NoDup (map id ps) -> In p ps -> mapGet (id p) ps = Some p.
Proof.
  intros N Hp. unfold mapGet.
  destruct (find (fun q => (id q =? id p)%Z) ps) as [q|] eqn:F.
  - apply find_some in F. destruct F as [Hq E]. apply Z.eqb_eq in E.
    rewrite (ids_determine ps q p N Hq Hp E). reflexivity.
  - pose proof (find_none _ _ F p Hp) as E. cbn in E.
    rewrite Z.eqb_refl in E. discriminate.
Qed.

Lemma getPackFromObject_In (dm : State) (o : option Z) (p : DeployPack) :
  getPackFromObject dm o = Some p -> In p (packs dm) /\ o = Some (id p).
Proof.
  unfold getPackFromObject. destruct o as [i|]; [|discriminate].
  destruct (i =? 0)%Z; [discriminate|]. intro H.
  apply mapGet_In in H. destruct H as [Hp <-]. auto.
Qed.

Lemma updateRangeIndicator_same (dm : State) (p : DeployPack) :
  packs (updateRangeIndicator dm p) = packs dm
  /\ nextPackId (updateRangeIndicator dm p) = nextPackId dm
  /\ armingMode (updateRangeIndicator dm p) = armingMode dm
  /\ warMachineToArm (updateRangeIndicator dm p) = warMachineToArm dm
  /\ selectedPackId (updateRangeIndicator dm p) = selectedPackId dm.
Proof.
  unfold updateRangeIndicator.
  destruct (rangeIndicator dm); [|auto].
  destruct (isWarMachine (type p) && _); cbn; auto.
Qed.

Lemma catalogued_type (type : UnitType) (stats : UnitRepository.CombatStats) :
  UnitRepository.unitCombatStats type = Some stats ->
  isWarMachine type = false.
Proof. destruct type; [reflexivity | reflexivity | discriminate]. Qed.

Lemma soundPack_size (next : Z) (p : DeployPack) :
  Notions.soundPack next p -> 0 <= size p.
Proof.
  intros (_ & _ & _ & S & _). rewrite S.
  destruct (isHeroType (type p)); discriminate.
Qed.

(** The pack [spawnPack] makes when it makes one. *)
Lemma spawnPack_Return (dm dm' : State) (x y : Q) (t : Team)
    (ty : UnitType) :
  spawnPack dm x y t ty = Return dm' ->
  dm' = dm
  \/ exists stats pack,
       UnitRepository.unitCombatStats ty = Some stats
       /\ pointInZone x y (getZoneForTeam t) = true
       /\ getTeamUnitCount dm t
          + (if isHeroType ty || isWarMachine ty then 1 else PACK_SIZE)
          <= MAX_UNITS
       /\ dm' = mkState (mapSet pack (packs dm)) (nextPackId dm + 1)
                  (deployTeam dm) (deployUnitType dm) (armingMode dm)
                  (warMachineToArm dm) (selectedPackId dm)
                  (rangeIndicator dm)
       /\ id pack = nextPackId dm /\ team pack = t /\ type pack = ty
       /\ size pack = (if isHeroType ty || isWarMachine ty then 1
                       else PACK_SIZE)
       /\ armedWarMachine pack = None
       /\ Phaser.x (sprite pack) = fst (clampToZone x y (getZoneForTeam t))
       /\ Phaser.y (sprite pack) = snd (clampToZone x y (getZoneForTeam t))
       /\ range pack = CombatRules.range (CombatRules.deriveBattleStats stats)
       /\ isRanged pack
          = CombatRules.isRanged (CombatRules.deriveBattleStats stats).
Proof.
  unfold spawnPack.
  destruct (pointInZone x y (getZoneForTeam t)) eqn:Zn; cbn [negb];
    [|intro E; inversion E; auto].
  destruct (JS.gt _ MAX_UNITS) eqn:G; [intro E; inversion E; auto|].
  apply gt_false in G. rewrite add_correct in G.
  destruct (clampToZone x y (getZoneForTeam t)) as [packX packY] eqn:Cz.
  unfold createPack.
  destruct (UnitRepository.unitCombatStats ty) as [stats|] eqn:Es;
    cbn [bind]; [|discriminate].
  intro E. inversion E. clear E. right.
  eexists stats, _. split; [reflexivity|]. split; [reflexivity|].
  split; [exact G|]. split; [reflexivity|].
  cbn. repeat split; reflexivity.
Qed.

Lemma invariant_empty (dm : State) :
  packs dm = [] -> (1 <= nextPackId dm)%Z ->
  armingMode dm = false -> warMachineToArm dm = None ->
  selectedPackId dm = None ->
  Notions.deploymentInvariant dm.
Proof.
  intros P N A W S. constructor; rewrite ?P.
  - constructor.
  - exact N.
  - intros p [].
  - auto.
  - intro t. discriminate.
  - intros i E. congruence.
Qed.

Lemma invariant_same (dm dm' : State) :
  Notions.deploymentInvariant dm ->
  packs dm' = packs dm -> nextPackId dm' = nextPackId dm ->
  armingMode dm' = armingMode dm ->
  warMachineToArm dm' = warMachineToArm dm ->
  (forall i, selectedPackId dm' = Some i ->
             exists p, In p (packs dm) /\ id p = i) ->
  Notions.deploymentInvariant dm'.
Proof.
  intros [D N P A C S] Ep En Ea Ew Hs.
  constructor; rewrite ?Ep, ?En, ?Ea, ?Ew; assumption.
Qed.

Lemma selectPack_invariant (dm : State) (p : DeployPack) :
  Notions.deploymentInvariant dm -> In p (packs dm) ->
  Notions.deploymentInvariant (selectPack dm p).
Proof.
  intros I Hp. unfold selectPack.
  match goal with |- context [updateRangeIndicator ?d p] =>
    destruct (updateRangeIndicator_same d p) as (E1 & E2 & E3 & E4 & E5)
  end.
  apply (invariant_same dm); try (cbn in *; congruence).
  intros i Hi. rewrite E5 in Hi. cbn in Hi. inversion Hi; subst.
  exists p. auto.
Qed.

Lemma clearSelection_invariant (dm : State) :
  Notions.deploymentInvariant dm ->
  Notions.deploymentInvariant (clearSelection dm).
Proof.
  intro I. apply (invariant_same dm); try reflexivity; [exact I|].
  intros i Hi. discriminate.
Qed.

Lemma exitArmingMode_invariant (dm : State) :
  Notions.deploymentInvariant dm ->
  Notions.deploymentInvariant (exitArmingMode dm).
Proof.
  intro I. destruct (Notions.notArming dm I) as [A W].
  apply (invariant_same dm); try exact I; unfold exitArmingMode;
    rewrite ?W; cbn; try congruence.
  apply (Notions.selectionValid dm I).
Qed.

Lemma removePack_invariant (dm : State) (pack : DeployPack) :
  Notions.deploymentInvariant dm ->
  Notions.deploymentInvariant (removePack dm pack).
Proof.
  intro I. destruct (Notions.notArming dm I) as [A W].
  unfold removePack.
  set (dm1 := if sameId (selectedPackId dm) (id pack)
              then clearSelection dm else dm).
  assert (P1 : packs dm1 = packs dm) by (subst dm1; destruct (sameId _ _); reflexivity).
  assert (N1 : nextPackId dm1 = nextPackId dm)
    by (subst dm1; destruct (sameId _ _); reflexivity).
  assert (A1 : armingMode dm1 = false)
    by (subst dm1; destruct (sameId _ _); exact A).
  assert (W1 : warMachineToArm dm1 = None)
    by (subst dm1; destruct (sameId _ _); exact W).
  rewrite W1. cbn [sameId].
  destruct I as [D N P _ C S].
  constructor; cbn [packs nextPackId armingMode warMachineToArm
                    selectedPackId set_packs]; rewrite ?P1, ?N1.
  - apply distinct_filter. exact D.
  - exact N.
  - intros p Hp. apply P. apply filter_In in Hp. apply Hp.
  - auto.
  - intro t. unfold mapDelete.
    destruct (teamUnits_filter t (fun q => negb (id q =? id pack)%Z)
                (packs dm)) as [_ L].
    { intros p Hp. apply (soundPack_size _ _ (P p Hp)). }
    specialize (C t). lra.
  - intros i Hi.
    assert (Sel : selectedPackId dm = Some i /\ i <> id pack).
    { subst dm1. destruct (sameId (selectedPackId dm) (id pack)) eqn:B;
        [discriminate|].
      split; [exact Hi|]. rewrite Hi in B. cbn in B.
      apply Z.eqb_neq in B. exact B. }
    destruct Sel as [Sel Ne]. destruct (S i Sel) as (p & Hp & E).
    exists p. split; [|exact E]. unfold mapDelete. apply filter_In.
    split; [exact Hp|]. apply negb_true_iff. apply Z.eqb_neq. congruence.
Qed.

Lemma onDrag_invariant (dm : State) (o : option Z) (dragX dragY : Q) :
  Notions.deploymentInvariant dm ->
  Notions.deploymentInvariant (onDrag dm deploy o dragX dragY).
Proof.
  intro I. unfold onDrag.
  destruct (getPackFromObject dm o) as [pack|] eqn:G; [|exact I].
  apply getPackFromObject_In in G. destruct G as [Hpack _].
  pose proof (clampToZone_inside (team pack) dragX dragY) as Zn.
  destruct (clampToZone dragX dragY (getZoneForTeam (team pack)))
    as [cx cy]. cbn [fst snd] in Zn.
  set (moved := fun p : DeployPack =>
                  set_sprite p (Phaser.setPosition (sprite p) cx cy)).
  set (dm1 := set_packs dm (mutate (id pack) moved (packs dm))).
  assert (I1 : Notions.deploymentInvariant dm1).
  { destruct I as [D N P A C S].
    constructor; subst dm1;
      cbn [packs nextPackId armingMode warMachineToArm selectedPackId
           set_packs].
    - rewrite mutate_ids by reflexivity. exact D.
    - exact N.
    - intros q Hq. apply mutate_In in Hq.
      destruct Hq as (p & Hp & [[E ->]|[_ ->]]); [|apply P; exact Hp].
      assert (p = pack) by (apply (ids_determine (packs dm)); assumption).
      subst p. destruct (P pack Hpack) as (Pi & Pw & Pa & Ps & _).
      split; [exact Pi|]. split; [exact Pw|]. split; [exact Pa|].
      split; [exact Ps | exact Zn].
    - exact A.
    - intro t. rewrite teamUnits_mutate by (intro; split; reflexivity).
      apply C.
    - intros i Hi. destruct (S i Hi) as (p & Hp & E).
      destruct (mutate_keeps (id pack) moved (packs dm) p) as (q & Hq & Eq);
        [reflexivity | exact Hp |].
      exists q. split; [exact Hq | congruence]. }
  destruct (sameId (selectedPackId dm1) (id pack)); [|exact I1].
  destruct (updateRangeIndicator_same dm1 (moved pack))
    as (E1 & E2 & E3 & E4 & E5).
  apply (invariant_same dm1); try assumption.
  intros i Hi. apply (Notions.selectionValid dm1 I1 i).
  rewrite <- E5. exact Hi.
Qed.

Lemma spawnPack_invariant (dm dm' : State) (x y : Q) (t : Team)
    (ty : UnitType) :
  Notions.deploymentInvariant dm ->
  spawnPack dm x y t ty = Return dm' ->
  Notions.deploymentInvariant dm'.
Proof.
  intros I E. apply spawnPack_Return in E.
  destruct E as [->|(stats & pack & Es & Zn & Cap & -> & Pid & Pt & Pty & Psz
                     & Pa & Px & Py & _)]; [exact I|].
  pose proof (catalogued_type ty stats Es) as Wm.
  rewrite Wm, orb_false_r in Psz, Cap.
  destruct I as [D N P A C S].
  assert (Fresh : forall q, In q (packs dm) -> id q <> id pack).
  { intros q Hq. destruct (P q Hq) as (Qi & _). lia. }
  rewrite (mapSet_fresh pack (packs dm) Fresh).
  constructor; cbn [packs nextPackId armingMode warMachineToArm
                    selectedPackId].
  - apply distinct_snoc; [exact D|]. intro H. apply in_map_iff in H.
    destruct H as (q & Eq & Hq). apply (Fresh q Hq Eq).
  - lia.
  - intros q Hq. apply in_app_or in Hq. destruct Hq as [Hq|[<-|[]]].
    + destruct (P q Hq) as (Qi & Qr). split; [lia | exact Qr].
    + split; [lia|]. split; [rewrite Pty; exact Wm|].
      split; [exact Pa|]. split; [rewrite Pty; exact Psz|].
      rewrite Pt, Px, Py. apply clampToZone_inside.
  - exact A.
  - intro t'. rewrite teamUnits_app, teamUnits_cons.
    change (Notions.teamUnits t' []) with 0. rewrite Pt, Psz.
    destruct (Team_eqb t t') eqn:B.
    + assert (t = t') by (destruct t, t'; try discriminate; reflexivity).
      subst t'. rewrite getTeamUnitCount_sum in Cap.
      unfold MAX_UNITS, PACK_SIZE in *.
      destruct (isHeroType ty); lra.
    + specialize (C t'). lra.
  - intros i Hi. destruct (S i Hi) as (p & Hp & Ep).
    exists p. split; [apply in_or_app; left; exact Hp | exact Ep].
Qed.

Lemma onGameObjectDown_invariant (dm : State) (o : option Z) (right : bool) :
  Notions.deploymentInvariant dm ->
  Notions.deploymentInvariant (fst (onGameObjectDown dm deploy o right)).
Proof.
  intro I. unfold onGameObjectDown.
  destruct (getPackFromObject dm o) as [pack|] eqn:G; [|exact I].
  apply getPackFromObject_In in G. destruct G as [Hpack _].
  destruct right; cbn [fst]; [apply removePack_invariant; exact I|].
  destruct (Notions.notArming dm I) as [A W]. rewrite A.
  destruct (Notions.packsSound dm I pack Hpack) as (_ & Wm & _).
  rewrite Wm. cbn [andb fst]. apply selectPack_invariant; assumption.
Qed.

Lemma onDragStart_invariant (dm : State) (o : option Z) :
  Notions.deploymentInvariant dm ->
  Notions.deploymentInvariant (onDragStart dm deploy o).
Proof.
  intro I. unfold onDragStart.
  destruct (getPackFromObject dm o) as [pack|] eqn:G; [|exact I].
  apply getPackFromObject_In in G. destruct G as [Hpack _].
  destruct (Notions.notArming dm I) as [A W]. rewrite W. cbn [sameId].
  apply selectPack_invariant; assumption.
Qed.

(** Every deployment the class can be brought to keeps the invariant. *)
Lemma reachable_invariant (dm : State) :
  Notions.reachable dm -> Notions.deploymentInvariant dm.
Proof.
  induction 1 as [ | dm t R I | dm ty R I | dm R I | dm x y t ty dm' R I E
                   | dm R I | dm R I | dm o right R I | dm o R I
                   | dm o dx dy R I | dm R I | dm R I | S create dm s R I ].
  - apply invariant_empty; try reflexivity; cbn; lia.
  - apply (invariant_same dm); try reflexivity; [exact I|].
    apply (Notions.selectionValid dm I).
  - apply (invariant_same dm); try reflexivity; [exact I|].
    apply (Notions.selectionValid dm I).
  - apply (invariant_same dm); try reflexivity; [exact I|].
    apply (Notions.selectionValid dm I).
  - apply (spawnPack_invariant dm dm' x y t ty I E).
  - apply clearSelection_invariant. exact I.
  - apply exitArmingMode_invariant. exact I.
  - apply onGameObjectDown_invariant. exact I.
  - apply onDragStart_invariant. exact I.
  - apply onDrag_invariant. exact I.
  - apply invariant_empty; try reflexivity; cbn; lia.
  - destruct (Notions.notArming dm I) as [A W].
    apply invariant_empty; try reflexivity; try assumption.
    apply (Notions.nextPositive dm I).
  - destruct (Notions.notArming dm I) as [A W].
    apply invariant_empty; try reflexivity; try assumption.
    apply (Notions.nextPositive dm I).
Qed.

End DeploymentInvariant.

Section ReachableDeployments.
Import BattleConfig DeployManager.

Lemma afterOneClick_reachable : Notions.reachable Notions.afterOneClick.
Proof.
  apply (Notions.reach_spawnPack DeployManager.new 100 100 attacker
           (Regular WARRIOR)); [apply Notions.reach_new | reflexivity].
Qed.

Lemma afterTwoClicks_reachable : Notions.reachable Notions.afterTwoClicks.
Proof.
  apply (Notions.reach_spawnPack Notions.afterOneClick 700 300 defender
           (Regular DWARF)); [apply afterOneClick_reachable | reflexivity].
Qed.

(** X13: however the deployment is reached, neither team has more than
    [MAX_UNITS] units deployed. *)
Theorem deployed_units_within_capacity (dm : State) (t : Team) :
  Notions.reachable dm -> getTeamUnitCount dm t <= MAX_UNITS.
Proof.
  intro R. rewrite getTeamUnitCount_sum.
  apply (Notions.withinCapacity dm (reachable_invariant dm R)).
Qed.

Lemma deployed_units_within_capacity_witness :
  Notions.reachable Notions.afterTwoClicks
  /\ getTeamUnitCount Notions.afterTwoClicks defender <= MAX_UNITS.
Proof.
  split; [apply afterTwoClicks_reachable|].
  apply (deployed_units_within_capacity Notions.afterTwoClicks defender).
  apply afterTwoClicks_reachable.
Defined.

(** X14: however the deployment is reached, by placing or by dragging, every
    pack is anchored in the zone of its team, 8 or more from the left and
    the right edge of the zone and 10 or more from the top and the bottom of
    the map. *)
Theorem packs_stay_in_their_zone (dm : State) (p : DeployPack) :
  Notions.reachable dm -> In p (getPacks dm) ->
  pointInZone (Phaser.x (sprite p)) (Phaser.y (sprite p))
    (getZoneForTeam (team p)) = true
  /\ BattleConfig.x (getZoneForTeam (team p)) + 8 <= Phaser.x (sprite p)
  /\ Phaser.x (sprite p)
     <= BattleConfig.x (getZoneForTeam (team p))
        + width (getZoneForTeam (team p)) - 8
  /\ 10 <= Phaser.y (sprite p) /\ Phaser.y (sprite p) <= MAP_HEIGHT - 10.
Proof.
  intros R Hp.
  destruct (Notions.packsSound dm (reachable_invariant dm R) p Hp)
    as (_ & _ & _ & _ & Z).
  split; [apply insideZone_pointInZone; exact Z|].
  destruct Z as [Zx Zy]. unfold MAP_HEIGHT.
  destruct (team p); cbn in *; repeat split; lra.
Qed.

Lemma packs_stay_in_their_zone_witness :
  Notions.reachable Notions.afterOneClick
  /\ (forall p, In p (getPacks Notions.afterOneClick) ->
       pointInZone (Phaser.x (sprite p)) (Phaser.y (sprite p))
         (getZoneForTeam (team p)) = true).
Proof.
  split; [apply afterOneClick_reachable|].
  intros p Hp.
  apply (packs_stay_in_their_zone Notions.afterOneClick p
           afterOneClick_reachable Hp).
Defined.

(** X15: however the deployment is reached, the ids of the packs are distinct,
    are 1 or more and below [nextPackId], and the game object of a pack
    leads back to that pack: the test for a missing pack id never hides
    one. *)
Theorem pack_ids_are_keys (dm : State) (p : DeployPack) :
  Notions.reachable dm -> In p (getPacks dm) ->
  (1 <= id p < nextPackId dm)%Z
  /\ getPackFromObject dm (Some (id p)) = Some p
  /\ (forall q, In q (getPacks dm) -> id q = id p -> q = p).
Proof.
  intros R Hp. pose proof (reachable_invariant dm R) as I.
  destruct (Notions.packsSound dm I p Hp) as (Pi & _).
  split; [exact Pi|]. split.
  - unfold getPackFromObject.
    destruct (id p =? 0)%Z eqn:E; [apply Z.eqb_eq in E; lia|].
    apply mapGet_present; [apply (Notions.idsDistinct dm I) | exact Hp].
  - intros q Hq E.
    apply (ids_determine (packs dm) q p (Notions.idsDistinct dm I) Hq Hp E).
Qed.

Lemma pack_ids_are_keys_witness :
  Notions.reachable Notions.afterTwoClicks
  /\ (forall p, In p (getPacks Notions.afterTwoClicks) ->
       getPackFromObject Notions.afterTwoClicks (Some (id p)) = Some p).
Proof.
  split; [apply afterTwoClicks_reachable|].
  intros p Hp.
  apply (pack_ids_are_keys Notions.afterTwoClicks p
           afterTwoClicks_reachable Hp).
Defined.

(** X16: with the catalogue of unitRepository.ts no war machine is ever
    deployed: placing one throws before the pack is made, so that however
    the deployment is reached no pack is a war machine, none is armed, and
    arming mode is never entered. *)
Theorem no_war_machine_is_deployed (dm : State) :
  Notions.reachable dm ->
  (forall x y t w,
     pointInZone x y (getZoneForTeam t) = true ->
     getTeamUnitCount dm t + 1 <= MAX_UNITS ->
     spawnPack dm x y t (WarMachine w) = Throw TypeError)
  /\ armingMode dm = false
  /\ warMachineToArm dm = None
  /\ (forall p, In p (getPacks dm) ->
        isWarMachine (type p) = false /\ armedWarMachine p = None).
Proof.
  intro R. pose proof (reachable_invariant dm R) as I.
  split.
  { intros x y t w Zn Cap. unfold spawnPack. rewrite Zn. cbn [negb].
    cbn [isHeroType isWarMachine orb].
    assert (G : JS.gt (JS.add (getTeamUnitCount dm t) 1) MAX_UNITS = false).
    { apply gt_false. rewrite add_correct. exact Cap. }
    rewrite G.
    destruct (clampToZone x y (getZoneForTeam t)) as [packX packY].
    reflexivity. }
  destruct (Notions.notArming dm I) as [A W].
  split; [exact A|]. split; [exact W|].
  intros p Hp. destruct (Notions.packsSound dm I p Hp) as (_ & Wm & Ar & _).
  auto.
Qed.

Lemma no_war_machine_is_deployed_witness :
  Notions.reachable Notions.afterOneClick
  /\ spawnPack Notions.afterOneClick 200 200 attacker (WarMachine CATAPULT)
     = Throw TypeError
  /\ armingMode Notions.afterOneClick = false.
Proof.
  split; [apply afterOneClick_reachable|].
  destruct (no_war_machine_is_deployed Notions.afterOneClick
              afterOneClick_reachable) as (T & A & _).
  split; [|exact A].
  apply T; [reflexivity | discriminate].
Defined.

(** X17: however the deployment is reached, a selected pack id is the id of a
    pack of the map: removing the selected pack, resetting and starting the
    battle clear the selection. *)
Theorem selection_names_a_pack (dm : State) (i : Z) :
  Notions.reachable dm -> selectedPackId dm = Some i ->
  exists p, In p (getPacks dm) /\ getPackFromObject dm (Some i) = Some p.
Proof.
  intros R Sel. pose proof (reachable_invariant dm R) as I.
  destruct (Notions.selectionValid dm I i Sel) as (p & Hp & <-).
  exists p. split; [exact Hp|].
  destruct (Notions.packsSound dm I p Hp) as (Pi & _).
  unfold getPackFromObject.
  destruct (id p =? 0)%Z eqn:E; [apply Z.eqb_eq in E; lia|].
  apply mapGet_present; [apply (Notions.idsDistinct dm I) | exact Hp].
Qed.

Lemma afterSelecting_reachable : Notions.reachable Notions.afterSelecting.
Proof.
  apply (Notions.reach_gameObjectDown Notions.afterTwoClicks (Some 2%Z) false).
  apply afterTwoClicks_reachable.
Qed.

Lemma selection_names_a_pack_witness :
  Notions.reachable Notions.afterSelecting
  /\ selectedPackId Notions.afterSelecting = Some 2%Z
  /\ exists p,
       In p (getPacks Notions.afterSelecting)
       /\ getPackFromObject Notions.afterSelecting (Some 2%Z) = Some p.
Proof.
  split; [apply afterSelecting_reachable|]. split; [reflexivity|].
  apply (selection_names_a_pack Notions.afterSelecting 2
           afterSelecting_reachable eq_refl).
Defined.

Lemma filter_all (f : DeployPack -> bool) (ps : list DeployPack) :
  (forall q, In q ps -> f q = true) -> filter f ps = ps.
Proof.
  induction ps as [|a ps IH]; intro H; cbn [filter]; [reflexivity|].
  rewrite (H a) by (left; reflexivity).
  rewrite IH; [reflexivity|]. intros q Hq. apply H. right. exact Hq.
Qed.

(** X18: a click inside the zone of a team with room for the units, for a type
    of the catalogue, adds one pack at the end of the map: it has the next
    pack id, 1 unit for a hero and 20 otherwise, and is anchored at the
    clicked point clamped into the zone; the count of the team grows by its
    size. *)
Theorem spawnPack_adds_pack (dm : State) (x y : Q) (t : Team)
    (ty : UnitType) (stats : UnitRepository.CombatStats) :
  Notions.reachable dm ->
  pointInZone x y (getZoneForTeam t) = true ->
  UnitRepository.unitCombatStats ty = Some stats ->
  getTeamUnitCount dm t + (if isHeroType ty then 1 else PACK_SIZE)
  <= MAX_UNITS ->
  exists pack dm',
    spawnPack dm x y t ty = Return dm'
    /\ getPacks dm' = getPacks dm ++ [pack]
    /\ id pack = nextPackId dm
    /\ nextPackId dm' = (nextPackId dm + 1)%Z
    /\ team pack = t /\ type pack = ty
    /\ size pack = (if isHeroType ty then 1 else PACK_SIZE)
    /\ (Phaser.x (sprite pack), Phaser.y (sprite pack))
       = clampToZone x y (getZoneForTeam t)
    /\ getTeamUnitCount dm' t == getTeamUnitCount dm t + size pack.
Proof.
  intros R Zn Es Cap. pose proof (reachable_invariant dm R) as I.
  pose proof (catalogued_type ty stats Es) as Wm.
  set (pack :=
         {| id := nextPackId dm; team := t; type := ty;
            size := if isHeroType ty then 1 else PACK_SIZE;
            sprite :=
              Phaser.circle (fst (clampToZone x y (getZoneForTeam t)))
                (snd (clampToZone x y (getZoneForTeam t)))
                (getPackRadius ty) (UnitVisuals.colorOf ty t) (95 # 100);
            range := CombatRules.range (CombatRules.deriveBattleStats stats);
            isRanged :=
              CombatRules.isRanged (CombatRules.deriveBattleStats stats);
            armedWarMachine := None |}).
  assert (E : spawnPack dm x y t ty
              = Return
                  (mkState (mapSet pack (packs dm)) (nextPackId dm + 1)
                     (deployTeam dm) (deployUnitType dm) (armingMode dm)
                     (warMachineToArm dm) (selectedPackId dm)
                     (rangeIndicator dm))).
  { unfold spawnPack. cbv zeta. rewrite Zn. cbn [negb].
    rewrite Wm, orb_false_r.
    match goal with |- context [JS.gt ?a ?b] =>
      assert (G : JS.gt a b = false)
        by (apply gt_false; rewrite add_correct; exact Cap);
      rewrite G
    end.
    subst pack.
    destruct (clampToZone x y (getZoneForTeam t)) as [packX packY].
    unfold createPack. rewrite Es. reflexivity. }
  assert (Fresh : mapSet pack (packs dm) = packs dm ++ [pack]).
  { apply mapSet_fresh. intros q Hq.
    destruct (Notions.packsSound dm I q Hq) as (Qi & _). cbn [id pack]. lia. }
  exists pack. eexists. split; [exact E|].
  cbn [getPacks packs nextPackId].
  split; [exact Fresh|].
  split; [reflexivity|]. split; [reflexivity|]. split; [reflexivity|].
  split; [reflexivity|]. split; [reflexivity|].
  split.
  { unfold pack. cbn [sprite Phaser.x Phaser.y Phaser.circle].
    symmetry. apply surjective_pairing. }
  rewrite !getTeamUnitCount_sum. cbn [packs]. rewrite Fresh.
  rewrite teamUnits_app, teamUnits_cons.
  change (Notions.teamUnits t []) with 0.
  change (team pack) with t.
  destruct t; cbn [Team_eqb]; ring.
Qed.

Lemma spawnPack_adds_pack_witness :
  Notions.reachable Notions.afterOneClick
  /\ pointInZone 700 300 (getZoneForTeam defender) = true
  /\ UnitRepository.unitCombatStats (Hero RANGER)
     = Some (UnitRepository.heroCombatStats RANGER)
  /\ exists pack dm',
       spawnPack Notions.afterOneClick 700 300 defender (Hero RANGER)
       = Return dm'
       /\ getPacks dm' = getPacks Notions.afterOneClick ++ [pack]
       /\ id pack = 2%Z /\ size pack = 1.
Proof.
  split; [apply afterOneClick_reachable|].
  split; [reflexivity|]. split; [reflexivity|].
  destruct (spawnPack_adds_pack Notions.afterOneClick 700 300 defender
              (Hero RANGER) (UnitRepository.heroCombatStats RANGER)
              afterOneClick_reachable eq_refl eq_refl)
    as (pack & dm' & E & P & Pi & _ & _ & _ & Ps & _).
  { discriminate. }
  exists pack, dm'. split; [exact E|]. split; [exact P|].
  split; [exact Pi | exact Ps].
Defined.

(** X19: a right click on the pack that was just placed takes the placement
    back: the packs are those before the click that placed it, and the
    change is reported. *)
Theorem right_click_undoes_spawn (dm dm' : State) (x y : Q) (t : Team)
    (ty : UnitType) (pack : DeployPack) :
  Notions.reachable dm ->
  spawnPack dm x y t ty = Return dm' ->
  getPacks dm' = getPacks dm ++ [pack] ->
  getPacks (fst (onGameObjectDown dm' deploy (Some (id pack)) true))
  = getPacks dm
  /\ snd (onGameObjectDown dm' deploy (Some (id pack)) true) = true.
Proof.
  intros R E P.
  assert (R' : Notions.reachable dm')
    by (apply (Notions.reach_spawnPack dm x y t ty dm' R E)).
  pose proof (reachable_invariant dm R) as I.
  pose proof (reachable_invariant dm' R') as I'.
  unfold getPacks in *.
  assert (Hp : In pack (packs dm'))
    by (rewrite P; apply in_or_app; right; left; reflexivity).
  assert (Fresh : forall q, In q (packs dm) -> id q <> id pack).
  { intros q Hq Eq.
    assert (Hq' : In q (packs dm'))
      by (rewrite P; apply in_or_app; left; exact Hq).
    pose proof (ids_determine (packs dm') q pack
                  (Notions.idsDistinct dm' I') Hq' Hp Eq) as ->.
    pose proof (Notions.idsDistinct dm' I') as N. rewrite P, map_app in N.
    apply NoDup_remove_2 in N. cbn [map] in N. apply N.
    rewrite app_nil_r. apply in_map. exact Hq. }
  destruct (Notions.packsSound dm' I' pack Hp) as (Pi & _).
  unfold onGameObjectDown, getPackFromObject.
  destruct (id pack =? 0)%Z eqn:E0; [apply Z.eqb_eq in E0; lia|].
  rewrite (mapGet_present (packs dm') pack (Notions.idsDistinct dm' I') Hp).
  cbn [fst snd]. split; [|reflexivity].
  unfold removePack.
  destruct (Notions.notArming dm' I') as [A W].
  assert (W1 : warMachineToArm
                 (if sameId (selectedPackId dm') (id pack)
                  then clearSelection dm' else dm') = None)
    by (destruct (sameId _ _); exact W).
  rewrite W1. cbn [sameId packs set_packs].
  assert (P1 : packs (if sameId (selectedPackId dm') (id pack)
                      then clearSelection dm' else dm') = packs dm')
    by (destruct (sameId _ _); reflexivity).
  rewrite P1, P. unfold mapDelete. rewrite filter_app. cbn [filter].
  rewrite Z.eqb_refl. cbn [negb]. rewrite app_nil_r.
  apply filter_all. intros q Hq. apply negb_true_iff. apply Z.eqb_neq.
  apply Fresh. exact Hq.
Qed.

Lemma right_click_undoes_spawn_witness :
  Notions.reachable Notions.afterOneClick
  /\ getPacks
       (fst (onGameObjectDown Notions.afterTwoClicks deploy (Some 2%Z) true))
     = getPacks Notions.afterOneClick.
Proof.
  split; [apply afterOneClick_reachable|].
  apply (right_click_undoes_spawn Notions.afterOneClick
           Notions.afterTwoClicks 700 300 defender (Regular DWARF)
           (DeployManager.mkDeployPack 2 defender (Regular DWARF) 20
              (Phaser.circle 700 300 11 (UnitVisuals.colorOf (Regular DWARF) defender)
                 (95 # 100))
              18 false None)
           afterOneClick_reachable); reflexivity.
Defined.

(** X20: every unit type has a colour of its own in [UNIT_TYPE_COLORS], so the
    team colour is never used: the colour of a pack or of a unit depends on
    its type alone, and two packs of one type on the two teams have the same
    colour. *)
Theorem team_colour_is_never_used (type : UnitType) (t t' : Team) :
  UnitVisuals.UNIT_TYPE_COLORS type <> None
  /\ UnitVisuals.colorOf type t = UnitVisuals.colorOf type t'.
Proof.
  unfold UnitVisuals.colorOf.
  destruct type as [r|h|w]; [destruct r | destruct h | destruct w];
    (split; [discriminate | reflexivity]).
Qed.

(** X21: the count of a team that [getTeamUnitCount] gives, the one the
    stats callback shows during deployment, is the count auto-resolve hands
    to the resolver for that team. *)
Theorem team_count_is_resolver_count (dm : State) (t : Team) :
  getTeamUnitCount dm t
  = BattleScene.sumSizes (filter (BattleScene.onTeam t) (getPacks dm)).
Proof.
  unfold getTeamUnitCount, BattleScene.sumSizes, getPacks.
  generalize (0 : JS.number).
  induction (packs dm) as [|p ps IH]; intro acc; cbn [fold_left filter];
    [reflexivity|].
  unfold BattleScene.onTeam at 1.
  destruct (Team_eqb (team p) t); cbn [fold_left]; apply IH.
Qed.

End ReachableDeployments.

Section ArmingSuccess.
Import BattleConfig DeployManager.

Lemma mutate_other (i : Z) (f : DeployPack -> DeployPack)
    (ps : list DeployPack) (q : DeployPack) :
  In q ps -> id q <> i -> In q (mutate i f ps).
Proof.
  intros Hq N. unfold mutate. apply in_map_iff. exists q.
  split; [|exact Hq].
  destruct (id q =? i)%Z eqn:E; [apply Z.eqb_eq in E; contradiction|].
  reflexivity.
Qed.

Lemma mutate_hit (i : Z) (f : DeployPack -> DeployPack)
    (ps : list DeployPack) (q : DeployPack) :
  In q ps -> id q = i -> In (f q) (mutate i f ps).
Proof.
  intros Hq E. unfold mutate. apply in_map_iff. exists q.
  split; [|exact Hq]. apply Z.eqb_eq in E. rewrite E. reflexivity.
Qed.

Lemma exitArmingMode_fields (dm : State) :
  armingMode (exitArmingMode dm) = false
  /\ warMachineToArm (exitArmingMode dm) = None
  /\ selectedPackId (exitArmingMode dm) = selectedPackId dm
  /\ map id (packs (exitArmingMode dm)) = map id (packs dm).
Proof.
  unfold exitArmingMode. cbn. repeat split.
  destruct (warMachineToArm dm); [|reflexivity].
  apply mutate_ids. reflexivity.
Qed.

(** What [removePack] does to the packs and to the arming mode. *)
Lemma removePack_packs (dm : State) (pack : DeployPack) :
  (forall q, In q (packs dm) -> id q <> id pack ->
             In q (packs (removePack dm pack)))
  /\ (forall q, In q (packs (removePack dm pack)) -> id q <> id pack)
  /\ (sameId (warMachineToArm dm) (id pack) = false ->
      warMachineToArm (removePack dm pack) = warMachineToArm dm
      /\ armingMode (removePack dm pack) = armingMode dm).
Proof.
  unfold removePack.
  set (dm1 := if sameId (selectedPackId dm) (id pack)
              then clearSelection dm else dm).
  assert (P1 : packs dm1 = packs dm)
    by (subst dm1; destruct (sameId _ _); reflexivity).
  assert (W1 : warMachineToArm dm1 = warMachineToArm dm)
    by (subst dm1; destruct (sameId _ _); reflexivity).
  assert (A1 : armingMode dm1 = armingMode dm)
    by (subst dm1; destruct (sameId _ _); reflexivity).
  rewrite W1.
  destruct (sameId (warMachineToArm dm) (id pack)) eqn:Sw.
  - cbn [packs set_packs warMachineToArm armingMode].
    split; [|split; [|discriminate]].
    + intros q Hq N. unfold mapDelete. apply filter_In. split.
      * unfold exitArmingMode. cbn [packs].
        destruct (warMachineToArm dm1) as [i|] eqn:Ew;
          [|rewrite P1; exact Hq].
        assert (Ew' : warMachineToArm dm = Some i) by congruence.
        rewrite Ew' in Sw. cbn in Sw.
        apply Z.eqb_eq in Sw. subst i.
        apply mutate_other; [rewrite P1; exact Hq | exact N].
      * apply negb_true_iff. apply Z.eqb_neq. exact N.
    + intros q Hq. unfold mapDelete in Hq. apply filter_In in Hq.
      destruct Hq as [_ B]. apply negb_true_iff in B.
      apply Z.eqb_neq in B. exact B.
  - cbn [packs set_packs warMachineToArm armingMode]. rewrite P1.
    split; [|split].
    + intros q Hq N. unfold mapDelete. apply filter_In. split; [exact Hq|].
      apply negb_true_iff. apply Z.eqb_neq. exact N.
    + intros q Hq. unfold mapDelete in Hq. apply filter_In in Hq.
      destruct Hq as [_ B]. apply negb_true_iff in B.
      apply Z.eqb_neq in B. exact B.
    + intros _. split; assumption.
Qed.

(** X22: an arming request with a pack of 20 or more units of a Regular type
    that has no range succeeds: the war machine gets the armed stats of that
    type, a range of 175 and the ranged flag and keeps its id, team, type
    and size, and the arming pack is gone from the map. *)
Theorem armWarMachine_arms (dm : State) (warMachine armingPack : DeployPack)
    (r : RegularUnitType) :
  type armingPack = Regular r ->
  UnitRepository.range (UnitRepository.regularCombatStats r) = None ->
  PACK_SIZE <= size armingPack ->
  id warMachine <> id armingPack ->
  In warMachine (getPacks dm) ->
  (exists armed,
     In armed (getPacks (armWarMachine dm warMachine armingPack))
     /\ id armed = id warMachine /\ team armed = team warMachine
     /\ type armed = type warMachine /\ size armed = size warMachine
     /\ armedWarMachine armed
        = Some (WarMachineArming.mkArmedWarMachine r
                  (WarMachineArming.calculateArmedWarMachineStats
                     (UnitRepository.regularCombatStats r)))
     /\ range armed = 175 /\ isRanged armed = true)
  /\ (forall q,
        In q (getPacks (armWarMachine dm warMachine armingPack)) ->
        id q <> id armingPack).
Proof.
  intros Ty Rg Sz Ne Hw. unfold getPacks in *. unfold armWarMachine.
  rewrite Ty, Rg.
  assert (L : JS.lt (size armingPack) PACK_SIZE = false)
    by (apply lt_false; exact Sz).
  rewrite L. cbv zeta.
  match goal with
  | |- context [mutate (id warMachine) ?f (packs dm)] => set (armed := f)
  end.
  set (dm1 := set_packs dm (mutate (id warMachine) armed (packs dm))).
  destruct (removePack_packs dm1 armingPack) as (Keep & Gone & _).
  match goal with
  | |- context [if ?c then updateRangeIndicator ?d ?p else ?d] =>
      assert (P : packs (if c then updateRangeIndicator d p else d)
                  = packs d)
        by (destruct c; [apply updateRangeIndicator_same | reflexivity]);
      rewrite P
  end.
  split; [|exact Gone].
  exists (armed warMachine). split.
  - apply Keep; [|exact Ne].
    subst dm1. cbn [packs set_packs]. apply mutate_hit; [exact Hw|].
    reflexivity.
  - subst armed. cbn. repeat split; reflexivity.
Qed.

Lemma armWarMachine_arms_witness :
  type Spec.warriors = Regular WARRIOR
  /\ UnitRepository.range (UnitRepository.regularCombatStats WARRIOR) = None
  /\ PACK_SIZE <= size Spec.warriors
  /\ id Spec.ballista <> id Spec.warriors
  /\ In Spec.ballista
       (getPacks (Spec.exampleDeployment [Spec.ballista; Spec.warriors]))
  /\ forall q,
       In q (getPacks
               (armWarMachine
                  (Spec.exampleDeployment [Spec.ballista; Spec.warriors])
                  Spec.ballista Spec.warriors)) ->
       id q <> id Spec.warriors.
Proof.
  assert (Sz : PACK_SIZE <= size Spec.warriors) by discriminate.
  assert (Ne : id Spec.ballista <> id Spec.warriors) by discriminate.
  assert (Hw : In Spec.ballista
                 (getPacks
                    (Spec.exampleDeployment [Spec.ballista; Spec.warriors])))
    by (left; reflexivity).
  split; [reflexivity|]. split; [reflexivity|]. split; [exact Sz|].
  split; [exact Ne|]. split; [exact Hw|].
  apply (armWarMachine_arms
           (Spec.exampleDeployment [Spec.ballista; Spec.warriors])
           Spec.ballista Spec.warriors WARRIOR eq_refl eq_refl Sz Ne Hw).
Defined.

Lemma armWarMachine_keeps_mode (dm : State) (warMachine armingPack : DeployPack) :
  sameId (warMachineToArm dm) (id armingPack) = false ->
  warMachineToArm (armWarMachine dm warMachine armingPack)
  = warMachineToArm dm.
Proof.
  intro Sw. unfold armWarMachine.
  destruct (type armingPack) as [r| |]; try reflexivity.
  destruct (match UnitRepository.range (UnitRepository.regularCombatStats r)
            with Some q => _ | None => false end); [reflexivity|].
  destruct (JS.lt (size armingPack) PACK_SIZE); [reflexivity|].
  cbv zeta.
  match goal with
  | |- context [mutate (id warMachine) ?f (packs dm)] => set (armed := f)
  end.
  set (dm1 := set_packs dm (mutate (id warMachine) armed (packs dm))).
  destruct (removePack_packs dm1 armingPack) as (_ & _ & Mode).
  destruct (Mode Sw) as [W _].
  match goal with
  | |- context [if ?c then updateRangeIndicator ?d ?p else ?d] =>
      destruct c; [|exact W];
      destruct (updateRangeIndicator_same d p) as (_ & _ & _ & E & _);
      rewrite E; exact W
  end.
Qed.

(** X23: in arming mode a left click on a pack other than the war machine ends
    arming mode and reports a change, whether the arming succeeded or not,
    and leaves the war machine with an outline of width 0: the outline that
    a successful arming has just given it does not outlast the click. *)
Theorem arming_click_clears_outline (dm : State) (w i : Z)
    (warMachine pack : DeployPack) :
  armingMode dm = true -> warMachineToArm dm = Some w ->
  mapGet w (packs dm) = Some warMachine ->
  getPackFromObject dm (Some i) = Some pack ->
  w <> i ->
  snd (onGameObjectDown dm deploy (Some i) false) = true
  /\ armingMode (fst (onGameObjectDown dm deploy (Some i) false)) = false
  /\ warMachineToArm (fst (onGameObjectDown dm deploy (Some i) false)) = None
  /\ forall q,
       In q (getPacks (fst (onGameObjectDown dm deploy (Some i) false))) ->
       id q = w ->
       Phaser.stroke (sprite q) = Some (Phaser.mkStroke 0 None 1).
Proof.
  intros A W G Gp Ne. unfold onGameObjectDown. rewrite Gp, A, W, G.
  cbn [fst snd].
  destruct (getPackFromObject_In dm (Some i) pack Gp) as [_ Ei].
  inversion Ei as [Ei']. clear Ei.
  assert (Sw : sameId (warMachineToArm dm) (id pack) = false).
  { rewrite W. cbn. apply Z.eqb_neq. congruence. }
  pose proof (armWarMachine_keeps_mode dm warMachine pack Sw) as K.
  rewrite W in K.
  split; [reflexivity|]. split; [reflexivity|]. split; [reflexivity|].
  intros q Hq Eq. unfold getPacks, exitArmingMode in Hq. cbn [packs] in Hq.
  rewrite K in Hq. apply mutate_In in Hq.
  destruct Hq as (p & _ & [[_ ->]|[N ->]]); [reflexivity | contradiction].
Qed.

Lemma arming_click_clears_outline_witness :
  armingMode Notions.armingDeployment = true
  /\ warMachineToArm Notions.armingDeployment = Some 1%Z
  /\ getPackFromObject Notions.armingDeployment (Some 2%Z)
     = Some Spec.warriors
  /\ 1%Z <> 2%Z
  /\ armingMode
       (fst (onGameObjectDown Notions.armingDeployment deploy (Some 2%Z)
               false))
     = false.
Proof.
  assert (Ne : 1%Z <> 2%Z) by discriminate.
  split; [reflexivity|]. split; [reflexivity|]. split; [reflexivity|].
  split; [exact Ne|].
  apply (arming_click_clears_outline Notions.armingDeployment 1 2
           (set_sprite Spec.ballista
              (Phaser.setStrokeStyle (sprite Spec.ballista) 3
                 (Some 0xffff00%Z) 1))
           Spec.warriors eq_refl eq_refl eq_refl eq_refl Ne).
Defined.

End ArmingSuccess.

(** ** The scene *)

Section SceneFacts.
Import BattleConfig BattleScene.

Lemma createUnit_adds (s : State) (x y : Q) (t : Team) (ty : UnitType)
    (armed : option WarMachineArming.ArmedWarMachine)
    (stats : UnitRepository.CombatStats) :
  UnitRepository.unitCombatStats ty = Some stats ->
  snd (createUnit s x y t ty armed) = []
  /\ phase (fst (createUnit s x y t ty armed)) = phase s
  /\ deployManager (fst (createUnit s x y t ty armed)) = deployManager s
  /\ onStats (fst (createUnit s x y t ty armed)) = onStats s
  /\ length (units (fst (createUnit s x y t ty armed)))
     = S (length (units s))
  /\ forall t',
       length (Notions.live t' (fst (createUnit s x y t ty armed)))
       = (length (Notions.live t' s) + (if Team_eqb t t' then 1 else 0))%nat.
Proof.
  intro E. unfold createUnit. rewrite E. cbn [fst snd phase deployManager
    onStats units attackers defenders].
  repeat split; try reflexivity.
  - rewrite length_app. cbn. lia.
  - intro t'. unfold Notions.live.
    destruct t, t'; cbn [Team_eqb attackers defenders];
      rewrite ?length_app; cbn; lia.
Qed.

Lemma spawnUnitsFrom_adds (ty : UnitType) (stats : UnitRepository.CombatStats)
    (t : Team) (cx cy minX maxX spacing columns : Q) (n : nat) :
  UnitRepository.unitCombatStats ty = Some stats ->
  forall (i : Q) (s : State),
    let r := spawnUnitsFrom n i s t ty cx cy minX maxX spacing columns in
    snd r = []
    /\ phase (fst r) = phase s
    /\ deployManager (fst r) = deployManager s
    /\ onStats (fst r) = onStats s
    /\ length (units (fst r)) = (length (units s) + n)%nat
    /\ forall t',
         length (Notions.live t' (fst r))
         = (length (Notions.live t' s) + (if Team_eqb t t' then n else 0))%nat.
Proof.
  intro E. induction n as [|n IH]; intros i s; cbn [spawnUnitsFrom].
  - cbn [fst snd]. repeat split; try reflexivity; try lia.
    intro t'. destruct (Team_eqb t t'); lia.
  - cbv zeta.
    match goal with |- context [createUnit s ?x ?y t ty None] =>
      destruct (createUnit_adds s x y t ty None stats E)
        as (O1 & P1 & D1 & S1 & U1 & L1);
      destruct (createUnit s x y t ty None) as [s1 out1]
    end.
    cbn [fst snd] in *.
    specialize (IH (JS.add i 1) s1). cbv zeta in IH.
    destruct (spawnUnitsFrom n (JS.add i 1) s1 t ty cx cy minX maxX spacing
                columns) as [s2 out2].
    cbn [fst snd] in *.
    destruct IH as (O2 & P2 & D2 & S2 & U2 & L2).
    subst out1 out2.
    repeat split; try congruence; try lia.
    intro t'. rewrite L2, L1. destruct (Team_eqb t t'); lia.
Qed.

Lemma simulate_created (fuel : nat) (cfg : SimulateBattle.SimulationConfig)
    (r : SimulateBattle.SimulationResult) :
  SimulateBattle.simulateBattle fuel cfg = Return r ->
  ((0 < SimulateBattle.remaining_attacker r)%nat ->
   exists stats,
     UnitRepository.unitCombatStats (SimulateBattle.attackerType cfg)
     = Some stats)
  /\ ((0 < SimulateBattle.remaining_defender r)%nat ->
      exists stats,
        UnitRepository.unitCombatStats (SimulateBattle.defenderType cfg)
        = Some stats).
Proof.
  unfold SimulateBattle.simulateBattle, SimulateBattle.simulateBattleCounting,
    SimulateBattle.createPack.
  intro E.
  destruct (SimulateBattle.createPackFrom (SimulateBattle.attackerType cfg)
              attacker _ 0 1 0) as [as0| |] eqn:Ea;
    cbn [bind] in E; try discriminate.
  destruct (SimulateBattle.createPackFrom (SimulateBattle.defenderType cfg)
              defender _ _ _ 0) as [ds0| |] eqn:Ed;
    cbn [bind] in E; try discriminate.
  destruct (SimulateBattle.while fuel _ _ _ 0) as [[st k]| |] eqn:Ew;
    cbn [bind] in E; try discriminate.
  cbn [fst] in E. inversion E; subst r. clear E.
  cbn [SimulateBattle.remaining_attacker SimulateBattle.remaining_defender].
  destruct (while_lengths _ _ _ _ _ _ _ Ew) as [La Ld].
  cbn [SimulateBattle.attackers SimulateBattle.defenders] in La, Ld.
  pose proof (createPackFrom_length _ _ _ _ _ _ _ Ea) as Na.
  pose proof (createPackFrom_length _ _ _ _ _ _ _ Ed) as Nd.
  split; intro Pos.
  - destruct (UnitRepository.unitCombatStats
                (SimulateBattle.attackerType cfg)) as [stats|] eqn:Es;
      [exists stats; reflexivity|].
    destruct (SimulateBattle.iterationsBelow
                (SimulateBattle.effectiveAttackerCount cfg)) as [|n];
      [lia|].
    rewrite (createPackFrom_Throw _ _ _ _ _ _ Es) in Ea. discriminate.
  - destruct (UnitRepository.unitCombatStats
                (SimulateBattle.defenderType cfg)) as [stats|] eqn:Es;
      [exists stats; reflexivity|].
    destruct (SimulateBattle.iterationsBelow
                (SimulateBattle.effectiveDefenderCount cfg)) as [|n];
      [lia|].
    rewrite (createPackFrom_Throw _ _ _ _ _ _ Es) in Ed. discriminate.
Qed.

Lemma spawnUnitsForTeam_adds (s : State) (t : Team) (ty : UnitType)
    (n : nat) :
  (0 < n -> exists stats, UnitRepository.unitCombatStats ty = Some stats)%nat ->
  let r := spawnUnitsForTeam s t ty (inject_Z (Z.of_nat n)) in
  snd r = []
  /\ phase (fst r) = phase s
  /\ deployManager (fst r) = deployManager s
  /\ onStats (fst r) = onStats s
  /\ length (units (fst r)) = (length (units s) + n)%nat
  /\ forall t',
       length (Notions.live t' (fst r))
       = (length (Notions.live t' s) + (if Team_eqb t t' then n else 0))%nat.
Proof.
  intros C r. subst r. unfold spawnUnitsForTeam.
  destruct (JS.le (inject_Z (Z.of_nat n)) 0) eqn:L.
  - apply le_true in L. change 0 with (inject_Z 0) in L.
    rewrite <- Zle_Qle in L. assert (n = O) by lia. subst n.
    cbn [fst snd]. repeat split; try reflexivity; try lia.
    intro t'. destruct (Team_eqb t t'); lia.
  - apply le_false in L. change 0 with (inject_Z 0) in L.
    rewrite <- Zlt_Qlt in L.
    destruct C as [stats E]; [lia|].
    cbv zeta. rewrite iterationsBelow_nat.
    apply (spawnUnitsFrom_adds ty stats t _ _ _ _ _ _ n E).
Qed.

(** X24: when auto-resolve returns a result the scene is in the battle phase,
    the deployment is empty, and the units on the field are the survivors of
    the winner, as many as the result reports: none at all after a draw, and
    none of the loser. *)
Theorem autoResolve_shows_survivors (fuel : nat) (s s' : State)
    (result : SimulateBattle.SimulationResult) (out : list Output) :
  autoResolveBattle fuel s = Return (Some result, s', out) ->
  phase s' = battle
  /\ length (attackers s')
     = match SimulateBattle.winner result with
       | SimulateBattle.won attacker =>
           SimulateBattle.remaining_attacker result
       | _ => O
       end
  /\ length (defenders s')
     = match SimulateBattle.winner result with
       | SimulateBattle.won defender =>
           SimulateBattle.remaining_defender result
       | _ => O
       end
  /\ length (units s')
     = (length (attackers s') + length (defenders s'))%nat
  /\ (forall dm, deployManager s' = Some dm -> DeployManager.getPacks dm = []).
Proof.
  unfold autoResolveBattle.
  destruct (phase s); [|intro E; inversion E].
  destruct ((_ =? 0)%nat || (_ =? 0)%nat); [intro E; inversion E|].
  destruct (newSet _) as [|attackerType [|]];
    try (intro E; inversion E; fail).
  destruct (newSet _) as [|defenderType [|]];
    try (intro E; inversion E; fail).
  destruct (existsb isArmedWarMachine _); [intro E; inversion E|].
  match goal with |- context [SimulateBattle.simulateBattle fuel ?c] =>
    set (cfg := c)
  end.
  destruct (SimulateBattle.simulateBattle fuel cfg) as [r| |] eqn:Er;
    cbn [bind]; try discriminate.
  destruct (simulate_created fuel cfg r Er) as [Ca Cd].
  cbn [SimulateBattle.attackerType SimulateBattle.defenderType cfg] in Ca, Cd.
  assert (Reset : phase (set_phase (fst (resetBattle s)) battle) = battle
                  /\ units (set_phase (fst (resetBattle s)) battle) = []
                  /\ attackers (set_phase (fst (resetBattle s)) battle) = []
                  /\ defenders (set_phase (fst (resetBattle s)) battle) = []
                  /\ forall dm,
                       deployManager (set_phase (fst (resetBattle s)) battle)
                       = Some dm -> DeployManager.getPacks dm = []).
  { unfold resetBattle. cbn [deployManager].
    destruct (deployManager s) as [dm0|]; cbn; repeat split; try reflexivity.
    - intros dm E. inversion E. reflexivity.
    - intros dm E. discriminate. }
  destruct (resetBattle s) as [s1 out1]. cbn [fst] in Reset.
  destruct Reset as (Rp & Ru & Ra & Rd & Rm).
  set (s2 := set_phase s1 battle) in *.
  destruct (SimulateBattle.winner r) as [[|]|] eqn:W.
  - pose proof (spawnUnitsForTeam_adds s2 attacker attackerType
                  (SimulateBattle.remaining_attacker r) Ca) as A.
    cbv zeta in A.
    destruct (spawnUnitsForTeam s2 attacker attackerType _) as [s3 out2].
    cbn [fst snd] in A. destruct A as (_ & P & D & _ & U & L).
    intro E. inversion E; subst. rewrite W.
    pose proof (L attacker) as La. pose proof (L defender) as Ld.
    cbn [Team_eqb Notions.live] in La, Ld.
    rewrite Ra in La. rewrite Rd in Ld.
    rewrite Ru in U. cbn [length] in *.
    split; [congruence|]. split; [exact La|]. split; [exact Ld|].
    split; [lia|]. intros dm Em. apply Rm. congruence.
  - pose proof (spawnUnitsForTeam_adds s2 defender defenderType
                  (SimulateBattle.remaining_defender r) Cd) as A.
    cbv zeta in A.
    destruct (spawnUnitsForTeam s2 defender defenderType _) as [s3 out2].
    cbn [fst snd] in A. destruct A as (_ & P & D & _ & U & L).
    intro E. inversion E; subst. rewrite W.
    pose proof (L attacker) as La. pose proof (L defender) as Ld.
    cbn [Team_eqb Notions.live] in La, Ld.
    rewrite Ra in La. rewrite Rd in Ld.
    rewrite Ru in U. cbn [length] in *.
    split; [congruence|]. split; [exact La|]. split; [exact Ld|].
    split; [lia|]. intros dm Em. apply Rm. congruence.
  - intro E. inversion E; subst. rewrite W, Ra, Rd, Ru.
    repeat split; try reflexivity; assumption.
Qed.

Lemma autoResolve_shows_survivors_witness :
  exists s' out,
    autoResolveBattle 2000 (Spec.exampleScene [Spec.warriors; Spec.dwarves])
    = Return
        (Some (SimulateBattle.mkSimulationResult
                 (SimulateBattle.won defender) 0 19 6100),
         s', out)
    /\ phase s' = battle
    /\ length (defenders s') = 19%nat.
Proof.
  destruct autoResolve_resolves as (s' & out & E & _).
  exists s', out. split; [exact E|].
  destruct (autoResolve_shows_survivors 2000 _ s' _ out E)
    as (P & _ & D & _).
  split; [exact P | exact D].
Defined.

End SceneFacts.

Section StartBattle.
Import BattleConfig BattleScene.

Lemma grown_refl (t : Team) (acc : State * list Output) :
  Notions.grown t 0 acc acc.
Proof.
  unfold Notions.grown. repeat split; try reflexivity;
    destruct (Team_eqb t _); lia.
Qed.

Lemma grown_trans (t : Team) (n m : nat) (a b c : State * list Output) :
  Notions.grown t n a b -> Notions.grown t m b c ->
  Notions.grown t (n + m) a c.
Proof.
  unfold Notions.grown. intros (A1 & A2 & A3 & A4 & A5 & A6)
    (B1 & B2 & B3 & B4 & B5 & B6).
  repeat split; try congruence.
  - rewrite B5, A5. destruct (Team_eqb t attacker); lia.
  - rewrite B6, A6. destruct (Team_eqb t defender); lia.
Qed.

Lemma unitCreator_grown (x y : Q) (t : Team) (ty : UnitType)
    (armed : option WarMachineArming.ArmedWarMachine)
    (stats : UnitRepository.CombatStats) (acc : State * list Output) :
  UnitRepository.unitCombatStats ty = Some stats ->
  Notions.grown t 1 acc (unitCreator x y t ty armed acc).
Proof.
  intro E. unfold unitCreator.
  destruct (createUnit_adds (fst acc) x y t ty armed stats E)
    as (O & P & D & S & _ & L).
  destruct (createUnit (fst acc) x y t ty armed) as [s' out'].
  cbn [fst snd] in *. subst out'. unfold Notions.grown. cbn [fst snd].
  rewrite app_nil_r.
  repeat split; try assumption.
  - apply (L attacker).
  - apply (L defender).
Qed.

Lemma forLoop_grown (t : Team) (k : nat)
    (body : Q -> State * list Output -> State * list Output) :
  (forall i acc, Notions.grown t k acc (body i acc)) ->
  forall (n : nat) (i : Q) (acc : State * list Output),
    Notions.grown t (n * k) acc (DeployManager.forLoop n i body acc).
Proof.
  intros H. induction n as [|n IH]; intros i acc;
    cbn [DeployManager.forLoop].
  - apply grown_refl.
  - change (S n * k)%nat with (k + n * k)%nat.
    apply (grown_trans t k (n * k) acc (body i acc)); [apply H | apply IH].
Qed.

Lemma materializePack_grown (next : Z) (pack : DeployManager.DeployPack)
    (acc : State * list Output) :
  Notions.soundPack next pack ->
  Notions.grown (DeployManager.team pack)
    (if isHeroType (DeployManager.type pack) then 1 else 20) acc
    (DeployManager.materializePack unitCreator acc pack).
Proof.
  intros (_ & Wm & _ & Sz & _).
  assert (C : exists stats,
            UnitRepository.unitCombatStats (DeployManager.type pack)
            = Some stats).
  { destruct (DeployManager.type pack); [eexists; reflexivity
      | eexists; reflexivity | discriminate]. }
  destruct C as [stats E].
  unfold DeployManager.materializePack. rewrite Sz.
  destruct (isHeroType (DeployManager.type pack)).
  - change (Qeq_bool 1 1) with true. cbv iota.
    apply (unitCreator_grown _ _ _ _ _ stats acc E).
  - change (Qeq_bool 20 1) with false. cbv iota zeta.
    change (SimulateBattle.iterationsBelow PACK_ROWS) with 4%nat.
    change (SimulateBattle.iterationsBelow PACK_COLS) with 5%nat.
    change 20%nat with (4 * 5)%nat.
    apply forLoop_grown. intros row acc1.
    change 5%nat with (5 * 1)%nat.
    apply forLoop_grown. intros col acc2.
    apply (unitCreator_grown _ _ _ _ _ stats acc2 E).
Qed.

Lemma materialize_counts (next : Z) (ps : list DeployManager.DeployPack) :
  (forall p, In p ps -> Notions.soundPack next p) ->
  forall acc : State * list Output,
    let acc' :=
      fold_left (DeployManager.materializePack unitCreator) ps acc in
    snd acc' = snd acc
    /\ phase (fst acc') = phase (fst acc)
    /\ onStats (fst acc') = onStats (fst acc)
    /\ count (attackers (fst acc'))
       == count (attackers (fst acc)) + Notions.teamUnits attacker ps
    /\ count (defenders (fst acc'))
       == count (defenders (fst acc)) + Notions.teamUnits defender ps.
Proof.
  unfold count.
  induction ps as [|p ps IH]; intros H acc; cbn [fold_left]; cbv zeta.
  - change (Notions.teamUnits attacker []) with 0.
    change (Notions.teamUnits defender []) with 0.
    repeat split; try reflexivity; ring.
  - assert (Hp : Notions.soundPack next p) by (apply H; left; reflexivity).
    pose proof (materializePack_grown next p acc Hp) as G.
    destruct Hp as (_ & _ & _ & Sz & _).
    set (acc1 := DeployManager.materializePack unitCreator acc p) in *.
    destruct (IH (fun q Hq => H q (or_intror Hq)) acc1)
      as (I1 & I2 & I3 & I4 & I5).
    destruct G as (G1 & G2 & _ & G4 & G5 & G6).
    split; [congruence|]. split; [congruence|]. split; [congruence|].
    rewrite I4, I5, !teamUnits_cons. rewrite G5, G6, Sz.
    rewrite !Nat2Z.inj_add, !inject_Z_plus.
    destruct (DeployManager.team p); cbn [Team_eqb];
      destruct (isHeroType (DeployManager.type p)); cbn; split; ring.
Qed.

(** X25: starting the battle from a deployment puts every deployed unit on
    the field: each team has as many units more as [getTeamUnitCount] gave
    for it, the deployment is left without packs and without selection,
    and nothing is sent out but the stats. *)
Theorem startBattle_fields_the_deployment (s : State)
    (dm : DeployManager.State) :
  phase s = deploy -> deployManager s = Some dm -> Notions.reachable dm ->
  phase (fst (startBattle s)) = battle
  /\ count (attackers (fst (startBattle s)))
     == count (attackers s) + DeployManager.getTeamUnitCount dm attacker
  /\ count (defenders (fst (startBattle s)))
     == count (defenders s) + DeployManager.getTeamUnitCount dm defender
  /\ (exists dm',
        deployManager (fst (startBattle s)) = Some dm'
        /\ DeployManager.getPacks dm' = []
        /\ DeployManager.selectedPackId dm' = None)
  /\ snd (startBattle s) = emitStats (fst (startBattle s)).
Proof.
  intros Ph Dm R. pose proof (reachable_invariant dm R) as I.
  unfold startBattle. rewrite Ph.
  change (deployManager (set_phase s battle)) with (deployManager s).
  rewrite Dm. unfold DeployManager.materialize.
  destruct (materialize_counts (DeployManager.nextPackId dm)
              (DeployManager.packs dm) (Notions.packsSound dm I)
              (set_phase s battle, []))
    as (O & P & S & A & D).
  cbv zeta in O, P, S, A, D.
  set (acc := fold_left (DeployManager.materializePack unitCreator)
                (DeployManager.packs dm) (set_phase s battle, [])) in *.
  cbn [fst snd] in *. rewrite O. cbn [app].
  split; [exact P|].
  split; [rewrite A, getTeamUnitCount_sum; reflexivity|].
  split; [rewrite D, getTeamUnitCount_sum; reflexivity|].
  split; [|reflexivity].
  eexists. split; [reflexivity|]. split; reflexivity.
Qed.

Lemma startBattle_fields_the_deployment_witness :
  phase Notions.sceneAfterTwoClicks = deploy
  /\ deployManager Notions.sceneAfterTwoClicks = Some Notions.afterTwoClicks
  /\ Notions.reachable Notions.afterTwoClicks
  /\ phase (fst (startBattle Notions.sceneAfterTwoClicks)) = battle
  /\ count (attackers (fst (startBattle Notions.sceneAfterTwoClicks)))
     == count (attackers Notions.sceneAfterTwoClicks)
        + DeployManager.getTeamUnitCount Notions.afterTwoClicks attacker.
Proof.
  split; [reflexivity|]. split; [reflexivity|].
  split; [apply afterTwoClicks_reachable|].
  destruct (startBattle_fields_the_deployment Notions.sceneAfterTwoClicks
              Notions.afterTwoClicks eq_refl eq_refl afterTwoClicks_reachable)
    as (P & A & _).
  split; [exact P | exact A].
Defined.

(** X26: [resetBattle] of a scene that has its deployment manager and a stats
    callback calls the callback twice, both times with the deploy phase and
    0 units on either side, and leaves no unit and no pack. *)
Theorem resetBattle_reports_zero_twice (s : State)
    (dm : DeployManager.State) :
  deployManager s = Some dm -> onStats s = true ->
  snd (resetBattle s)
  = [StatsCallback (mkBattleStats deploy 0 0);
     StatsCallback (mkBattleStats deploy 0 0)]
  /\ phase (fst (resetBattle s)) = deploy
  /\ units (fst (resetBattle s)) = []
  /\ attackers (fst (resetBattle s)) = []
  /\ defenders (fst (resetBattle s)) = []
  /\ nextUnitId (fst (resetBattle s)) = 1%Z
  /\ (exists dm',
        deployManager (fst (resetBattle s)) = Some dm'
        /\ DeployManager.getPacks dm' = []
        /\ DeployManager.nextPackId dm' = 1%Z).
Proof.
  intros Dm On. unfold resetBattle. cbn [deployManager]. rewrite Dm.
  cbn [fst snd phase units attackers defenders nextUnitId deployManager
       onStats].
  unfold emitStats. cbn [onStats phase deployManager]. rewrite On.
  repeat split. eexists. repeat split.
Qed.

Lemma resetBattle_reports_zero_twice_witness :
  deployManager Notions.sceneAfterTwoClicks = Some Notions.afterTwoClicks
  /\ onStats Notions.sceneAfterTwoClicks = true
  /\ snd (resetBattle Notions.sceneAfterTwoClicks)
     = [StatsCallback (mkBattleStats deploy 0 0);
        StatsCallback (mkBattleStats deploy 0 0)].
Proof.
  split; [reflexivity|]. split; [reflexivity|].
  apply (resetBattle_reports_zero_twice Notions.sceneAfterTwoClicks
           Notions.afterTwoClicks eq_refl eq_refl).
Defined.

End StartBattle.

(** ** The catalogue *)

Section CatalogueFacts.
Import UnitRepository.

(** X27: every entry of the catalogue is well formed, with attack, health
    and speed above 0, a defense of 0 or more and a range, where it has
    one, above 0; and an entry has a ranged damage exactly when it has a
    range. *)
Theorem catalogue_is_well_formed (type : UnitType) (stats : CombatStats) :
  unitCombatStats type = Some stats ->
  Spec.wellFormedEntry stats
  /\ (range stats = None <-> rangeDamage stats = None).
Proof.
  intro E.
  destruct type as [r|h|w]; [destruct r | destruct h | discriminate];
    inversion E; subst stats;
    (split;
     [ repeat split; try reflexivity; try discriminate;
       intros q H; inversion H; reflexivity
     | split; intro H; first [reflexivity | discriminate H] ]).
Qed.

Lemma catalogue_is_well_formed_witness :
  unitCombatStats (Hero RANGER) = Some (heroCombatStats RANGER)
  /\ Spec.wellFormedEntry (heroCombatStats RANGER).
Proof.
  split; [reflexivity|].
  apply (catalogue_is_well_formed (Hero RANGER) (heroCombatStats RANGER)
           eq_refl).
Defined.

End CatalogueFacts.
